(** * Agentic compliance mapping: the document pipeline, embedded and verified

    A shallow embedding of the algorithmic core of the compliance pipeline
    (OCR normaliser, clause segmenter, clause classifier, entity recogniser,
    semantic mapper, risk consolidator) together with the properties the
    specification states about it, and of the code around it (table
    detection, extraction quality, the tool's keyword classifier, entity
    statistics, the pages of a clause, retrying, chunking) with further
    properties read off the code.

    Modelling conventions, used throughout:
    - a Python [float] is an exact rational ([Q]); arithmetic is exact and
      [round(x, 3)] is rounding to the nearest thousandth, ties to even.
      Equalities between scores are stated with [==] ([Qeq]);
    - a Python [int] is a [Z] (a length or a count is a [nat] injected where
      it meets a float);
    - a Python [str] is a list of ASCII characters ([list ascii]); the
      character classes of [re] and [str] are the ASCII ones;
    - a [dict] read by key is a [gmap] when only lookups matter and an
      association list when the iteration order is observable;
    - an exception is a value of an error type threaded through a small
      state-and-error monad. *)

From Stdlib Require Import ZArith QArith Qround Qabs List String Ascii Lia Lqa Bool Sorted.
From stdpp Require Import base option gmap strings pretty.
Import ListNotations.

(* ===================================================================== *)
(** * Part I. The program *)
(* ===================================================================== *)

(** ** Python built-ins on numbers *)

Module Py.
Local Open Scope Q_scope.

(** [x < y] on floats. *)
Definition Qltb (x y : Q) : bool := (Qnum x * QDen y <? Qnum y * QDen x)%Z.

(** [max(a, b)] returns [a] unless [b > a]; [min(a, b)] returns [a] unless
    [b < a]. *)
Definition max (a b : Q) : Q := if Qltb a b then b else a.
Definition min (a b : Q) : Q := if Qltb b a then b else a.

(** [sum(xs)]: left to right, from 0. *)
Definition sum (xs : list Q) : Q := fold_left Qplus xs 0.

(** [len(xs)] where it meets a float. *)
Definition len {A} (xs : list A) : Q := inject_Z (Z.of_nat (length xs)).

(** Nearest integer, ties to the even one. *)
Definition round_half_even (x : Q) : Z :=
  let f := Qfloor x in
  let r := x - inject_Z f in
  if Qltb r 0.5 then f
  else if Qltb 0.5 r then (f + 1)%Z
  else if Z.even f then f else (f + 1)%Z.

(** [round(x, 3)]. *)
Definition round3 (x : Q) : Q := round_half_even (x * 1000) # 1000.

(** A computation that returns a number, up to the representation of the
    rational: [returns o q] when [o] is [Some x] with [x == q]. *)
Definition returns (o : option Q) (q : Q) : Prop := exists x, o = Some x /\ x == q.

(** The arithmetic mean the specification speaks of (0 for no values). *)
Definition mean (xs : list Q) : Q :=
  match xs with
  | [] => 0
  | _ => sum xs / len xs
  end.

End Py.

(** ** Effects: state and exceptions

    A handler runs against a state (a database, a lazily loaded model) and
    any call may raise. [M S A] is a computation over the state [S] that
    returns an [A] or raises; the state reached when an exception is raised is
    kept, as it is in Python. *)

Module Eff.

(** The exceptions the handlers tell apart: [OSError], and any other
    [Exception]. [except Exception] catches both. *)
Inductive exception :=
| Exception (msg : string)
| OSError (msg : string).

Inductive result (A : Type) :=
| Ok (a : A)
| Raise (e : exception).
Arguments Ok {A} a.
Arguments Raise {A} e.

Definition M (S A : Type) : Type := S -> result A * S.

Definition ret {S A} (a : A) : M S A := fun s => (Ok a, s).

Definition bind {S A B} (m : M S A) (k : A -> M S B) : M S B :=
  fun s =>
    match m s with
    | (Ok a, s') => k a s'
    | (Raise e, s') => (Raise e, s')
    end.

Definition raise {S A} (e : exception) : M S A := fun s => (Raise e, s).

(** A call to a collaborator, which returns or raises. *)
Definition call {S A} (r : result A) : M S A := fun s => (r, s).

Definition get {S} : M S S := fun s => (Ok s, s).
Definition modify {S} (g : S -> S) : M S unit := fun s => (Ok tt, g s).

(** [try: m  except Exception as e: h e] *)
Definition try_except {S A} (m : M S A) (h : exception -> M S A) : M S A :=
  fun s =>
    match m s with
    | (Ok a, s') => (Ok a, s')
    | (Raise e, s') => h e s'
    end.

(** [for x in xs: acc = body(acc, x)] *)
Fixpoint for_each {S A B} (xs : list A) (body : B -> A -> M S B) (acc : B) : M S B :=
  match xs with
  | [] => ret acc
  | x :: xs' => bind (body acc x) (for_each xs' body)
  end.

End Eff.

Declare Scope eff_scope.
Delimit Scope eff_scope with eff.
Notation "x <- m ;; k" := (Eff.bind m (fun x => k))
  (at level 100, m at next level, right associativity) : eff_scope.
Notation "m ;; k" := (Eff.bind m (fun _ => k))
  (at level 100, right associativity) : eff_scope.

(** ** Python strings *)

Module Str.

(** A Python [str]. *)
Definition str (s : string) : list ascii := list_ascii_of_string s.

Definition code (c : ascii) : nat := nat_of_ascii c.

Definition between (lo hi : nat) (c : ascii) : bool :=
  Nat.leb lo (code c) && Nat.leb (code c) hi.

(** [c.isspace()] on ASCII: tab, newline, vertical tab, form feed, carriage
    return, the four separators 0x1c-0x1f, and space. *)
Definition isspace (c : ascii) : bool :=
  between 9 13 c || between 28 31 c || Nat.eqb (code c) 32.

(** [c.isdigit()] on ASCII, and the class [0-9]. *)
Definition isdigit (c : ascii) : bool := between 48 57 c.

Definition isupper (c : ascii) : bool := between 65 90 c.
Definition islower (c : ascii) : bool := between 97 122 c.

Definition lower_char (c : ascii) : ascii :=
  if isupper c then ascii_of_nat (code c + 32) else c.

Definition upper_char (c : ascii) : ascii :=
  if islower c then ascii_of_nat (code c - 32) else c.

(** [s.lower()], [s.upper()] *)
Definition lower (s : list ascii) : list ascii := map lower_char s.
Definition upper (s : list ascii) : list ascii := map upper_char s.

Fixpoint lstrip (s : list ascii) : list ascii :=
  match s with
  | c :: s' => if isspace c then lstrip s' else s
  | [] => []
  end.

Definition rstrip (s : list ascii) : list ascii := rev (lstrip (rev s)).

(** [s.strip()] *)
Definition strip (s : list ascii) : list ascii := rstrip (lstrip s).

(** [s.startswith(p)] *)
Fixpoint startswith (p s : list ascii) : bool :=
  match p, s with
  | [], _ => true
  | a :: p', b :: s' => Ascii.eqb a b && startswith p' s'
  | _ :: _, [] => false
  end.

(** [p in s] *)
Fixpoint contains (p s : list ascii) : bool :=
  startswith p s ||
  match s with
  | _ :: s' => contains p s'
  | [] => false
  end.

(** [s.split()]: the maximal runs of non-space characters. [cur] is the word
    being read, reversed. *)
Fixpoint split_go (cur : list ascii) (s : list ascii) : list (list ascii) :=
  match s with
  | [] => match cur with [] => [] | _ => [rev cur] end
  | c :: s' =>
      if isspace c
      then match cur with [] => split_go [] s' | _ => rev cur :: split_go [] s' end
      else split_go (c :: cur) s'
  end.

Definition split (s : list ascii) : list (list ascii) := split_go [] s.

(** [s.split(sep)] for a non-empty separator: cut at each occurrence, left
    to right. [skip] counts the characters of a separator still to drop. *)
Fixpoint split_sep_go (sep : list ascii) (skip : nat) (cur : list ascii) (s : list ascii)
  : list (list ascii) :=
  match s with
  | [] => [rev cur]
  | c :: s' =>
      match skip with
      | S j => split_sep_go sep j cur s'
      | O =>
          if startswith sep s
          then rev cur :: split_sep_go sep (length sep - 1) [] s'
          else split_sep_go sep 0 (c :: cur) s'
      end
  end.

Definition split_sep (sep s : list ascii) : list (list ascii) := split_sep_go sep 0 [] s.

(** [re.sub(r'\s+', ' ', s)]: every run of white space becomes one space.
    [in_run] tells that the previous character was white space. *)
Fixpoint collapse_spaces (in_run : bool) (s : list ascii) : list ascii :=
  match s with
  | [] => []
  | c :: s' =>
      if isspace c
      then if in_run then collapse_spaces true s' else " "%char :: collapse_spaces true s'
      else c :: collapse_spaces false s'
  end.

(** [s.title()]: a letter that follows a letter is lowered, any other letter
    is raised. *)
Fixpoint title_go (after_letter : bool) (s : list ascii) : list ascii :=
  match s with
  | [] => []
  | c :: s' =>
      let letter := islower c || isupper c in
      (if after_letter then lower_char c else upper_char c) :: title_go letter s'
  end.

Definition title (s : list ascii) : list ascii := title_go false s.

(** An index of a slice, as Python normalises it: a negative index counts
    from the end, and the result is clipped to [0, len]. *)
Definition clip (len i : Z) : nat :=
  let i := if (i <? 0)%Z then (i + len)%Z else i in
  Z.to_nat (Z.max 0 (Z.min len i)).

(** [s[a:b]] *)
Definition slice (s : list ascii) (a b : Z) : list ascii :=
  let len := Z.of_nat (length s) in
  let a' := clip len a in
  let b' := clip len b in
  firstn (b' - a') (skipn a' s).

End Str.

(** ** Regular expressions, as [re] matches them

    A backtracking matcher written in continuation-passing style: the
    continuation is the rest of the pattern, and a branch that makes it fail is
    abandoned for the next one, in the order in which [re] tries them (greedy
    repetitions longest first, lazy ones shortest first, alternatives left to
    right). Every quantifier of the patterns of this program stands on a
    single character or class, which is what [Rep] provides. *)

Module Re.

Inductive item :=
| IChar (c : ascii)
| IRange (lo hi : ascii)
| IDigit
| ISpace.

Inductive cclass :=
| CDigit                                  (* \d *)
| CSpace                                  (* \s *)
| CAny                                    (* .  *)
| CLit (c : ascii)                        (* a literal character *)
| CSet (negated : bool) (items : list item).   (* [...] and [^...] *)

Record flags := { IGNORECASE : bool; DOTALL : bool }.

Inductive regex :=
| Eps
| Chr (c : cclass)
| Seq (r1 r2 : regex)
| Alt (r1 r2 : regex)
| Rep (c : cclass) (lo : nat) (hi : option nat) (greedy : bool)
| Ahead (r : regex)                       (* (?=r) *)
| EndZ.                                   (* \Z *)

Definition item_matches (i : item) (c : ascii) : bool :=
  match i with
  | IChar x => Ascii.eqb x c
  | IRange lo hi => Str.between (Str.code lo) (Str.code hi) c
  | IDigit => Str.isdigit c
  | ISpace => Str.isspace c
  end.

Definition cclass_matches (f : flags) (cl : cclass) (c : ascii) : bool :=
  match cl with
  | CDigit => Str.isdigit c
  | CSpace => Str.isspace c
  | CAny => DOTALL f || negb (Ascii.eqb c "010"%char)
  | CLit x =>
      if IGNORECASE f then Ascii.eqb (Str.lower_char x) (Str.lower_char c)
      else Ascii.eqb x c
  | CSet negated items =>
      let hit :=
        existsb (fun i => item_matches i c) items ||
        (IGNORECASE f &&
         (existsb (fun i => item_matches i (Str.lower_char c)) items ||
          existsb (fun i => item_matches i (Str.upper_char c)) items)) in
      if negated then negb hit else hit
  end.

Definition may_repeat (hi : option nat) : bool :=
  match hi with Some O => false | _ => true end.

Definition one_less (hi : option nat) : option nat :=
  match hi with Some n => Some (Nat.pred n) | None => None end.

Section Matcher.
Variable f : flags.

(** [c{lo,hi}], longest first. [n] is the number of characters consumed so
    far, [s] what is left of the text. *)
Fixpoint rep_greedy (cl : cclass) (lo : nat) (hi : option nat) (n : nat) (s : list ascii)
  (k : nat -> list ascii -> option nat) : option nat :=
  let stop := match lo with O => k n s | S _ => None end in
  match s with
  | c :: s' =>
      if cclass_matches f cl c && may_repeat hi then
        match rep_greedy cl (Nat.pred lo) (one_less hi) (S n) s' k with
        | Some x => Some x
        | None => stop
        end
      else stop
  | [] => stop
  end.

(** [c{lo,hi}?], shortest first. *)
Fixpoint rep_lazy (cl : cclass) (lo : nat) (hi : option nat) (n : nat) (s : list ascii)
  (k : nat -> list ascii -> option nat) : option nat :=
  let more :=
    match s with
    | c :: s' =>
        if cclass_matches f cl c && may_repeat hi
        then rep_lazy cl (Nat.pred lo) (one_less hi) (S n) s' k
        else None
    | [] => None
    end in
  match lo with
  | O => match k n s with Some x => Some x | None => more end
  | S _ => more
  end.

Fixpoint exec (r : regex) (n : nat) (s : list ascii)
  (k : nat -> list ascii -> option nat) : option nat :=
  match r with
  | Eps => k n s
  | Chr cl =>
      match s with
      | c :: s' => if cclass_matches f cl c then k (S n) s' else None
      | [] => None
      end
  | Seq r1 r2 => exec r1 n s (fun n' s' => exec r2 n' s' k)
  | Alt r1 r2 =>
      match exec r1 n s k with
      | Some x => Some x
      | None => exec r2 n s k
      end
  | Rep cl lo hi true => rep_greedy cl lo hi n s k
  | Rep cl lo hi false => rep_lazy cl lo hi n s k
  | Ahead r1 =>
      match exec r1 n s (fun n' _ => Some n') with
      | Some _ => k n s
      | None => None
      end
  | EndZ => match s with [] => k n s | _ :: _ => None end
  end.

(** The length of the match of [r] at the start of [s], if there is one. *)
Definition match_here (r : regex) (s : list ascii) : option nat :=
  exec r 0 s (fun n _ => Some n).

(** [re.search(r, s)] as a truth value: a match starts somewhere in [s]. *)
Fixpoint search (r : regex) (s : list ascii) : bool :=
  match match_here r s with
  | Some _ => true
  | None => match s with _ :: s' => search r s' | [] => false end
  end.

(** [re.findall(r, s)] for a pattern whose one group is the whole match: the
    matches, left to right, each search starting where the last match ended.
    [skip] counts the characters of the last match still to pass. After an
    empty match the scan moves on by one character. *)
Fixpoint findall_from (r : regex) (skip : nat) (s : list ascii) : list (list ascii) :=
  match skip with
  | S j => match s with _ :: s' => findall_from r j s' | [] => [] end
  | O =>
      match match_here r s with
      | Some len =>
          firstn len s ::
          match s with _ :: s' => findall_from r (Nat.pred len) s' | [] => [] end
      | None => match s with _ :: s' => findall_from r 0 s' | [] => [] end
      end
  end.

Definition findall (r : regex) (s : list ascii) : list (list ascii) := findall_from r 0 s.

End Matcher.

(** Pattern syntax. *)
Definition plus (c : cclass) : regex := Rep c 1 None true.        (* c+  *)
Definition star (c : cclass) : regex := Rep c 0 None true.        (* c*  *)
Definition plus_lazy (c : cclass) : regex := Rep c 1 None false.  (* c+? *)
Definition star_lazy (c : cclass) : regex := Rep c 0 None false.  (* c*? *)
Definition times (n : nat) (c : cclass) : regex := Rep c n (Some n) true.  (* c{n} *)

Fixpoint seqs (rs : list regex) : regex :=
  match rs with
  | [] => Eps
  | [r] => r
  | r :: rs' => Seq r (seqs rs')
  end.

(** A literal word, character by character. *)
Definition lit (w : string) : regex := seqs (map (fun c => Chr (CLit c)) (Str.str w)).

End Re.

(** ** OCR normaliser (document_ingestion/pdf_processor.py)

    The block graph, the page/line hierarchy and the confidences. Geometry,
    and the table and image heuristics that read it, are left out: no
    confidence depends on them. *)

Module PDFProcessor.
Local Open Scope Q_scope.

Record relationship := {
  rel_Type : option string;          (* 'Type' *)
  Ids : list string
}.

(** A block of the recognition result; an absent key is [None]. *)
Record block := {
  BlockType : option string;
  Id : option string;
  Page : option Z;
  Text : option (list ascii);
  Confidence : option Q;
  Relationships : list relationship
}.

Record word_info := {
  word_text : list ascii;
  word_confidence : Q
}.

Record line_info := {
  line_text : list ascii;
  line_confidence : Q;
  line_words : list word_info;
  line_word_count : nat
}.

Record page_info := {
  page_number : Z;
  page_text : list ascii;
  page_lines : list line_info;
  page_confidence : Q;
  page_word_count : nat;
  page_line_count : nat
}.

Record document := {
  pages : list page_info;
  full_text : list ascii;
  confidence : Q;
  total_pages : nat;
  total_blocks : nat;
  page_blocks : nat;
  line_blocks : nat;
  word_blocks : nat
}.

(** [d[k] = v] on a dictionary whose iteration order is observed: a known key
    keeps its place, a new key goes last. *)
Fixpoint dict_set {V} (k : option string) (v : V) (d : list (option string * V))
  : list (option string * V) :=
  match d with
  | [] => [(k, v)]
  | (k', v') :: d' =>
      if decide (k = k') then (k, v) :: d' else (k', v') :: dict_set k v d'
  end.

(** [sep.join(parts)] *)
Fixpoint join (sep : list ascii) (parts : list (list ascii)) : list ascii :=
  match parts with
  | [] => []
  | [x] => x
  | x :: rest => x ++ sep ++ join sep rest
  end.

(** The ids under the relationships of type CHILD. *)
Definition child_ids (b : block) : list string :=
  flat_map (fun r => if decide (rel_Type r = Some "CHILD") then Ids r else [])
           (Relationships b).

Definition _process_line (line_block : block) (words : gmap (option string) block)
  : line_info :=
  let line_words :=
    flat_map (fun word_id =>
                match words !! Some word_id with
                | Some word_block =>
                    [ {| word_text := default [] (Text word_block);
                         word_confidence := default 0.0 (Confidence word_block) |} ]
                | None => []
                end) (child_ids line_block) in
  {| line_text := default [] (Text line_block);
     line_confidence := default 0.0 (Confidence line_block);
     line_words := line_words;
     line_word_count := length line_words |}.

Definition _process_page (page_block : block)
  (lines words : gmap (option string) block) : page_info :=
  let '(page_lines, page_confidence_sum, confidence_count) :=
    fold_left (fun '(page_lines, page_confidence_sum, confidence_count) line_id =>
                 match lines !! Some line_id with
                 | Some line_block =>
                     let line := _process_line line_block words in
                     if Py.Qltb 0 (line_confidence line)
                     then (page_lines ++ [line],
                           page_confidence_sum + line_confidence line,
                           S confidence_count)
                     else (page_lines ++ [line], page_confidence_sum, confidence_count)
                 | None => (page_lines, page_confidence_sum, confidence_count)
                 end)
              (child_ids page_block) ([], 0.0, O) in
  let page_confidence :=
    if Nat.ltb 0 confidence_count
    then page_confidence_sum / inject_Z (Z.of_nat confidence_count) else 0.0 in
  let page_text :=
    join ["010"%char]
      (List.filter (fun t => negb (Nat.eqb (length t) 0)) (map line_text page_lines)) in
  {| page_number := default 1%Z (Page page_block);
     page_text := page_text;
     page_lines := page_lines;
     page_confidence := Py.round3 page_confidence;
     page_word_count := length (Str.split page_text);
     page_line_count := length page_lines |}.

Definition _extract_full_text (processed_pages : list page_info) : list ascii :=
  join ["010"%char]
    (flat_map (fun page =>
                 match page_text page with
                 | [] => []
                 | t => [ Str.str ("--- Page " +:+ pretty (page_number page) +:+ " ---");
                          t; [] ]
                 end) processed_pages).

(** The loop of [process_textract_results] over the pages: the sum and the
    number of the page confidences that are counted. *)
Definition confidence_loop (processed_pages : list page_info) : Q * nat :=
  fold_left (fun '(overall_confidence, total_confidence_blocks) page =>
               if Py.Qltb 0 (page_confidence page)
               then (overall_confidence + page_confidence page, S total_confidence_blocks)
               else (overall_confidence, total_confidence_blocks))
            processed_pages (0.0, O).

Definition process_textract_results (blocks : list block) : document :=
  let '(pages, lines, words) :=
    fold_left (fun '(pages, lines, words) b =>
                 if decide (BlockType b = Some "PAGE") then (dict_set (Id b) b pages, lines, words)
                 else if decide (BlockType b = Some "LINE") then (pages, <[Id b := b]> lines, words)
                 else if decide (BlockType b = Some "WORD") then (pages, lines, <[Id b := b]> words)
                 else (pages, lines, words))
              blocks ([], ∅, ∅) in
  let processed_pages := map (fun kv => _process_page kv.2 lines words) pages in
  let '(overall_confidence, total_confidence_blocks) := confidence_loop processed_pages in
  let overall_confidence :=
    if Nat.ltb 0 total_confidence_blocks
    then overall_confidence / inject_Z (Z.of_nat total_confidence_blocks)
    else overall_confidence in
  {| pages := processed_pages;
     full_text := _extract_full_text processed_pages;
     confidence := Py.round3 overall_confidence;
     total_pages := length processed_pages;
     total_blocks := length blocks;
     page_blocks := length pages;
     line_blocks := size lines;
     word_blocks := size words |}.

End PDFProcessor.

(** ** Clause segmenter (clause_extraction/langchain_processor.py) *)

Module ClauseExtractionTool.
Import Re.

Record clause := {
  clause_number : string;
  text : list ascii;
  extraction_method : string;
  section_reference : string
}.

(** [re.DOTALL] *)
Definition dotall : flags := {| IGNORECASE := false; DOTALL := true |}.

Definition digit_dot_space : regex := seqs [plus CDigit; Chr (CLit "."); plus CSpace].

(** [r'(\d+\.\s+[^0-9]+?)(?=\d+\.\s+|\Z)'] *)
Definition numbered_pattern : regex :=
  seqs [ plus CDigit; Chr (CLit "."); plus CSpace;
         plus_lazy (CSet true [IRange "0" "9"]);
         Ahead (Alt digit_dot_space EndZ) ].

Definition letter_paren_space : regex :=
  seqs [Chr (CSet false [IRange "a" "z"]); Chr (CLit ")"); plus CSpace].

(** [r'([a-z]\)\s+[^a-z\)]+?)(?=[a-z]\)\s+|\Z)'] *)
Definition lettered_pattern : regex :=
  seqs [ Chr (CSet false [IRange "a" "z"]); Chr (CLit ")"); plus CSpace;
         plus_lazy (CSet true [IRange "a" "z"; IChar ")"]);
         Ahead (Alt letter_paren_space EndZ) ].

Definition section_digits : regex :=
  seqs [Alt (lit "SECTION") (lit "Section"); plus CSpace; plus CDigit].

(** [r'((?:SECTION|Section)\s+\d+[^S]*?)(?=(?:SECTION|Section)\s+\d+|\Z)'] *)
Definition section_pattern : regex :=
  seqs [ Alt (lit "SECTION") (lit "Section"); plus CSpace; plus CDigit;
         star_lazy (CSet true [IChar "S"]);
         Ahead (Alt section_digits EndZ) ].

(** [re.findall(numbered_pattern, text, re.DOTALL)] *)
Definition numbered_matches (t : list ascii) : list (list ascii) :=
  findall dotall numbered_pattern t.

Definition lettered_matches (t : list ascii) : list (list ascii) :=
  findall dotall lettered_pattern t.

Definition section_matches (t : list ascii) : list (list ascii) :=
  findall dotall section_pattern t.

(** [chr(ord('a') + i)] (within ASCII). *)
Definition letter (i : nat) : string := String (ascii_of_nat (97 + i)) EmptyString.

Definition _extract_clauses_by_pattern (t : list ascii) : list clause :=
  let clauses :=
    imap (fun i m =>
      {| clause_number := pretty (i + 1);
         text := Str.strip m;
         extraction_method := "numbered_pattern";
         section_reference := "Clause " +:+ pretty (i + 1) |}) (numbered_matches t)
    ++
    imap (fun i m =>
      {| clause_number := letter i +:+ ")";
         text := Str.strip m;
         extraction_method := "lettered_pattern";
         section_reference := "Clause " +:+ letter i +:+ ")" |}) (lettered_matches t)
    ++
    imap (fun i m =>
      {| clause_number := "S" +:+ pretty (i + 1);
         text := Str.strip m;
         extraction_method := "section_pattern";
         section_reference := "Section " +:+ pretty (i + 1) |}) (section_matches t) in
  match clauses with
  | [] =>
      let paragraphs :=
        List.filter (fun p => negb (Nat.eqb (length p) 0) && Nat.ltb 50 (length p))
          (map Str.strip (Str.split_sep [ "010"%char; "010"%char ] t)) in
      imap (fun i paragraph =>
        {| clause_number := "P" +:+ pretty (i + 1);
           text := paragraph;
           extraction_method := "paragraph_split";
           section_reference := "Paragraph " +:+ pretty (i + 1) |}) paragraphs
  | _ => clauses
  end.

End ClauseExtractionTool.

(** ** Clause classifier (clause_extraction/clause_classifier.py)

    The rule table, the scoring of a clause against it and the choice of the
    primary category and subtype. The feature extraction of [classify_clause]
    (mandatory and penalty language, complexity, references) does not take
    part in the scoring and is left out. *)

Module ClauseClassifier.
Import Re.
Local Open Scope Q_scope.

Record rules := {
  keywords : list string;
  regulatory_patterns : list regex;
  weight : Q;
  subtypes : list (string * list string)
}.

(** Words separated by [\s+]: [spaced ["whs"; "act"]] is [r'whs\s+act']. *)
Fixpoint spaced (ws : list string) : regex :=
  match ws with
  | [] => Eps
  | [w] => lit w
  | w :: ws' => Seq (lit w) (Seq (plus CSpace) (spaced ws'))
  end.

(** [_load_classification_rules], in the order of the dictionary. *)
Definition classification_rules : list (string * rules) := [
  ("safety_compliance",
   {| keywords := [
        "safety"; "health"; "whs"; "work health and safety";
        "occupational health"; "hazard"; "risk assessment";
        "safety management system"; "sms"; "safety procedures";
        "personal protective equipment"; "ppe"; "safety training";
        "incident"; "accident"; "injury"; "fatality";
        "emergency"; "evacuation"; "first aid"; "safety officer";
        "safety inspection"; "safety audit"; "safety compliance";
        "hazard identification"; "risk control"; "safety plan" ];
      regulatory_patterns := [
        (* whs\s+act\s+\d{4} *)
        Seq (spaced ["whs"; "act"]) (Seq (plus CSpace) (times 4 CDigit));
        (* work\s+health\s+and\s+safety\s+act *)
        spaced ["work"; "health"; "and"; "safety"; "act"];
        (* occupational\s+health\s+and\s+safety *)
        spaced ["occupational"; "health"; "and"; "safety"];
        (* safety\s+management\s+system *)
        spaced ["safety"; "management"; "system"];
        (* as\s+\d+\.\d+.*safety *)
        seqs [lit "as"; plus CSpace; plus CDigit; Chr (CLit "."); plus CDigit;
              star CAny; lit "safety"] ];
      weight := 1.0;
      subtypes := [
        ("safety_management_system", ["sms"; "safety management system"; "safety management"]);
        ("hazard_management", ["hazard"; "risk assessment"; "hazard identification"]);
        ("emergency_procedures", ["emergency"; "evacuation"; "emergency response"]);
        ("safety_training", ["safety training"; "competency"; "safety education"]);
        ("contractor_safety", ["contractor safety"; "subcontractor safety"]) ] |});
  ("environmental_compliance",
   {| keywords := [
        "environmental"; "environment"; "epbc"; "environmental protection";
        "biodiversity"; "cultural heritage"; "native title";
        "rehabilitation"; "restoration"; "remediation";
        "water"; "air quality"; "noise"; "dust"; "emissions";
        "waste"; "contamination"; "pollution"; "discharge";
        "impact assessment"; "environmental impact";
        "flora"; "fauna"; "ecosystem"; "habitat";
        "groundwater"; "surface water"; "water management" ];
      regulatory_patterns := [
        spaced ["epbc"; "act"];
        spaced ["environment"; "protection"; "and"; "biodiversity"; "conservation"];
        spaced ["environmental"; "protection"; "act"];
        spaced ["native"; "title"; "act"];
        spaced ["cultural"; "heritage"; "act"] ];
      weight := 1.0;
      subtypes := [
        ("environmental_impact_assessment", ["eia"; "impact assessment"; "environmental assessment"]);
        ("water_management", ["water"; "groundwater"; "surface water"; "water quality"]);
        ("rehabilitation_obligations", ["rehabilitation"; "restoration"; "remediation"]);
        ("waste_management", ["waste"; "disposal"; "waste management"]);
        ("cultural_heritage", ["cultural heritage"; "aboriginal heritage"; "indigenous"]) ] |});
  ("operational_compliance",
   {| keywords := [
        "tenement"; "mining lease"; "exploration licence";
        "production"; "extraction"; "mining operations";
        "reporting"; "audit"; "inspection"; "monitoring";
        "compliance"; "record keeping"; "documentation";
        "annual report"; "quarterly report"; "notification";
        "approval"; "permit"; "licence"; "authorization";
        "variation"; "amendment"; "renewal"; "transfer" ];
      regulatory_patterns := [
        (* mining\s+act\s+\d{4} *)
        Seq (spaced ["mining"; "act"]) (Seq (plus CSpace) (times 4 CDigit));
        spaced ["petroleum"; "and"; "gas"; "act"];
        spaced ["mineral"; "resources"; "act"];
        spaced ["exploration"; "licence"];
        spaced ["mining"; "lease"] ];
      weight := 1.0;
      subtypes := [
        ("tenement_conditions", ["tenement"; "lease conditions"; "licence conditions"]);
        ("reporting_obligations", ["reporting"; "report"; "notification"]);
        ("audit_access", ["audit"; "inspection"; "access"]);
        ("documentation_requirements", ["documentation"; "record keeping"; "records"]);
        ("change_management", ["variation"; "amendment"; "change"]) ] |});
  ("commercial_terms",
   {| keywords := [
        "payment"; "price"; "cost"; "fee"; "charge";
        "invoice"; "billing"; "remuneration"; "compensation";
        "delivery"; "supply"; "provision"; "service";
        "warranty"; "guarantee"; "representation";
        "indemnity"; "liability"; "insurance";
        "termination"; "expiry"; "renewal"; "extension" ];
      regulatory_patterns := [ lit "gst"; lit "tax"; lit "duty"; lit "levy" ];
      weight := 0.8;
      subtypes := [
        ("payment_terms", ["payment"; "invoice"; "billing"; "remuneration"]);
        ("delivery_conditions", ["delivery"; "supply"; "provision"]);
        ("warranties", ["warranty"; "guarantee"; "representation"]);
        ("indemnities", ["indemnity"; "liability"; "insurance"]);
        ("termination_clauses", ["termination"; "expiry"; "breach"]) ] |});
  ("legal_provisions",
   {| keywords := [
        "governing law"; "jurisdiction"; "dispute resolution";
        "arbitration"; "mediation"; "court"; "tribunal";
        "breach"; "default"; "remedy"; "damages";
        "force majeure"; "act of god"; "unforeseen circumstances";
        "confidentiality"; "non-disclosure"; "proprietary";
        "intellectual property"; "copyright"; "patent" ];
      regulatory_patterns := [
        spaced ["corporations"; "act"];
        spaced ["competition"; "and"; "consumer"; "act"];
        spaced ["australian"; "consumer"; "law"] ];
      weight := 0.7;
      subtypes := [
        ("dispute_resolution", ["dispute"; "arbitration"; "mediation"]);
        ("governing_law", ["governing law"; "jurisdiction"]);
        ("confidentiality", ["confidential"; "non-disclosure"; "proprietary"]);
        ("intellectual_property", ["intellectual property"; "copyright"; "patent"]);
        ("force_majeure", ["force majeure"; "act of god"]) ] |})
].

(** The characters kept by [r'[^\w\s\.\,\;\:\!\?\-\(\)]']. *)
Definition kept (c : ascii) : bool :=
  Str.islower c || Str.isupper c || Str.isdigit c || Ascii.eqb c "_" ||
  Str.isspace c ||
  existsb (Ascii.eqb c) (Str.str ".,;:!?-()").

Definition _preprocess_text (t : list ascii) : list ascii :=
  let t := Str.lower t in
  let t := Str.collapse_spaces false t in
  let t := map (fun c => if kept c then c else " "%char) t in
  Str.strip t.

Record score_data := {
  raw_score : Q;
  weighted_score : Q;
  normalized_score : Q;
  keywords_found : nat
}.

(** [re.IGNORECASE] *)
Definition ignorecase : flags := {| IGNORECASE := true; DOTALL := false |}.

(** The body of the loop of [_apply_classification_rules] for one category. *)
Definition score_rules (t : list ascii) (r : rules) : score_data :=
  let '(score, keywords_found) :=
    fold_left (fun '(score, found) keyword =>
                 if Str.contains (Str.str keyword) t
                 then (score + 1.0, S found) else (score, found))
              (keywords r) (0.0, O) in
  let score :=
    fold_left (fun score pattern =>
                 if search ignorecase pattern t then score + 2.0 else score)
              (regulatory_patterns r) score in
  let weighted_score := score * weight r in
  let word_count := Py.len (Str.split t) in
  let normalized_score := weighted_score / Py.max 1 (word_count / 50) in
  {| raw_score := score;
     weighted_score := weighted_score;
     normalized_score := Py.min 1.0 normalized_score;
     keywords_found := keywords_found |}.

Definition _apply_classification_rules (t : list ascii) : list (string * score_data) :=
  map (fun cr => (cr.1, score_rules t cr.2)) classification_rules.

(** The loop of [_determine_primary_classification]: the running best. *)
Definition best_of (scores : list (string * score_data)) : string * Q :=
  fold_left (fun '(best_type, best_score) cs =>
               if Py.Qltb best_score (normalized_score cs.2)
               then (cs.1, normalized_score cs.2)
               else (best_type, best_score))
            scores ("unknown", 0.0).

Definition _determine_primary_classification (scores : list (string * score_data))
  : string * Q :=
  match scores with
  | [] => ("unknown", 0.0)
  | _ =>
      let '(best_type, best_score) := best_of scores in
      if Py.Qltb best_score 0.1 then ("unknown", 0.0) else (best_type, best_score)
  end.

Definition rules_of (primary_type : string) : option rules :=
  snd <$> List.find (fun cr => String.eqb cr.1 primary_type) classification_rules.

Definition _determine_subtype (primary_type : string) (t : list ascii) : string :=
  if String.eqb primary_type "unknown" then ""
  else match rules_of primary_type with
  | None => ""
  | Some r =>
      fst (fold_left (fun '(best_subtype, best_score) sk =>
                        let score :=
                          length (List.filter (fun k => Str.contains (Str.str k) t) sk.2) in
                        if Nat.ltb best_score score then (sk.1, score)
                        else (best_subtype, best_score))
                     (subtypes r) ("", O))
  end.

(** The classification steps of [classify_clause] on a non-blank clause. *)
Definition classify_primary (clause_text : list ascii) : string * Q :=
  _determine_primary_classification
    (_apply_classification_rules (_preprocess_text clause_text)).

End ClauseClassifier.

(** ** Entity recogniser (clause_extraction/entity_recognizer.py)

    Entities are the dictionaries the recogniser builds; their [metadata] is
    left out. [re.finditer] over the entity patterns and the spaCy pipeline
    are collaborators: a match is known by its offsets and its group, an
    spaCy entity by its text, label and offsets, and each call returns or
    raises. *)

Module EntityRecognizer.
Import Eff.
Local Open Scope Q_scope.

Record entity := {
  entity_type : string;
  entity_value : list ascii;
  confidence : Q;
  start_position : Z;
  end_position : Z;
  context : list ascii;
  normalized_value : list ascii;
  extraction_method : string
}.

(** A match object: [match.start()], [match.end()], [match.group(1)]. *)
Record re_match := {
  m_start : nat;
  m_end : nat;
  group1 : list ascii
}.

(** An entity of [doc.ents]. *)
Record spacy_ent := {
  ent_text : list ascii;
  label_ : string;
  start_char : nat;
  end_char : nat
}.

(** A loaded pipeline: [nlp(text)] returns the entities of the document. *)
Definition pipeline : Type := list ascii -> result (list spacy_ent).

(** The recogniser's mutable state: [self.nlp]. *)
Record recognizer := { nlp : option pipeline }.

Definition australian_jurisdictions : list string := [
  "new south wales"; "nsw"; "queensland"; "qld";
  "western australia"; "wa"; "south australia"; "sa";
  "victoria"; "vic"; "tasmania"; "tas";
  "northern territory"; "nt"; "australian capital territory"; "act";
  "commonwealth"; "federal"; "australia" ].

(** [_load_entity_patterns], in the order of the dictionary. *)
Definition entity_patterns : list (string * list string) := [
  ("regulation_reference", [
     "\b([A-Z][a-zA-Z\s]+Act\s+\d{4})\b";
     "\b(Regulation\s+\d+[A-Za-z]?(?:\(\d+\))?)\b";
     "\b(Section\s+\d+[A-Za-z]?(?:\(\d+\))?)\b";
     "\b(Part\s+[IVX]+[A-Za-z]?)\b";
     "\b(Schedule\s+\d+[A-Za-z]?)\b";
     "\b(Clause\s+\d+[A-Za-z]?(?:\(\d+\))?)\b" ]);
  ("standard_reference", [
     "\b(AS\s+\d+(?:\.\d+)?(?::\d{4})?)\b";
     "\b(ISO\s+\d+(?::\d{4})?)\b";
     "\b(ANSI\s+[A-Z]+\d+)\b";
     "\b(BS\s+\d+(?::\d{4})?)\b";
     "\b(EN\s+\d+(?::\d{4})?)\b" ]);
  ("organization", [
     "\b([A-Z][a-zA-Z\s&]+(?:Pty|Ltd|Inc|Corp|Company|Corporation|Group|Holdings)\.?)\b";
     "\b([A-Z][a-zA-Z\s]+(?:Department|Ministry|Authority|Commission|Board|Agency))\b";
     "\b([A-Z][a-zA-Z\s]+(?:Council|Government|Administration))\b" ]);
  ("location", [
     "\b(New South Wales|NSW|Queensland|QLD|Western Australia|WA|South Australia|SA|Victoria|VIC|Tasmania|TAS|Northern Territory|NT|Australian Capital Territory|ACT)\b";
     "\b([A-Z][a-zA-Z\s]+(?:City|Town|Shire|Municipality|Region))\b";
     "\b([A-Z][a-zA-Z\s]+(?:Mine|Quarry|Site|Facility|Plant))\b" ]);
  ("date", [
     "\b(\d{1,2}[\/\-\.]\d{1,2}[\/\-\.]\d{2,4})\b";
     "\b(\d{1,2}\s+(?:Jan|Feb|Mar|Apr|May|Jun|Jul|Aug|Sep|Oct|Nov|Dec)[a-z]*\s+\d{2,4})\b";
     "\b((?:Jan|Feb|Mar|Apr|May|Jun|Jul|Aug|Sep|Oct|Nov|Dec)[a-z]*\s+\d{1,2},?\s+\d{2,4})\b";
     "\b(\d{2,4}[\/\-\.]\d{1,2}[\/\-\.]\d{1,2})\b" ]);
  ("monetary", [
     "(\$\s*\d{1,3}(?:,\d{3})*(?:\.\d{2})?)";
     "\b(\d{1,3}(?:,\d{3})*(?:\.\d{2})?\s*dollars?)\b";
     "\b(\d{1,3}(?:,\d{3})*(?:\.\d{2})?\s*AUD)\b" ]);
  ("percentage", [
     "\b(\d+(?:\.\d+)?%)\b";
     "\b(\d+(?:\.\d+)?\s*per\s*cent)\b" ]);
  ("time_period", [
     "\b(\d+\s*(?:day|week|month|year|hour)s?)\b";
     "\b(within\s+\d+\s*(?:day|week|month|year|hour)s?)\b";
     "\b(not\s+less\s+than\s+\d+\s*(?:day|week|month|year)s?)\b" ]);
  ("mining_equipment", [
     "\b(excavator|bulldozer|dump\s+truck|loader|drill|crusher|conveyor|processing\s+plant)\b";
     "\b(haul\s+truck|grader|compactor|dragline|shovel|scraper)\b" ]);
  ("safety_equipment", [
     "\b(hard\s+hat|safety\s+helmet|high\s+vis|safety\s+vest|safety\s+boots)\b";
     "\b(respirator|breathing\s+apparatus|gas\s+detector|safety\s+harness)\b";
     "\b(first\s+aid\s+kit|emergency\s+equipment|fire\s+extinguisher)\b" ]);
  ("environmental_term", [
     "\b(groundwater|surface\s+water|water\s+table|aquifer|watershed)\b";
     "\b(flora|fauna|ecosystem|habitat|biodiversity|endangered\s+species)\b";
     "\b(air\s+quality|noise\s+level|dust\s+emission|water\s+quality)\b" ])
].

(** [d.get(k, default)] on a dictionary of constants. *)
Fixpoint lookup {V} (k : string) (d : list (string * V)) : option V :=
  match d with
  | [] => None
  | (k', v) :: d' => if String.eqb k k' then Some v else lookup k d'
  end.

Definition _calculate_pattern_confidence (entity_type : string) (entity_value : list ascii) : Q :=
  let base_confidence := 0.8 in
  let type_adjustments := [
    ("regulation_reference", 0.1); ("standard_reference", 0.1);
    ("monetary", 0.05); ("percentage", 0.05); ("date", 0.0);
    ("organization", -0.1); ("location", -0.1) ] in
  let adjustment := default 0.0 (lookup entity_type type_adjustments) in
  let confidence := base_confidence + adjustment in
  let confidence :=
    if Nat.ltb (length entity_value) 3 then confidence - 0.2
    else if Nat.ltb 100 (length entity_value) then confidence - 0.1
    else confidence in
  Py.max 0.1 (Py.min 1.0 confidence).

Definition _calculate_spacy_confidence (ent : spacy_ent) : Q :=
  let base_confidence := 0.7 in
  if Nat.ltb (length (ent_text ent)) 2 then 0.3
  else if Nat.ltb 50 (length (ent_text ent)) then 0.5
  else
    let label_confidence := [
      ("ORG", 0.8); ("GPE", 0.9); ("DATE", 0.9); ("MONEY", 0.9);
      ("PERCENT", 0.9); ("LAW", 0.7); ("PERSON", 0.6) ] in
    default base_confidence (lookup (label_ ent) label_confidence).

Definition _map_spacy_entity_type (spacy_label : string) : option string :=
  lookup spacy_label [
    ("ORG", "organization"); ("GPE", "location"); ("LOC", "location");
    ("DATE", "date"); ("TIME", "time_period"); ("MONEY", "monetary");
    ("PERCENT", "percentage"); ("LAW", "regulation_reference");
    ("PERSON", "person"); ("PRODUCT", "mining_equipment") ].

Definition list_eqb (a b : list ascii) : bool :=
  String.eqb (string_of_list_ascii a) (string_of_list_ascii b).

Definition _normalize_entity_value (entity_type : string) (entity_value : list ascii)
  : list ascii :=
  let normalized := Str.strip entity_value in
  if String.eqb entity_type "location" then
    let normalized_lower := Str.lower normalized in
    match List.find (fun j => list_eqb (Str.lower (Str.str j)) normalized_lower)
                    australian_jurisdictions with
    | Some jurisdiction =>
        let jurisdiction_map := [
          ("new south wales", "NSW"); ("queensland", "QLD");
          ("western australia", "WA"); ("south australia", "SA");
          ("victoria", "VIC"); ("tasmania", "TAS");
          ("northern territory", "NT"); ("australian capital territory", "ACT") ] in
        match lookup (string_of_list_ascii (Str.lower (Str.str jurisdiction)))
                     jurisdiction_map with
        | Some abbreviation => Str.str abbreviation
        | None => Str.upper (Str.str jurisdiction)
        end
    | None => normalized
    end
  else if String.eqb entity_type "regulation_reference" then
    Str.title (Str.collapse_spaces false normalized)
  else if String.eqb entity_type "standard_reference" then
    Str.upper normalized
  else if String.eqb entity_type "monetary" then
    List.filter (fun c => Str.isdigit c || existsb (Ascii.eqb c) (Str.str ".$,")) normalized
  else if String.eqb entity_type "percentage" then
    List.filter (fun c => negb (Str.isspace c)) normalized
  else if String.eqb entity_type "date" then
    Str.collapse_spaces false normalized
  else normalized.

(** [text[max(0, start - 50):min(len(text), end + 50)].strip()] *)
Definition context_of (t : list ascii) (first last : nat) : list ascii :=
  Str.strip (Str.slice t (Z.max 0 (Z.of_nat first - 50))
                         (Z.min (Z.of_nat (length t)) (Z.of_nat last + 50))).

Definition pattern_entity (t : list ascii) (entity_type : string) (m : re_match) : entity :=
  let entity_value := group1 m in
  {| entity_type := entity_type;
     entity_value := Str.strip entity_value;
     confidence := _calculate_pattern_confidence entity_type entity_value;
     start_position := Z.of_nat (m_start m);
     end_position := Z.of_nat (m_end m);
     context := context_of t (m_start m) (m_end m);
     normalized_value := _normalize_entity_value entity_type entity_value;
     extraction_method := "pattern" |}.

Definition spacy_entity (t : list ascii) (entity_type : string) (ent : spacy_ent) : entity :=
  {| entity_type := entity_type;
     entity_value := Str.strip (ent_text ent);
     confidence := _calculate_spacy_confidence ent;
     start_position := Z.of_nat (start_char ent);
     end_position := Z.of_nat (end_char ent);
     context := context_of t (start_char ent) (end_char ent);
     normalized_value := _normalize_entity_value entity_type (ent_text ent);
     extraction_method := "spacy" |}.

(** [sorted(entities, key=lambda x: x['start_position'])]: the stable sort by
    start position, here by insertion. *)
Fixpoint insert_by_start (e : entity) (sorted : list entity) : list entity :=
  match sorted with
  | [] => [e]
  | x :: rest =>
      if (start_position e <=? start_position x)%Z then e :: x :: rest
      else x :: insert_by_start e rest
  end.

Definition sorted_by_start (entities : list entity) : list entity :=
  fold_right insert_by_start [] entities.

(** The overlap test of [_merge_entities]. *)
Definition overlaps (current_entity next_entity : entity) : bool :=
  (start_position next_entity <=? end_position current_entity)%Z &&
  (end_position next_entity >=? start_position current_entity)%Z.

(** One turn of the loop of [_merge_entities], on [(merged, current_entity)]. *)
Definition merge_step (state : list entity * entity) (next_entity : entity)
  : list entity * entity :=
  let '(merged, current_entity) := state in
  if overlaps current_entity next_entity then
    if Py.Qltb (confidence current_entity) (confidence next_entity)
    then (merged, next_entity)
    else (merged, current_entity)
  else (merged ++ [current_entity], next_entity).

Definition _merge_entities (entities : list entity) : list entity :=
  match entities with
  | [] => []
  | _ =>
      match sorted_by_start entities with
      | [] => []
      | first :: rest =>
          let '(merged, current_entity) := fold_left merge_step rest ([], first) in
          merged ++ [current_entity]
      end
  end.

(** The test an entity passes in [_validate_entities]. *)
Definition valid (t : list ascii) (e : entity) : bool :=
  negb (Nat.eqb (length (entity_value e)) 0 ||
        Nat.ltb (length (Str.strip (entity_value e))) 2) &&
  negb (Py.Qltb (confidence e) 0.3) &&
  ((start_position e >=? 0)%Z &&
   (end_position e <=? Z.of_nat (length t))%Z &&
   Str.contains (Str.lower (entity_value e))
                (Str.lower (Str.slice t (start_position e) (end_position e)))).

Definition _validate_entities (entities : list entity) (t : list ascii) : list entity :=
  List.filter (valid t) entities.

Section Collaborators.
Local Open Scope eff_scope.

(** [re.finditer(pattern, text, re.IGNORECASE)], as the list of its matches. *)
Variable finditer : string -> list ascii -> result (list re_match).
(** [spacy.load("en_core_web_sm")] *)
Variable spacy_load : result pipeline.

Definition _extract_pattern_entities (t : list ascii) : M recognizer (list entity) :=
  for_each entity_patterns (fun entities tp =>
    for_each tp.2 (fun entities pattern =>
      matches <- call (finditer pattern t) ;;
      ret (entities ++ map (pattern_entity t tp.1) matches)) entities) [].

(** [_load_spacy_model]: only [OSError] is handled. *)
Definition _load_spacy_model : M recognizer unit :=
  self <- get ;;
  match nlp self with
  | Some _ => ret tt
  | None =>
      try_except
        (model <- call spacy_load ;;
         modify (fun _ => {| nlp := Some model |}))
        (fun e =>
           match e with
           | OSError _ => modify (fun _ => {| nlp := None |})
           | _ => raise e
           end)
  end.

(** [_extract_spacy_entities]: any exception is logged and the entities
    gathered so far are returned. *)
Definition _extract_spacy_entities (model : pipeline) (t : list ascii)
  : M recognizer (list entity) :=
  try_except
    (ents <- call (model t) ;;
     ret (flat_map (fun ent =>
                      match _map_spacy_entity_type (label_ ent) with
                      | Some entity_type => [spacy_entity t entity_type ent]
                      | None => []
                      end) ents))
    (fun _ => ret []).

(** The [try] block of [extract_entities]. *)
Definition extract_entities_try (t : list ascii) : M recognizer (list entity) :=
  if Nat.eqb (length t) 0 || Nat.eqb (length (Str.strip t)) 0 then ret []
  else
    pattern_entities <- _extract_pattern_entities t ;;
    self <- get ;;
    (match nlp self with
     | None => _load_spacy_model
     | Some _ => ret tt
     end) ;;
    self <- get ;;
    spacy_entities <-
      (match nlp self with
       | Some model => _extract_spacy_entities model t
       | None => ret []
       end) ;;
    let entities := pattern_entities ++ spacy_entities in
    let merged_entities := _merge_entities entities in
    let validated_entities := _validate_entities merged_entities t in
    ret validated_entities.

(** [extract_entities]: whatever is raised inside is logged and the empty
    list is returned. *)
Definition extract_entities (t : list ascii) : M recognizer (list entity) :=
  try_except (extract_entities_try t) (fun _ => ret []).

End Collaborators.

End EntityRecognizer.

(** ** Semantic mapper (semantic_mapping/handler.py)

    The handler against the tables it reads and writes. The embedding service,
    the similarity query and the event bus are collaborators: each call
    returns or raises. The timestamp and the request id of an API response are
    left out. *)

Module SemanticMappingHandler.
Import Eff.
Local Open Scope eff_scope.

Record clause_row := {
  CLAUSE_ID : string;
  CLAUSE_TEXT : list ascii;
  CLAUSE_TYPE : string;
  DOCUMENT_ID : string
}.

Record regulation_row := {
  regulation_id : string;
  similarity_score : Q;
  regulation_category : string
}.

Record mapping_row := {
  compliance_mapping_id : string;
  clause_id : string;
  mapped_regulation_id : string;
  mapped_similarity_score : Q;
  mapping_type : string;
  compliance_category : string
}.

Record embedding_row := {
  embedding_id : string;
  embedded_clause_id : string;
  embedding : list Q;
  chunk_text : list ascii
}.

Record bus_event := {
  Source : string;
  DetailType : string;
  detail_document_id : option string;
  detail_status : string;
  pipeline_stage : string;
  EventBusName : string
}.

(** The tables, and the events put on the bus. [RAW_DOCUMENTS] pairs a
    document id with its [processing_status]. *)
Record database := {
  RAW_DOCUMENTS : list (string * string);
  CLAUSES : list clause_row;
  CLAUSE_EMBEDDINGS : list embedding_row;
  COMPLIANCE_MAPPINGS : list mapping_row;
  published : list bus_event
}.

Record response := {
  success : bool;
  data_document_id : option string;
  mappings_created : nat;
  processing_status : string;
  error_code : string
}.

Section Services.
(** [SNOWFLAKE.CORTEX.EMBED_TEXT_1536] *)
Variable embed_text : list ascii -> result (list Q).
(** The similarity query over [VECTORS.REGULATION_EMBEDDINGS]. *)
Variable similar_regulations : list Q -> result (list regulation_row).
(** [eventbridge.put_events] *)
Variable put_events : bus_event -> result unit.

Definition generate_embedding (t : list ascii) : M database (list Q) :=
  call (embed_text t).

Definition store_clause_embedding (cid : string) (clause_text : list ascii)
  : M database string :=
  e <- generate_embedding clause_text ;;
  modify (fun db =>
    {| RAW_DOCUMENTS := RAW_DOCUMENTS db;
       CLAUSES := CLAUSES db;
       CLAUSE_EMBEDDINGS :=
         CLAUSE_EMBEDDINGS db ++
         [ {| embedding_id := "emb_" +:+ cid; embedded_clause_id := cid;
              embedding := e; chunk_text := clause_text |} ];
       COMPLIANCE_MAPPINGS := COMPLIANCE_MAPPINGS db;
       published := published db |}) ;;
  ret ("emb_" +:+ cid).

Definition find_similar_regulations (e : list Q) : M database (list regulation_row) :=
  call (similar_regulations e).

(** [INSERT INTO ANALYTICS.COMPLIANCE_MAPPINGS ...] *)
Definition insert_mapping (row : mapping_row) : M database unit :=
  modify (fun db =>
    {| RAW_DOCUMENTS := RAW_DOCUMENTS db;
       CLAUSES := CLAUSES db;
       CLAUSE_EMBEDDINGS := CLAUSE_EMBEDDINGS db;
       COMPLIANCE_MAPPINGS := COMPLIANCE_MAPPINGS db ++ [row];
       published := published db |}).

(** [SELECT ... FROM PROCESSED.CLAUSES WHERE document_id = ...] *)
Definition select_clauses (document_id : option string) : M database (list clause_row) :=
  db <- get ;;
  ret (List.filter (fun c => bool_decide (Some (DOCUMENT_ID c) = document_id)) (CLAUSES db)).

Definition _publish_mapping_event (document_id : option string) (status : string)
  : M database unit :=
  let ev := {| Source := "compliance.semantic.mapping";
               DetailType := "Semantic Mapping Status Change";
               detail_document_id := document_id;
               detail_status := status;
               pipeline_stage := "semantic_mapping";
               EventBusName := "compliance-processing-bus" |} in
  call (put_events ev) ;;
  modify (fun db =>
    {| RAW_DOCUMENTS := RAW_DOCUMENTS db;
       CLAUSES := CLAUSES db;
       CLAUSE_EMBEDDINGS := CLAUSE_EMBEDDINGS db;
       COMPLIANCE_MAPPINGS := COMPLIANCE_MAPPINGS db;
       published := published db ++ [ev] |}).

(** The row built for a clause and a similar regulation. *)
Definition mapping_data (clause : clause_row) (reg : regulation_row) : mapping_row :=
  {| compliance_mapping_id := "map_" +:+ CLAUSE_ID clause +:+ "_" +:+ regulation_id reg;
     clause_id := CLAUSE_ID clause;
     mapped_regulation_id := regulation_id reg;
     mapped_similarity_score := similarity_score reg;
     mapping_type := "semantic_similarity";
     compliance_category := regulation_category reg |}.

(** [process_semantic_mapping(event)], with [event.get('document_id')]. *)
Definition process_semantic_mapping (document_id : option string) : M database response :=
  try_except
    (clauses <- select_clauses document_id ;;
     created <-
       for_each clauses (fun created clause =>
         e <- generate_embedding (CLAUSE_TEXT clause) ;;
         store_clause_embedding (CLAUSE_ID clause) (CLAUSE_TEXT clause) ;;
         similar_regs <- find_similar_regulations e ;;
         for_each similar_regs (fun created reg =>
           insert_mapping (mapping_data clause reg) ;;
           ret (S created)) created) O ;;
     _publish_mapping_event document_id "semantic_mapping_completed" ;;
     ret {| success := true;
            data_document_id := document_id;
            mappings_created := created;
            processing_status := "semantic_mapping_completed";
            error_code := "" |})
    (fun e =>
     ret {| success := false;
            data_document_id := None;
            mappings_created := O;
            processing_status := "";
            error_code := "SEMANTIC_MAPPING_ERROR" |}).

End Services.

End SemanticMappingHandler.

(** ** Risk consolidator (agentic_reasoning) *)

(** A row of ANALYTICS.COMPLIANCE_MAPPINGS as the agents read it: every field
    is read with [dict.get], so a missing key is [None]. *)
Record mapping := {
  clause_id : option string;
  compliance_category : option string;
  similarity_score : option Q
}.

Record gap := {
  gap_clause_id : option string;
  gap_type : string;
  severity : string;
  recommendation : string
}.

(** The values the agents store in their result dictionaries. *)
Inductive value :=
| VFloat (q : Q)
| VInt (n : Z)
| VStr (s : string)
| VStrs (l : list string)
| VGaps (l : list gap).

(** [m.get('similarity_score', 0)] *)
Definition get_similarity (m : mapping) : Q := default 0%Q (similarity_score m).

(** [m.get('compliance_category') == c] *)
Definition category_is (c : string) (m : mapping) : bool :=
  bool_decide (compliance_category m = Some c).

(** [dict] literals, built key by key in source order. *)
Definition dict_of (kvs : list (string * value)) : gmap string value :=
  fold_left (fun d kv => <[kv.1 := kv.2]> d) kvs ∅.

Module SafetyComplianceAgent.
Local Open Scope Q_scope.

Definition gaps_of (safety_mappings : list mapping) : list gap :=
  fold_left (fun gaps m =>
    if Py.Qltb (get_similarity m) 0.8
    then gaps ++ [ {| gap_clause_id := clause_id m;
                      gap_type := "low_similarity";
                      severity := "medium";
                      recommendation := "Review safety requirements alignment" |} ]
    else gaps) safety_mappings [].

Definition analyze_compliance (mappings : list mapping) : gmap string value :=
  let safety_mappings := List.filter (category_is "safety_compliance") mappings in
  let gaps := gaps_of safety_mappings in
  let risk_score := Py.max 0.3 (1.0 - Py.len gaps / Py.max 1 (Py.len safety_mappings)) in
  dict_of [
    ("compliance_gaps", VGaps gaps);
    ("risk_score", VFloat risk_score);
    ("risk_level", VStr (if Py.Qltb risk_score 0.6 then "high"
                         else if Py.Qltb risk_score 0.8 then "medium" else "low"));
    ("recommendations",
       VStrs ["Address " +:+ pretty (length gaps) +:+ " safety compliance gaps"]);
    ("mappings_analyzed", VInt (Z.of_nat (length safety_mappings)))
  ].

End SafetyComplianceAgent.

Module EnvironmentalAgent.
Local Open Scope Q_scope.

Definition gaps_of (env_mappings : list mapping) : list gap :=
  fold_left (fun gaps m =>
    if Py.Qltb (get_similarity m) 0.75
    then gaps ++ [ {| gap_clause_id := clause_id m;
                      gap_type := "environmental_alignment";
                      severity := "high";
                      recommendation := "Strengthen environmental compliance requirements" |} ]
    else gaps) env_mappings [].

Definition analyze_compliance (mappings : list mapping) : gmap string value :=
  let env_mappings := List.filter (category_is "environmental_compliance") mappings in
  let gaps := gaps_of env_mappings in
  let risk_score := Py.max 0.2 (1.0 - Py.len gaps / Py.max 1 (Py.len env_mappings)) in
  dict_of [
    ("compliance_gaps", VGaps gaps);
    ("risk_score", VFloat risk_score);
    ("risk_level", VStr (if Py.Qltb risk_score 0.5 then "critical"
                         else if Py.Qltb risk_score 0.7 then "high" else "medium"));
    ("recommendations",
       VStrs ["Address " +:+ pretty (length gaps) +:+ " environmental compliance gaps"]);
    ("mappings_analyzed", VInt (Z.of_nat (length env_mappings)))
  ].

End EnvironmentalAgent.

Module RiskAssessmentAgent.
Local Open Scope Q_scope.

Definition analyze_compliance (mappings : list mapping) : gmap string value :=
  let total_mappings := length mappings in
  if Nat.eqb total_mappings 0 then
    dict_of [
      ("overall_risk_score", VFloat 1.0);
      ("risk_level", VStr "critical");
      ("risk_factors", VStrs ["No compliance mappings found"]);
      ("recommendations", VStrs ["Immediate compliance review required"])
    ]
  else
    let low_similarity_count :=
      length (List.filter (fun m => Py.Qltb (get_similarity m) 0.7) mappings) in
    let risk_ratio := inject_Z (Z.of_nat low_similarity_count) / Py.len mappings in
    let overall_risk := Py.min 1.0 (risk_ratio + 0.2) in
    let risk_level :=
      if Py.Qltb 0.8 overall_risk then "critical"
      else if Py.Qltb 0.6 overall_risk then "high"
      else if Py.Qltb 0.4 overall_risk then "medium" else "low" in
    dict_of [
      ("overall_risk_score", VFloat (Py.round3 overall_risk));
      ("risk_level", VStr risk_level);
      ("risk_factors",
         VStrs [pretty low_similarity_count +:+ " mappings with low similarity"]);
      ("recommendations",
         VStrs [if Py.Qltb 0.6 overall_risk
                then "Comprehensive compliance review recommended"
                else "Monitor compliance status"]);
      ("mappings_analyzed", VInt (Z.of_nat total_mappings))
    ].

End RiskAssessmentAgent.

Module AgenticReasoningHandler.
Local Open Scope Q_scope.

(** [self.agents], in insertion order. *)
Definition agents : list (string * (list mapping -> gmap string value)) :=
  [ ("safety", SafetyComplianceAgent.analyze_compliance);
    ("environmental", EnvironmentalAgent.analyze_compliance);
    ("risk", RiskAssessmentAgent.analyze_compliance) ].

(** The loop of [process_agentic_reasoning] that fills [agent_results]. *)
Definition run_agents (mappings : list mapping) : list (string * gmap string value) :=
  map (fun na => (na.1, na.2 mappings)) agents.

(** A number inside [sum]; anything else makes [sum] raise [TypeError]. *)
Definition as_number (v : value) : option Q :=
  match v with
  | VFloat q => Some q
  | VInt n => Some (inject_Z n)
  | _ => None
  end.

Record consolidated := {
  overall_risk_score : Q;
  agent_count : nat;
  consolidated_recommendations : list string
}.

(** [_consolidate_analyses]; [None] is the [TypeError] of [sum] on a
    non-numeric score. *)
Definition _consolidate_analyses (agent_results : list (string * gmap string value))
  : option consolidated :=
  risk_scores ← mapM (fun nr => as_number (default (VFloat 0.5) (nr.2 !! "risk_score")))
                     agent_results;
  let overall_risk :=
    match risk_scores with
    | [] => 0.5
    | _ => Py.sum risk_scores / Py.len risk_scores
    end in
  Some {| overall_risk_score := Py.round3 overall_risk;
          agent_count := length agent_results;
          consolidated_recommendations := [] |}.

(** The score an agent reports about itself: the safety and environmental
    agents under ['risk_score'], the risk agent under ['overall_risk_score']. *)
Definition reported_score (r : gmap string value) : option Q :=
  match r !! "risk_score" with
  | Some v => as_number v
  | None => r !! "overall_risk_score" ≫= as_number
  end.

(** Follows the specification's words: the mean of the three agents' risk
    scores, rounded to 3 decimals. *)
Definition spec_overall_risk_score (mappings : list mapping) : option Q :=
  scores ← mapM (fun nr => reported_score nr.2) (run_agents mappings);
  Some (Py.round3 (Py.mean scores)).

End AgenticReasoningHandler.

(** ** pdf_processor.py: table detection *)

Module PDFTables.
Import PDFProcessor.
Local Open Scope Q_scope.

(** A processed line together with what [_lines_are_consecutive] reads of its
    ['geometry']: the ['BoundingBox'] dictionary, [None] when the key is
    absent. *)
Record located_line := {
  info : line_info;
  BoundingBox : option (gmap string Q)
}.

Record table := {
  table_type : string;
  table_lines : list located_line;
  row_count : nat;
  table_confidence : Q
}.

(** [r'\t|\s{3,}|\|'] *)
Definition column_pattern : Re.regex :=
  Re.Alt (Re.Chr (Re.CLit "009"%char))
         (Re.Alt (Re.Rep Re.CSpace 3 None true) (Re.Chr (Re.CLit "|"%char))).

Definition no_flags : Re.flags := {| Re.IGNORECASE := false; Re.DOTALL := false |}.

(** The test of the first loop of [_detect_tables]. *)
Definition looks_tabular (line : located_line) : bool :=
  let text := line_text (info line) in
  Re.search no_flags column_pattern text && Nat.ltb 2 (length (Str.split text)).

Definition _lines_are_consecutive (line1 line2 : located_line) : bool :=
  let geom1 := default ∅ (BoundingBox line1) in
  let geom2 := default ∅ (BoundingBox line2) in
  if bool_decide (geom1 = ∅) || bool_decide (geom2 = ∅) then false
  else
    let y1_bottom := default 0 (geom1 !! "Top") + default 0 (geom1 !! "Height") in
    let y2_top := default 0 (geom2 !! "Top") in
    let gap := Qabs (y2_top - y1_bottom) in
    Py.Qltb gap 0.05.

Definition detected_table (current_table : list located_line) : table :=
  {| table_type := "detected_table";
     table_lines := current_table;
     row_count := length current_table;
     table_confidence :=
       Py.sum (map (fun l => line_confidence (info l)) current_table)
       / Py.len current_table |}.

(** One turn of the grouping loop, on the state [(tables, current_table)]. *)
Definition group_step (st : list table * list located_line) (line : located_line)
  : list table * list located_line :=
  let '(tables, current_table) := st in
  if match last current_table with
     | None => true
     | Some l => _lines_are_consecutive l line
     end
  then (tables, current_table ++ [line])
  else
    (if Nat.leb 2 (length current_table)
     then tables ++ [detected_table current_table] else tables,
     [line]).

Definition _detect_tables (page_lines : list located_line) : list table :=
  let potential_table_lines := List.filter looks_tabular page_lines in
  if Nat.leb 2 (length potential_table_lines) then
    let '(tables, current_table) :=
      fold_left group_step potential_table_lines ([], []) in
    if Nat.leb 2 (length current_table)
    then tables ++ [detected_table current_table] else tables
  else [].

End PDFTables.

(** ** pdf_processor.py: quality of an extraction

    [validate_extraction_quality] on a document as [process_textract_results]
    builds it, so that every key it reads is present. *)

Module PDFValidation.
Import PDFProcessor.
Local Open Scope Q_scope.

(** An entry of ['issues']. The source formats each one into a message; the
    constructor says which message and carries the value printed in it. *)
Inductive issue :=
| LowConfidence (confidence : Q)        (* "Low OCR confidence: ..." *)
| ShortText                             (* "Very short extracted text" *)
| EmptyPages (numbers : list Z).        (* "Empty pages detected: [...]" *)

Record validation_result := {
  is_valid : bool;
  quality_score : Q;
  issues : list issue;
  recommendations : list string
}.

Definition confidence_threshold : Q := 0.8.

(** [[p['page_number'] for p in pages if not p.get('text', '').strip()]] *)
Definition empty_pages (ps : list page_info) : list Z :=
  map page_number
      (List.filter (fun p => Nat.eqb (length (Str.strip (page_text p))) 0) ps).

Definition quality_factors (processed_content : document) : list Q :=
  [ confidence processed_content;
    Py.min 1.0 (Py.len (full_text processed_content) / 1000);
    match pages processed_content with
    | [] => 0.0
    | ps => 1.0 - Py.len (empty_pages ps) / Py.len ps
    end ].

Definition validate_extraction_quality (processed_content : document) : validation_result :=
  let confidence := confidence processed_content in
  let full_text := full_text processed_content in
  let pages := pages processed_content in
  let '(issues, recommendations) :=
    if Py.Qltb confidence confidence_threshold
    then ([LowConfidence confidence], ["Consider manual review of extracted text"%string])
    else ([], []) in
  let '(issues, recommendations) :=
    if Nat.ltb (length full_text) 100
    then (issues ++ [ShortText],
          recommendations ++ ["Verify document contains readable text"%string])
    else (issues, recommendations) in
  let empty_pages := empty_pages pages in
  let '(issues, recommendations) :=
    match empty_pages with
    | [] => (issues, recommendations)
    | _ => (issues ++ [EmptyPages empty_pages],
            recommendations ++ ["Review empty pages for images or complex layouts"%string])
    end in
  let quality_factors := quality_factors processed_content in
  let quality_score := Py.sum quality_factors / Py.len quality_factors in
  if Py.Qltb quality_score 0.6
  then {| is_valid := false;
          quality_score := quality_score;
          issues := issues;
          recommendations :=
            recommendations ++ ["Consider re-processing with different OCR settings"%string] |}
  else {| is_valid := true;
          quality_score := quality_score;
          issues := issues;
          recommendations := recommendations |}.

End PDFValidation.

(** ** clause_classifier.py: features and the whole classification *)

Module ClauseClassification.
Import ClauseClassifier.
Local Open Scope Q_scope.

Definition mandatory_indicators : list string :=
  [ "shall"; "must"; "required"; "mandatory"; "obligated";
    "duty to"; "responsible for"; "ensure that"; "comply with" ].

Definition penalty_indicators : list string :=
  [ "penalty"; "fine"; "breach"; "violation"; "default";
    "termination"; "damages"; "liability"; "forfeit" ].

(** [[s.strip() for s in text.split('.') if s.strip()]] *)
Definition sentences_of (t : list ascii) : list (list ascii) :=
  List.filter (fun s => negb (Nat.eqb (length s) 0))
    (map Str.strip (Str.split_sep ["."%char] t)).

Definition _calculate_complexity (t : list ascii) : Q :=
  let words := Str.split t in
  let sentences := sentences_of t in
  match sentences, words with
  | [], _ | _, [] => 0.0
  | _, _ =>
      let avg_sentence_length := Py.len words / Py.len sentences in
      let avg_word_length :=
        inject_Z (Z.of_nat (list_sum (map (@length ascii) words))) / Py.len words in
      let complex_words :=
        length (List.filter (fun word => Nat.ltb 6 (length word)) words) in
      let complex_word_ratio := inject_Z (Z.of_nat complex_words) / Py.len words in
      let complexity :=
        Py.min 1.0 (avg_sentence_length / 25) * 0.4 +
        Py.min 1.0 (avg_word_length / 8) * 0.3 +
        complex_word_ratio * 0.3 in
      Py.round3 complexity
  end.

(** The features read below. ['keywords_found'] is [list(set(...))]: the
    indicators found, without duplicates and in no particular order, hence a
    set. The list of regulatory references is left out. *)
Record features := {
  feature_keywords_found : gset string;
  feature_has_mandatory_language : bool;
  feature_has_penalties : bool;
  feature_complexity_score : Q
}.

Definition _extract_clause_features (t : list ascii) : features :=
  let mandatory :=
    List.filter (fun indicator => Str.contains (Str.str indicator) t) mandatory_indicators in
  let penalties :=
    List.filter (fun indicator => Str.contains (Str.str indicator) t) penalty_indicators in
  {| feature_keywords_found := list_to_set (mandatory ++ penalties);
     feature_has_mandatory_language := negb (Nat.eqb (length mandatory) 0);
     feature_has_penalties := negb (Nat.eqb (length penalties) 0);
     feature_complexity_score := _calculate_complexity t |}.

(** The result of [classify_clause], without its ['reasoning'] sentence and
    its ['regulatory_references']. *)
Record classification := {
  primary_type : string;
  subtype : string;
  confidence : Q;
  keywords_found : gset string;
  has_mandatory_language : bool;
  has_penalties : bool;
  complexity_score : Q;
  classification_scores : list (string * score_data);
  word_count : nat;
  sentence_count : nat
}.

Definition _create_unknown_classification : classification :=
  {| primary_type := "unknown";
     subtype := "";
     confidence := 0.0;
     keywords_found := ∅;
     has_mandatory_language := false;
     has_penalties := false;
     complexity_score := 0.0;
     classification_scores := [];
     word_count := 0;
     sentence_count := 0 |}.

Definition classify_clause (clause_text : list ascii) : classification :=
  if Nat.eqb (length clause_text) 0 || Nat.eqb (length (Str.strip clause_text)) 0
  then _create_unknown_classification
  else
    let processed_text := _preprocess_text clause_text in
    let classification_scores := _apply_classification_rules processed_text in
    let '(primary_type, confidence) :=
      _determine_primary_classification classification_scores in
    let subtype := _determine_subtype primary_type processed_text in
    let features := _extract_clause_features processed_text in
    {| primary_type := primary_type;
       subtype := subtype;
       confidence := Py.round3 confidence;
       keywords_found := feature_keywords_found features;
       has_mandatory_language := feature_has_mandatory_language features;
       has_penalties := feature_has_penalties features;
       complexity_score := feature_complexity_score features;
       classification_scores := classification_scores;
       word_count := length (Str.split clause_text);
       sentence_count :=
         length (List.filter (fun s => negb (Nat.eqb (length (Str.strip s)) 0))
                   (Str.split_sep ["."%char] clause_text)) |}.

End ClauseClassification.

(** ** langchain_processor.py: the keyword classifier of the tool *)

Module ClauseClassificationTool.
Local Open Scope Q_scope.

(** [categories], in the order of the dictionary. *)
Definition categories : list (string * list string) := [
  ("safety_compliance",
   [ "safety"; "health"; "hazard"; "risk"; "accident"; "injury";
     "emergency"; "protective equipment"; "safety management" ]);
  ("environmental_compliance",
   [ "environmental"; "pollution"; "waste"; "emissions"; "water";
     "air quality"; "rehabilitation"; "biodiversity" ]);
  ("operational_compliance",
   [ "operation"; "production"; "mining"; "extraction"; "processing";
     "equipment"; "maintenance"; "inspection" ]);
  ("commercial_terms",
   [ "payment"; "price"; "cost"; "invoice"; "delivery"; "supply";
     "warranty"; "liability"; "insurance" ]);
  ("legal_provisions",
   [ "contract"; "agreement"; "breach"; "termination"; "dispute";
     "governing law"; "jurisdiction"; "arbitration" ])
].

Record simple_classification := {
  primary_type : string;
  confidence : Q;
  scores : list (string * nat);
  word_count : nat
}.

(** [sum(1 for keyword in keywords if keyword in text_lower)] *)
Definition keyword_score (text_lower : list ascii) (keywords : list string) : nat :=
  length (List.filter (fun keyword => Str.contains (Str.str keyword) text_lower) keywords).

(** [max(scores, key=scores.get)] on a dictionary with the first entry
    [first]: the first key, in the order of the dictionary, whose value is
    the largest. *)
Definition max_by_score (first : string * nat) (rest : list (string * nat)) : string * nat :=
  fold_left (fun best cs => if Nat.ltb best.2 cs.2 then cs else best) rest first.

Definition _classify_clause_simple (t : list ascii) : simple_classification :=
  let text_lower := Str.lower t in
  let scores := map (fun ck => (ck.1, keyword_score text_lower ck.2)) categories in
  let '(primary_type, confidence) :=
    match scores with
    | first :: rest =>
        let '(primary_type, max_score) := max_by_score first rest in
        (primary_type, Py.min 1.0 (inject_Z (Z.of_nat max_score) / 5.0))
    | [] => ("unknown"%string, 0.0)
    end in
  {| primary_type := primary_type;
     confidence := confidence;
     scores := scores;
     word_count := length (Str.split t) |}.

End ClauseClassificationTool.

(** ** entity_recognizer.py: statistics *)

Module EntityStatistics.
Import EntityRecognizer.
Local Open Scope Q_scope.

(** [round(x, 1)] *)
Definition round1 (x : Q) : Q := Py.round_half_even (x * 10) # 10.

(** [counts[k] = counts.get(k, 0) + 1] *)
Definition count_up (k : string) (counts : gmap string nat) : gmap string nat :=
  <[k := (default O (counts !! k) + 1)%nat]> counts.

(** The keys that are present only when there is an entity. *)
Record distribution := {
  entity_type_distribution : gmap string nat;
  extraction_method_distribution : gmap string nat;
  average_confidence : Q;
  high_confidence_entities : nat;
  high_confidence_percentage : Q
}.

Record statistics := {
  total_entities : nat;
  details : option distribution
}.

Definition get_entity_statistics (entities : list entity) : statistics :=
  match entities with
  | [] => {| total_entities := 0; details := None |}
  | _ =>
      let '(type_counts, confidence_scores, extraction_methods) :=
        fold_left (fun '(type_counts, confidence_scores, extraction_methods) entity =>
                     (count_up (entity_type entity) type_counts,
                      confidence_scores ++ [confidence entity],
                      count_up (extraction_method entity) extraction_methods))
                  entities (∅, [], ∅) in
      let avg_confidence := Py.sum confidence_scores / Py.len confidence_scores in
      let high_confidence_count :=
        length (List.filter (fun score => negb (Py.Qltb score 0.8)) confidence_scores) in
      {| total_entities := length entities;
         details := Some
           {| entity_type_distribution := type_counts;
              extraction_method_distribution := extraction_methods;
              average_confidence := Py.round3 avg_confidence;
              high_confidence_entities := high_confidence_count;
              high_confidence_percentage :=
                round1 (inject_Z (Z.of_nat high_confidence_count) / Py.len entities * 100) |} |}
  end.

End EntityStatistics.

(** ** clause_extraction/handler.py: the pages of a clause *)

Module ClauseExtractionHandler.
Import PDFProcessor.

Definition _find_clause_pages (clause_text : list ascii) (pages : list page_info) : list Z :=
  let clause_snippet := Str.strip (firstn 100 clause_text) in
  let page_numbers :=
    map page_number
        (List.filter (fun page => Str.contains clause_snippet (page_text page)) pages) in
  match page_numbers with
  | [] => [1%Z]
  | _ => page_numbers
  end.

End ClauseExtractionHandler.

(** ** common/utils.py: retrying with backoff *)

Module Retry.
Import Eff.
Local Open Scope Q_scope.

(** What the wrapper can observe of the wrapped function and of the clock:
    the number of calls made so far and the waits handed to [time.sleep]. *)
Record trace := {
  calls : nat;
  slept : list Q
}.

Section Wrapper.
Variable A : Type.
(** The outcome of call number [n] of the wrapped function (from 0). *)
Variable outcome : nat -> result A.

Definition func : M trace A :=
  fun tr => (outcome (calls tr), {| calls := S (calls tr); slept := slept tr |}).

(** [time.sleep(wait_time)] *)
Definition sleep (wait_time : Q) : M trace unit :=
  modify (fun tr => {| calls := calls tr; slept := slept tr ++ [wait_time] |}).

(** [raise last_exception] after the loop: with no exception caught, Python
    raises a [TypeError] instead. *)
Definition raise_last (last_exception : option exception) : M trace A :=
  match last_exception with
  | Some e => raise e
  | None => raise (Exception "TypeError: exceptions must derive from BaseException")
  end.

(** The loop [for attempt in range(max_retries + 1)], over the attempts left. *)
Fixpoint attempt_loop (max_retries : Z) (backoff_factor : Q) (attempts : list nat)
  (last_exception : option exception) : M trace A :=
  match attempts with
  | [] => raise_last last_exception
  | attempt :: rest =>
      try_except func (fun e =>
        if (Z.of_nat attempt =? max_retries)%Z then raise e
        else
          bind (sleep (backoff_factor * inject_Z (2 ^ Z.of_nat attempt)))
               (fun _ => attempt_loop max_retries backoff_factor rest (Some e)))
  end.

(** The wrapper built by [retry_with_backoff(max_retries, backoff_factor)]. *)
Definition wrapper (max_retries : Z) (backoff_factor : Q) : M trace A :=
  attempt_loop max_retries backoff_factor
    (seq 0 (Z.to_nat (max_retries + 1))) None.

End Wrapper.

End Retry.

(** ** common/utils.py: chunking a text *)

Module Chunking.

Record chunk := {
  chunk_index : nat;
  text : list ascii;
  start_word : Z;
  end_word : Z;
  word_count : nat
}.

(** [words[a:b]] *)
Definition slice_words (words : list (list ascii)) (a b : Z) : list (list ascii) :=
  let len := Z.of_nat (length words) in
  let a' := Str.clip len a in
  let b' := Str.clip len b in
  firstn (b' - a') (skipn a' words).

(** The [while] loop of [chunk_text]; [None] when the fuel runs out before
    the loop ends. *)
Fixpoint chunk_loop (fuel : nat) (words : list (list ascii)) (chunk_size overlap : Z)
  (start : Z) (chunk_index : nat) (chunks : list chunk) : option (list chunk) :=
  let n := Z.of_nat (length words) in
  if (start <? n)%Z then
    match fuel with
    | O => None
    | S fuel' =>
        let end_ := Z.min (start + chunk_size) n in
        let chunk_words := slice_words words start end_ in
        let chunks :=
          chunks ++ [ {| chunk_index := chunk_index;
                         text := PDFProcessor.join [" "%char] chunk_words;
                         start_word := start;
                         end_word := end_;
                         word_count := length chunk_words |} ] in
        let start := if (end_ <? n)%Z then (end_ - overlap)%Z else end_ in
        let chunk_index := S chunk_index in
        if (start >=? n)%Z then Some chunks
        else chunk_loop fuel' words chunk_size overlap start chunk_index chunks
    end
  else Some chunks.

Definition chunk_text (fuel : nat) (t : list ascii) (chunk_size overlap : Z)
  : option (list chunk) :=
  if Nat.eqb (length t) 0 || (chunk_size <=? 0)%Z then Some []
  else
    let words := Str.split t in
    if (Z.of_nat (length words) <=? chunk_size)%Z then
      Some [ {| chunk_index := 0;
                text := t;
                start_word := 0;
                end_word := Z.of_nat (length words);
                word_count := length words |} ]
    else chunk_loop fuel words chunk_size overlap 0 0 [].

End Chunking.

(* ===================================================================== *)
(** * Part II. Properties *)
(* ===================================================================== *)

(** ** Numbers *)

Section NumberFacts.
Local Open Scope Q_scope.

Lemma Qltb_lt (x y : Q) : Py.Qltb x y = true <-> x < y.
Proof. unfold Py.Qltb, Qlt. apply Z.ltb_lt. Qed.

Lemma Qltb_ge (x y : Q) : Py.Qltb x y = false <-> y <= x.
Proof. unfold Py.Qltb, Qle. apply Z.ltb_ge. Qed.

Lemma Qltb_comp x x' y y' : x == x' -> y == y' -> Py.Qltb x y = Py.Qltb x' y'.
Proof.
  intros Hx Hy.
  destruct (Py.Qltb x y) eqn:E, (Py.Qltb x' y') eqn:E'; try reflexivity.
  - apply Qltb_lt in E. apply Qltb_ge in E'. rewrite Hx, Hy in E.
    exfalso. eapply Qlt_irrefl, Qlt_le_trans; eauto.
  - apply Qltb_ge in E. apply Qltb_lt in E'. rewrite Hx, Hy in E.
    exfalso. eapply Qlt_irrefl, Qlt_le_trans; eauto.
Qed.



Lemma sum_from xs : forall a, fold_left Qplus xs a == a + Py.sum xs.
Proof.
  unfold Py.sum. induction xs as [|x xs IH]; intros a; simpl.
  - ring.
  - rewrite IH, (IH (0 + x)). ring.
Qed.

End NumberFacts.

(** ** OCR normaliser: the document confidence *)

Section Ocr.
Import PDFProcessor.
Local Open Scope Q_scope.

Definition page (id : string) (children : list string) : block :=
  {| BlockType := Some "PAGE"; Id := Some id; Page := None; Text := None;
     Confidence := None;
     Relationships := [ {| rel_Type := Some "CHILD"; Ids := children |} ] |}.

Definition line (id : string) (t : string) (c : Q) : block :=
  {| BlockType := Some "LINE"; Id := Some id; Page := None; Text := Some (Str.str t);
     Confidence := Some c; Relationships := [] |}.

(** The scenario of the specification: page confidences 90, 70, 50. *)
Example three_pages_confidence :
  let r := process_textract_results
             [ page "p1" ["a"]; page "p2" ["b"]; page "p3" ["c"];
               line "a" "first" 90; line "b" "second" 70; line "c" "third" 50 ] in
  Forall2 Qeq (map page_confidence (pages r)) [90; 70; 50] /\ confidence r == 70.
Proof. vm_compute. repeat constructor. Qed.




(** The rounding is part of the result: page confidences 0.001 and 0.002 have
    the mean 0.0015, and the document confidence is 0.002. *)
Example document_confidence_is_rounded :
  let r := process_textract_results
             [ page "p1" ["a"]; page "p2" ["b"];
               line "a" "first" 0.001; line "b" "second" 0.002 ] in
  Py.mean (map page_confidence (pages r)) == 0.0015 /\ confidence r == 0.002.
Proof. vm_compute. split; reflexivity. Qed.

(** With no page at all the document confidence is 0. *)
Example no_pages_confidence : confidence (process_textract_results []) == 0.
Proof. vm_compute. reflexivity. Qed.

End Ocr.

(** ** The matcher calls its continuation on a suffix of the text *)

Section RegexFacts.
Import Re.
Variable f : flags.

Lemma rep_greedy_inv cl s : forall lo hi n k x,
  rep_greedy f cl lo hi n s k = Some x ->
  exists mid rest,
    s = mid ++ rest /\ lo <= length mid /\
    Forall (fun c => cclass_matches f cl c = true) mid /\
    k (n + length mid) rest = Some x.
Proof.
  induction s as [|c s' IH]; intros lo hi n k x H; simpl in H.
  - destruct lo; [|discriminate]. exists [], []. simpl. rewrite Nat.add_0_r. auto.
  - destruct (cclass_matches f cl c && may_repeat hi) eqn:E.
    + destruct (rep_greedy f cl (Nat.pred lo) (one_less hi) (S n) s' k) eqn:R.
      * injection H as ->. apply IH in R as (mid & rest & -> & Hlo & Hall & Hk).
        apply andb_true_iff in E as [E _].
        exists (c :: mid), rest. simpl. repeat split; [lia | auto |].
        rewrite Nat.add_succ_r. exact Hk.
      * destruct lo; [|discriminate]. exists [], (c :: s'). simpl.
        rewrite Nat.add_0_r. auto.
    + destruct lo; [|discriminate]. exists [], (c :: s'). simpl.
      rewrite Nat.add_0_r. auto.
Qed.

Lemma rep_lazy_inv cl s : forall lo hi n k x,
  rep_lazy f cl lo hi n s k = Some x ->
  exists mid rest,
    s = mid ++ rest /\ lo <= length mid /\
    Forall (fun c => cclass_matches f cl c = true) mid /\
    k (n + length mid) rest = Some x.
Proof.
  induction s as [|c s' IH]; intros lo hi n k x H; simpl in H.
  - destruct lo; [|discriminate]. destruct (k n []) eqn:K; [|discriminate].
    injection H as ->. exists [], []. simpl. rewrite Nat.add_0_r. auto.
  - assert (Hmore : (if cclass_matches f cl c && may_repeat hi
                     then rep_lazy f cl (Nat.pred lo) (one_less hi) (S n) s' k
                     else None) = Some x ->
            exists mid rest, c :: s' = mid ++ rest /\ lo <= length mid /\
              Forall (fun c => cclass_matches f cl c = true) mid /\
              k (n + length mid) rest = Some x).
    { intros M. destruct (cclass_matches f cl c && may_repeat hi) eqn:E; [|discriminate].
      apply IH in M as (mid & rest & -> & Hlo & Hall & Hk).
      apply andb_true_iff in E as [E _].
      exists (c :: mid), rest. simpl. repeat split; [lia | auto |].
      rewrite Nat.add_succ_r. exact Hk. }
    destruct lo; [|auto].
    destruct (k n (c :: s')) eqn:K; [|auto].
    injection H as ->. exists [], (c :: s'). simpl. rewrite Nat.add_0_r. auto.
Qed.

Lemma exec_inv r : forall n s k x,
  exec f r n s k = Some x ->
  exists mid rest, s = mid ++ rest /\ k (n + length mid) rest = Some x.
Proof.
  induction r as [|cl|r1 IH1 r2 IH2|r1 IH1 r2 IH2|cl lo hi g|r1 IH1|]; intros n s k x H; simpl in H.
  - exists [], s. simpl. rewrite Nat.add_0_r. auto.
  - destruct s as [|c s']; [discriminate|].
    destruct (cclass_matches f cl c); [|discriminate].
    exists [c], s'. simpl. rewrite Nat.add_1_r. auto.
  - apply IH1 in H as (m1 & rest1 & -> & H). apply IH2 in H as (m2 & rest & -> & H).
    exists (m1 ++ m2), rest. rewrite <- app_assoc, length_app, Nat.add_assoc. auto.
  - destruct (exec f r1 n s k) eqn:E.
    + injection H as ->. eauto.
    + eauto.
  - destruct g.
    + apply rep_greedy_inv in H as (mid & rest & ? & _ & _ & ?). eauto.
    + apply rep_lazy_inv in H as (mid & rest & ? & _ & _ & ?). eauto.
  - destruct (exec f r1 n s (fun n' _ => Some n')); [|discriminate].
    exists [], s. simpl. rewrite Nat.add_0_r. auto.
  - destruct s; [|discriminate]. exists [], []. simpl. rewrite Nat.add_0_r. auto.
Qed.

Lemma match_here_inv r s len :
  match_here f r s = Some len ->
  exists mid rest, s = mid ++ rest /\ len = length mid.
Proof.
  unfold match_here. intros H. apply exec_inv in H as (mid & rest & -> & H).
  injection H as <-. eauto.
Qed.

(** Every element of [findall] is a piece of the text at which the pattern
    matches with exactly that extent. *)
Lemma findall_from_sound r s : forall skip m,
  In m (findall_from f r skip s) ->
  exists pre post, s = pre ++ m ++ post /\ match_here f r (m ++ post) = Some (length m).
Proof.
  induction s as [|c s' IH]; intros skip m H; simpl in H.
  - destruct skip; [|contradiction].
    destruct (match_here f r []) as [len|] eqn:E; [|contradiction].
    destruct H as [<-|[]].
    apply match_here_inv in E as E'. destruct E' as (mid & rest & Hs & ->).
    symmetry in Hs. apply app_eq_nil in Hs as [-> ->].
    exists [], []. simpl. split; [reflexivity | exact E].
  - destruct skip as [|j].
    + destruct (match_here f r (c :: s')) as [len|] eqn:E.
      * destruct H as [<-|H].
        -- apply match_here_inv in E as E'. destruct E' as (mid & rest & Hs & ->).
           rewrite Hs, firstn_app, Nat.sub_diag, firstn_all. simpl. rewrite app_nil_r.
           exists [], rest. simpl. rewrite <- Hs. split; [reflexivity | exact E].
        -- apply IH in H as (pre & post & -> & H). exists (c :: pre), post. auto.
      * apply IH in H as (pre & post & -> & H). exists (c :: pre), post. auto.
    + apply IH in H as (pre & post & -> & H). exists (c :: pre), post. auto.
Qed.

End RegexFacts.

(** ** Clause segmenter: the numbered strategy *)

(** A marker: a run of digits, a dot, a run of white space. *)
Definition marker_prefix (s : list ascii) : Prop :=
  exists d w tl,
    s = d ++ "."%char :: w ++ tl /\
    d <> [] /\ Forall (fun c => Str.isdigit c = true) d /\
    w <> [] /\ Forall (fun c => Str.isspace c = true) w.

(** A marker followed by a non-empty body without any digit. *)
Definition digit_free_candidate (m : list ascii) : Prop :=
  exists d w body,
    m = d ++ "."%char :: w ++ body /\
    d <> [] /\ Forall (fun c => Str.isdigit c = true) d /\
    w <> [] /\ Forall (fun c => Str.isspace c = true) w /\
    body <> [] /\ Forall (fun c => Str.isdigit c = false) body.

Section Segmenter.
Import Re ClauseExtractionTool.

Example numbered_two_clauses :
  numbered_matches (Str.str "1. Scope of work 2. Payment terms")
  = [Str.str "1. Scope of work "; Str.str "2. Payment terms"].
Proof. vm_compute. reflexivity. Qed.

Example numbered_digit_in_last_body :
  numbered_matches (Str.str "1. Scope 2. Pay within 30 days") = [Str.str "1. Scope "].
Proof. vm_compute. reflexivity. Qed.

Example numbered_longest_digit_run :
  numbered_matches (Str.str "11. a") = [Str.str "11. a"].
Proof. vm_compute. reflexivity. Qed.

Example numbered_space_given_back :
  numbered_matches (Str.str "1.   ") = [Str.str "1.   "].
Proof. vm_compute. reflexivity. Qed.

Example numbered_empty_body :
  numbered_matches (Str.str "1. 2. a") = [Str.str "2. a"].
Proof. vm_compute. reflexivity. Qed.

Example numbered_marker_needs_space :
  numbered_matches (Str.str "1. a 2.b 3. c") = [Str.str "3. c"].
Proof. vm_compute. reflexivity. Qed.

(** The three strategies add up; the paragraph split is used only when none
    of them finds anything. *)
Example clauses_of_numbered_text :
  map (fun c => (clause_number c, string_of_list_ascii (text c), extraction_method c))
      (_extract_clauses_by_pattern (Str.str "1. Scope of work 2. Payment terms"))
  = [ ("1", "1. Scope of work", "numbered_pattern");
      ("2", "2. Payment terms", "numbered_pattern") ].
Proof. vm_compute. reflexivity. Qed.

Example clauses_of_plain_text :
  map (fun c => (clause_number c, length (text c), extraction_method c))
      (_extract_clauses_by_pattern
         (Str.str "The Contractor shall maintain insurance for the whole term of the agreement"))
  = [ ("P1", 75, "paragraph_split") ].
Proof. vm_compute. reflexivity. Qed.

Lemma nonempty_of_length {A} (l : list A) : 1 <= length l -> l <> [].
Proof. destruct l; simpl; [lia | discriminate]. Qed.

Lemma not_ascii_digit c :
  cclass_matches dotall (CSet true [IRange "0" "9"]) c = true -> Str.isdigit c = false.
Proof.
  cbn. unfold Str.isdigit. intros H.
  apply negb_true_iff in H. rewrite !orb_false_r in H. exact H.
Qed.

Lemma lit_dot c : cclass_matches dotall (CLit ".") c = true -> c = "."%char.
Proof.
  unfold cclass_matches. cbn [IGNORECASE dotall]. intros H.
  apply Ascii.eqb_eq in H. auto.
Qed.

Lemma digit_dot_space_inv n s k x :
  exec dotall digit_dot_space n s k = Some x -> marker_prefix s.
Proof.
  unfold digit_dot_space. cbn [seqs exec plus]. intros H.
  apply rep_greedy_inv in H as (d & r1 & -> & Hd & Hds & H).
  destruct r1 as [|c r1]; [discriminate|].
  destruct (cclass_matches dotall (CLit ".") c) eqn:Ec; [|discriminate].
  apply lit_dot in Ec as ->.
  apply rep_greedy_inv in H as (w & tl & -> & Hw & Hws & H).
  exists d, w, tl. repeat split; auto using nonempty_of_length.
Qed.

(** What the numbered pattern matches at the start of a text. *)
Lemma numbered_match_shape s len :
  match_here dotall numbered_pattern s = Some len ->
  exists m post,
    s = m ++ post /\ len = length m /\ digit_free_candidate m /\
    (post = [] \/ marker_prefix post).
Proof.
  unfold match_here, numbered_pattern. cbn [seqs exec plus plus_lazy]. intros H.
  apply rep_greedy_inv in H as (d & r1 & -> & Hd & Hds & H).
  destruct r1 as [|c r1]; [discriminate|].
  destruct (cclass_matches dotall (CLit ".") c) eqn:Ec; [|discriminate].
  apply lit_dot in Ec as ->.
  apply rep_greedy_inv in H as (w & r2 & -> & Hw & Hws & H).
  apply rep_lazy_inv in H as (body & post & -> & Hb & Hbs & H).
  destruct (exec dotall digit_dot_space _ post _) eqn:Em.
  - injection H as <-.
    exists (d ++ "."%char :: w ++ body), post. repeat split.
    + rewrite <- !app_assoc. simpl. rewrite <- app_assoc. reflexivity.
    + rewrite !length_app. simpl. rewrite length_app. lia.
    + exists d, w, body. repeat split; auto using nonempty_of_length.
      eapply Forall_impl; [exact Hbs | apply not_ascii_digit].
    + right. eapply digit_dot_space_inv. exact Em.
  - destruct post; [|discriminate]. injection H as <-.
    exists (d ++ "."%char :: w ++ body), []. repeat split.
    + rewrite <- !app_assoc. simpl. rewrite <- app_assoc. reflexivity.
    + rewrite !length_app. simpl. rewrite length_app. lia.
    + exists d, w, body. repeat split; auto using nonempty_of_length.
      eapply Forall_impl; [exact Hbs | apply not_ascii_digit].
    + left. reflexivity.
Qed.

(** C4, as the segmenter behaves. Every candidate of the numbered strategy is
    a piece of the text made of a marker (digits, a dot, white space) and a
    non-empty body that contains no digit, and it ends where the next marker
    starts or where the text ends. *)
Theorem C4_numbered_candidates_have_digit_free_bodies (t m : list ascii) :
  In m (numbered_matches t) ->
  exists pre post,
    t = pre ++ m ++ post /\ digit_free_candidate m /\
    (post = [] \/ marker_prefix post).
Proof.
  unfold numbered_matches, findall. intros H.
  apply findall_from_sound in H as (pre & post & -> & H).
  apply numbered_match_shape in H as (m' & post' & Hs & Hlen & Hc & Hp).
  assert (m' = m /\ post' = post) as [-> ->].
  { apply app_inj_1; [lia | congruence]. }
  exists pre, post. auto.
Qed.

(** An instance: the first clause of a two-clause text. *)
Lemma C4_numbered_candidates_witness :
  exists pre post,
    Str.str "1. Scope of work 2. Payment terms"
      = pre ++ Str.str "1. Scope of work " ++ post /\
    digit_free_candidate (Str.str "1. Scope of work ") /\
    (post = [] \/ marker_prefix post).
Proof.
  apply (C4_numbered_candidates_have_digit_free_bodies
           (Str.str "1. Scope of work 2. Payment terms") (Str.str "1. Scope of work ")).
  vm_compute. left. reflexivity.
Defined.

(** C4, as stated, fails: in "1. Pay 5 now 2. End" the first clause has the
    digit 5 in its body; it is not captured up to the marker "2. ", it is not
    captured at all, and only the second clause is returned. *)
Lemma C4_digit_in_body_not_captured :
  let t := Str.str "1. Pay 5 now 2. End" in
  t = Str.str "1. Pay 5 now " ++ Str.str "2. End" /\
  numbered_matches t = [Str.str "2. End"] /\
  ~ In (Str.str "1. Pay 5 now ") (numbered_matches t).
Proof.
  repeat split; try (vm_compute; reflexivity).
  intros H. vm_compute in H. destruct H as [H|[]]. discriminate H.
Qed.

End Segmenter.

(** ** Clause classifier: scores and primary category *)

(** Follows the specification's words: the number of keywords of the category
    found in the text, the number of its regulatory patterns found in the
    text, and the weight of each category. *)
Definition keyword_hits (t : list ascii) (r : ClauseClassifier.rules) : nat :=
  length (List.filter (fun k => Str.contains (Str.str k) t) (ClauseClassifier.keywords r)).

Definition regex_hits (t : list ascii) (r : ClauseClassifier.rules) : nat :=
  length (List.filter (fun p => Re.search ClauseClassifier.ignorecase p t)
            (ClauseClassifier.regulatory_patterns r)).


Definition of_nat (n : nat) : Q := inject_Z (Z.of_nat n).

Section Classifier.
Import Re ClauseClassifier.
Local Open Scope Q_scope.

Definition scenario_clause : list ascii :=
  Str.str "The Contractor shall implement a safety management system in accordance with AS 4801.".

Example scenario_primary_type : fst (classify_primary scenario_clause) = "safety_compliance".
Proof. vm_compute. reflexivity. Qed.

Example scenario_subtype :
  _determine_subtype "safety_compliance" (_preprocess_text scenario_clause)
  = "safety_management_system".
Proof. vm_compute. reflexivity. Qed.

Lemma of_nat_S n : of_nat (S n) == of_nat n + 1.
Proof.
  unfold of_nat. rewrite Nat2Z.inj_succ, <- Z.add_1_r, inject_Z_plus. reflexivity.
Qed.

Lemma keyword_loop t ks : forall score found,
  let '(score', found') :=
    fold_left (fun '(score, found) keyword =>
                 if Str.contains (Str.str keyword) t
                 then (score + 1.0, S found) else (score, found))
              ks (score, found) in
  let hits := length (List.filter (fun k => Str.contains (Str.str k) t) ks) in
  score' == score + of_nat hits /\ found' = (found + hits)%nat.
Proof.
  induction ks as [|k ks IH]; intros score found; simpl.
  - split; [unfold of_nat; simpl; ring | lia].
  - destruct (Str.contains (Str.str k) t); simpl.
    + specialize (IH (score + 1.0) (S found)).
      destruct (fold_left _ ks _) as [s' f']. destruct IH as [IH1 IH2].
      split; [rewrite IH1, of_nat_S; ring | lia].
    + apply IH.
Qed.

Lemma pattern_loop t ps : forall score,
  fold_left (fun score pattern =>
               if search ignorecase pattern t then score + 2.0 else score) ps score
  == score + 2 * of_nat (length (List.filter (fun p => search ignorecase p t) ps)).
Proof.
  induction ps as [|p ps IH]; intros score; simpl.
  - unfold of_nat; simpl; ring.
  - destruct (search ignorecase p t); simpl.
    + rewrite IH, of_nat_S. ring.
    + apply IH.
Qed.

Lemma score_rules_raw t r :
  raw_score (score_rules t r) == of_nat (keyword_hits t r) + 2 * of_nat (regex_hits t r) /\
  keywords_found (score_rules t r) = keyword_hits t r.
Proof.
  unfold score_rules, keyword_hits, regex_hits.
  pose proof (keyword_loop t (keywords r) 0.0 O) as K.
  destruct (fold_left _ (keywords r) _) as [s0 f0]. simpl in K. destruct K as [K1 K2].
  simpl. split; [|exact K2].
  rewrite pattern_loop, K1. ring.
Qed.

Lemma score_rules_weighted t r :
  weighted_score (score_rules t r) = raw_score (score_rules t r) * weight r /\
  normalized_score (score_rules t r)
    = Py.min 1.0 (weighted_score (score_rules t r)
                  / Py.max 1 (Py.len (Str.split t) / 50)).
Proof.
  unfold score_rules. destruct (fold_left _ (keywords r) _) as [s0 f0]. simpl. auto.
Qed.


(** The running best of the loop dominates every score seen, and is either
    the initial pair or the score of a category of the list. *)
Lemma best_loop (scores : list (string * score_data)) : forall (bt0 : string) (bs0 : Q),
  let '(bt, bs) :=
    fold_left (fun '(best_type, best_score) cs =>
                 if Py.Qltb best_score (normalized_score cs.2)
                 then (cs.1, normalized_score cs.2)
                 else (best_type, best_score))
              scores (bt0, bs0) in
  bs0 <= bs /\
  (forall c sd, In (c, sd) scores -> normalized_score sd <= bs) /\
  ((bt, bs) = (bt0, bs0) \/ exists sd, In (bt, sd) scores /\ bs = normalized_score sd).
Proof.
  induction scores as [|[c sd] scores IH]; intros bt0 bs0; simpl.
  - split; [apply Qle_refl|]. split; [intros ? ? []|]. left. reflexivity.
  - destruct (Py.Qltb bs0 (normalized_score sd)) eqn:E.
    + specialize (IH c (normalized_score sd)).
      destruct (fold_left _ scores _) as [bt bs]. destruct IH as (I1 & I2 & I3).
      apply Qltb_lt in E. split; [|split].
      * apply Qlt_le_weak. eapply Qlt_le_trans; eauto.
      * intros c' sd' [H|H]; [injection H as <- <-; exact I1 | eauto].
      * right. destruct I3 as [I3|(sd' & I3 & I4)].
        -- injection I3 as -> ->. exists sd. auto.
        -- exists sd'. auto.
    + specialize (IH bt0 bs0).
      destruct (fold_left _ scores _) as [bt bs]. destruct IH as (I1 & I2 & I3).
      apply Qltb_ge in E. split; [exact I1|split].
      * intros c' sd' [H|H]; [injection H as <- <-; eapply Qle_trans; eauto | eauto].
      * destruct I3 as [I3|(sd' & I3 & I4)]; [left; exact I3 | right; exists sd'; auto].
Qed.



End Classifier.

(** ** Entity recogniser: the merge *)

(** Sorted by start position: every entity starts no later than the entities
    after it. *)
Definition by_start (a b : EntityRecognizer.entity) : Prop :=
  (EntityRecognizer.start_position a <= EntityRecognizer.start_position b)%Z.

(** The pair (current, next) does not overlap, in the sense of the merge. *)
Definition apart (current next : EntityRecognizer.entity) : Prop :=
  EntityRecognizer.overlaps current next = false.




Section EntityMerge.
Import EntityRecognizer.

(** The loop of [_merge_entities] as a recursion on the entities to come. *)
Fixpoint scan (current : entity) (rest : list entity) : list entity :=
  match rest with
  | [] => [current]
  | next :: rest' =>
      if overlaps current next then
        if Py.Qltb (confidence current) (confidence next)
        then scan next rest' else scan current rest'
      else current :: scan next rest'
  end.

Lemma merge_loop_scan rest : forall merged current,
  (let '(merged', current') := fold_left merge_step rest (merged, current) in
   merged' ++ [current']) = merged ++ scan current rest.
Proof.
  induction rest as [|next rest IH]; intros merged current; simpl.
  - reflexivity.
  - destruct (overlaps current next).
    + destruct (Py.Qltb (confidence current) (confidence next)); apply IH.
    + rewrite IH, <- app_assoc. reflexivity.
Qed.

Lemma merge_entities_scan entities :
  _merge_entities entities =
  match sorted_by_start entities with
  | [] => []
  | first :: rest => scan first rest
  end.
Proof.
  unfold _merge_entities. destruct entities as [|e es]; [reflexivity|].
  destruct (sorted_by_start (e :: es)) as [|first rest]; [reflexivity|].
  apply (merge_loop_scan rest [] first).
Qed.

(** *** The stable sort *)

Lemma insert_by_start_Forall (P : entity -> Prop) e l :
  P e -> Forall P l -> Forall P (insert_by_start e l).
Proof.
  intros He Hl. induction Hl as [|x l Hx Hl IH]; simpl.
  - constructor; auto.
  - destruct (start_position e <=? start_position x)%Z; constructor; auto.
Qed.

Lemma insert_by_start_sorted e l :
  StronglySorted by_start l -> StronglySorted by_start (insert_by_start e l).
Proof.
  intros Hl. induction Hl as [|x l Hl IH Hx]; simpl.
  - constructor; [constructor | constructor].
  - destruct (start_position e <=? start_position x)%Z eqn:E.
    + apply Z.leb_le in E. constructor; [constructor; auto|].
      constructor; [exact E|].
      eapply Forall_impl; [exact Hx|]. intros y Hy. unfold by_start in *. lia.
    + apply Z.leb_gt in E. constructor; [exact IH|].
      apply insert_by_start_Forall; [unfold by_start; lia | exact Hx].
Qed.

Lemma sorted_by_start_sorted l : StronglySorted by_start (sorted_by_start l).
Proof.
  induction l as [|e l IH]; simpl; [constructor | apply insert_by_start_sorted, IH].
Qed.

Lemma sorted_by_start_Forall (P : entity -> Prop) l :
  Forall P l -> Forall P (sorted_by_start l).
Proof.
  induction 1 as [|e l He Hl IH]; simpl; [constructor|].
  apply insert_by_start_Forall; auto.
Qed.

(** Sorting a sorted list changes nothing: the sort is stable. *)
Lemma sorted_by_start_fixed l : StronglySorted by_start l -> sorted_by_start l = l.
Proof.
  induction 1 as [|e l Hl IH He]; simpl; [reflexivity|].
  rewrite IH. destruct He as [|x l' Hx _]; simpl; [reflexivity|].
  apply Z.leb_le in Hx. rewrite Hx. reflexivity.
Qed.

(** *** The scan *)

Lemma scan_Forall (P : entity -> Prop) rest : forall current,
  P current -> Forall P rest -> Forall P (scan current rest).
Proof.
  induction rest as [|next rest IH]; intros current Hc Hr; simpl.
  - constructor; auto.
  - inversion Hr as [|? ? Hn Hr']; subst.
    destruct (overlaps current next).
    + destruct (Py.Qltb (confidence current) (confidence next)); auto.
    + constructor; auto.
Qed.

Lemma scan_nonempty current rest : scan current rest <> [].
Proof.
  revert current. induction rest as [|next rest IH]; intros current; simpl.
  - discriminate.
  - destruct (overlaps current next).
    + destruct (Py.Qltb (confidence current) (confidence next)); apply IH.
    + discriminate.
Qed.

Lemma scan_sorted rest : forall current,
  StronglySorted by_start (current :: rest) ->
  StronglySorted by_start (scan current rest).
Proof.
  induction rest as [|next rest IH]; intros current H; simpl.
  - exact H.
  - inversion H as [|? ? Hrest Hall]; subst.
    inversion Hall as [|? ? Hcn Hall']; subst.
    destruct (overlaps current next).
    + destruct (Py.Qltb (confidence current) (confidence next)).
      * apply IH. exact Hrest.
      * apply IH. inversion Hrest; subst. constructor; auto.
    + constructor; [apply IH; exact Hrest|].
      apply scan_Forall; auto.
Qed.

(** The first entity the scan keeps is the current one, or a later entity
    that took its place; the latter needs an overlap, which a reversed span
    cannot have with an entity that starts after it. *)
Lemma scan_head rest : forall current,
  StronglySorted by_start (current :: rest) ->
  exists h tl, scan current rest = h :: tl /\
    (h = current \/
     (start_position current <= start_position h /\
      start_position current <= end_position current)%Z).
Proof.
  induction rest as [|next rest IH]; intros current H; simpl.
  - exists current, []. auto.
  - inversion H as [|? ? Hrest Hall]; subst.
    inversion Hall as [|? ? Hcn Hall']; subst. unfold by_start in Hcn.
    destruct (overlaps current next) eqn:Eo.
    + unfold overlaps in Eo. apply andb_true_iff in Eo as [Eo1 Eo2].
      apply Z.leb_le in Eo1.
      destruct (Py.Qltb (confidence current) (confidence next)).
      * destruct (IH next Hrest) as (h & tl & -> & Hh).
        exists h, tl. split; [reflexivity|]. right.
        destruct Hh as [->|[Hh _]]; lia.
      * apply IH. inversion Hrest; subst. constructor; auto.
    + exists current, (scan next rest). auto.
Qed.

Lemma apart_from_later p current h :
  by_start p current -> apart p current ->
  (h = current \/
   (start_position current <= start_position h /\
    start_position current <= end_position current)%Z) ->
  apart p h.
Proof.
  unfold by_start, apart, overlaps. intros Hs Ha [->|[H1 H2]]; [exact Ha|].
  apply andb_false_iff in Ha. apply andb_false_iff.
  destruct Ha as [Ha|Ha]; [left | exfalso].
  - apply Z.leb_gt in Ha. apply Z.leb_gt. lia.
  - rewrite Z.geb_leb in Ha. apply Z.leb_gt in Ha. lia.
Qed.

Lemma scan_neighbours_apart rest : forall current,
  StronglySorted by_start (current :: rest) ->
  Sorted apart (scan current rest).
Proof.
  induction rest as [|next rest IH]; intros current H; simpl.
  - constructor; constructor.
  - inversion H as [|? ? Hrest Hall]; subst.
    inversion Hall as [|? ? Hcn Hall']; subst.
    destruct (overlaps current next) eqn:Eo.
    + destruct (Py.Qltb (confidence current) (confidence next)).
      * apply IH. exact Hrest.
      * apply IH. inversion Hrest; subst. constructor; auto.
    + constructor; [apply IH; exact Hrest|].
      destruct (scan_head rest next Hrest) as (h & tl & -> & Hh).
      constructor. eapply apart_from_later; eauto.
Qed.

(** On a list whose neighbours are apart the scan keeps everything. *)
Lemma scan_fixed rest : forall current,
  Sorted apart (current :: rest) -> scan current rest = current :: rest.
Proof.
  induction rest as [|next rest IH]; intros current H; simpl; [reflexivity|].
  inversion H as [|? ? Hrest Hhd]; subst. inversion Hhd as [|? ? Hcn]; subst.
  unfold apart in Hcn. rewrite Hcn, IH; auto.
Qed.

(** C7. Merging is idempotent: merging an already merged list returns it
    unchanged. *)
Theorem C7_merge_entities_idempotent (entities : list entity) :
  _merge_entities (_merge_entities entities) = _merge_entities entities.
Proof.
  rewrite (merge_entities_scan entities).
  pose proof (sorted_by_start_sorted entities) as Hs.
  destruct (sorted_by_start entities) as [|first rest]; [reflexivity|].
  pose proof (scan_sorted rest first Hs) as Hsorted.
  pose proof (scan_neighbours_apart rest first Hs) as Hapart.
  rewrite merge_entities_scan, (sorted_by_start_fixed _ Hsorted).
  destruct (scan first rest) as [|h tl]; [reflexivity|].
  apply scan_fixed. exact Hapart.
Qed.

(** *** Sortedness and overlaps of the merged list *)






(** An entity that spans [first, last) with the given confidence. *)
Definition span (first last : Z) (c : Q) : entity :=
  {| entity_type := "date"; entity_value := []; confidence := c;
     start_position := first; end_position := last;
     context := []; normalized_value := []; extraction_method := "pattern" |}.

(** The scenario of the specification: [10,20) with confidence 0.9 and
    [15,25) with 0.6 merge into the first. *)
Example merge_keeps_higher_confidence :
  _merge_entities [span 10 20 0.9; span 15 25 0.6] = [span 10 20 0.9].
Proof. reflexivity. Qed.

Example merge_sorts_and_keeps_disjoint :
  _merge_entities [span 30 40 0.5; span 0 5 0.5; span 3 9 0.8]
  = [span 3 9 0.8; span 30 40 0.5].
Proof. reflexivity. Qed.




End EntityMerge.

(** ** Entity recogniser: validation and the public interface *)

Section StringFacts.

Lemma startswith_spec p : forall s,
  Str.startswith p s = true <-> exists post, s = p ++ post.
Proof.
  induction p as [|a p IH]; intros s; simpl.
  - split; [intros _; exists s; reflexivity | reflexivity].
  - destruct s as [|b s]; simpl.
    + split; [discriminate | intros [post H]; discriminate].
    + rewrite andb_true_iff, IH. split.
      * intros [Hab [post ->]]. apply Ascii.eqb_eq in Hab as ->. exists post. reflexivity.
      * intros [post H]. injection H as -> ->. split; [apply Ascii.eqb_refl | eauto].
Qed.

(** [p in s] holds exactly when [p] is a piece of [s]. *)
Lemma contains_spec p s :
  Str.contains p s = true <-> exists pre post, s = pre ++ p ++ post.
Proof.
  induction s as [|c s IH]; simpl.
  - rewrite orb_false_r, startswith_spec. split.
    + intros [post H]. exists [], post. exact H.
    + intros (pre & post & H). symmetry in H.
      apply app_eq_nil in H as [-> H]. exists post. symmetry. exact H.
  - rewrite orb_true_iff, startswith_spec, IH. split.
    + intros [[post H]|(pre & post & ->)].
      * exists [], post. exact H.
      * exists (c :: pre), post. reflexivity.
    + intros (pre & post & H). destruct pre as [|c' pre]; simpl in H.
      * left. exists post. exact H.
      * injection H as -> ->. right. exists pre, post. reflexivity.
Qed.

Lemma contains_length p s : Str.contains p s = true -> length p <= length s.
Proof.
  intros H. apply contains_spec in H as (pre & post & ->).
  rewrite !length_app. lia.
Qed.

Lemma lstrip_length s : length (Str.lstrip s) <= length s.
Proof.
  induction s as [|c s IH]; simpl; [lia|].
  destruct (Str.isspace c); simpl; lia.
Qed.

Lemma strip_length s : length (Str.strip s) <= length s.
Proof.
  unfold Str.strip, Str.rstrip. rewrite length_rev.
  etransitivity; [apply lstrip_length|]. rewrite length_rev. apply lstrip_length.
Qed.

(** A slice between offsets inside the text is non-empty only if the first
    offset is smaller than the second. *)
Lemma slice_nonempty s a b :
  (0 <= a)%Z -> (0 <= b <= Z.of_nat (length s))%Z ->
  0 < length (Str.slice s a b) -> (a < b)%Z.
Proof.
  intros Ha Hb. unfold Str.slice, Str.clip.
  destruct (Z.ltb_spec a 0); [lia|]. destruct (Z.ltb_spec b 0); [lia|].
  rewrite length_firstn, length_skipn. lia.
Qed.

End StringFacts.

Section EntityPipeline.
Import Eff EntityRecognizer.
Local Open Scope eff_scope.

Variable finditer : string -> list ascii -> result (list re_match).
Variable spacy_load : result pipeline.

(** Offsets read from a match or from an spaCy entity are not negative. *)
Definition offsets_from_zero (e : entity) : Prop :=
  (0 <= start_position e)%Z /\ (0 <= end_position e)%Z.

Lemma for_each_inv {S A B} (I : B -> Prop) (body : B -> A -> M S B) (xs : list A) :
  (forall acc x s b s', I acc -> body acc x s = (Ok b, s') -> I b) ->
  forall acc s b s', I acc -> for_each xs body acc s = (Ok b, s') -> I b.
Proof.
  intros Hbody. induction xs as [|x xs IH]; intros acc s b s' Hacc H; simpl in H.
  - injection H as <- <-. exact Hacc.
  - unfold bind in H. destruct (body acc x s) as [[b1|e] s1] eqn:E; [|discriminate].
    eapply IH; [|exact H]. eapply Hbody; eauto.
Qed.

Lemma pattern_entities_offsets t self entities self' :
  _extract_pattern_entities finditer t self = (Ok entities, self') ->
  Forall offsets_from_zero entities.
Proof.
  unfold _extract_pattern_entities.
  apply (for_each_inv (Forall offsets_from_zero)); [|constructor].
  intros acc tp s b s' Hacc. apply (for_each_inv (Forall offsets_from_zero)); [|exact Hacc].
  clear. intros acc pattern s b s' Hacc H.
  unfold bind, call, ret in H. destruct (finditer pattern t) as [ms|e]; [|discriminate].
  injection H as <- <-. apply Forall_app. split; [exact Hacc|].
  apply Forall_map, Forall_forall. intros m _. split; simpl; lia.
Qed.

Lemma spacy_entities_offsets model t self entities self' :
  _extract_spacy_entities model t self = (Ok entities, self') ->
  Forall offsets_from_zero entities.
Proof.
  unfold _extract_spacy_entities, try_except, bind, call, ret. intros H.
  destruct (model t) as [ents|e]; injection H as <- <-; [|constructor].
  apply Forall_flat_map, Forall_forall. intros ent _.
  destruct (_map_spacy_entity_type (label_ ent)); repeat constructor; simpl; lia.
Qed.

Lemma merge_entities_Forall (P : entity -> Prop) entities :
  Forall P entities -> Forall P (_merge_entities entities).
Proof.
  intros H. rewrite merge_entities_scan.
  pose proof (sorted_by_start_Forall P entities H) as Hs.
  destruct (sorted_by_start entities); [constructor|].
  inversion Hs; subst. apply scan_Forall; auto.
Qed.

(** What validation establishes for an entity whose offsets are not
    negative. *)
Lemma valid_entity_invariant t e :
  offsets_from_zero e -> valid t e = true ->
  (0 <= start_position e < end_position e)%Z /\
  (end_position e <= Z.of_nat (length t))%Z /\
  Str.contains (Str.lower (entity_value e))
               (Str.lower (Str.slice t (start_position e) (end_position e))) = true.
Proof.
  intros [Hs He] H. unfold valid in H.
  apply andb_true_iff in H as [H Hpos]. apply andb_true_iff in H as [Hlen _].
  apply andb_true_iff in Hpos as [Hpos Hin]. apply andb_true_iff in Hpos as [_ Hend].
  apply Z.leb_le in Hend. split; [|split; [exact Hend | exact Hin]].
  apply negb_true_iff, orb_false_iff in Hlen as [_ Hlen]. apply Nat.ltb_ge in Hlen.
  apply contains_length in Hin. unfold Str.lower in Hin. rewrite !length_map in Hin.
  pose proof (strip_length (entity_value e)).
  assert (start_position e < end_position e)%Z; [|lia].
  apply (slice_nonempty t); lia.
Qed.

Lemma extract_entities_try_invariant t self entities self' :
  extract_entities_try finditer spacy_load t self = (Ok entities, self') ->
  Forall (fun e => offsets_from_zero e /\ valid t e = true) entities.
Proof.
  unfold extract_entities_try.
  destruct (Nat.eqb (length t) 0 || Nat.eqb (length (Str.strip t)) 0).
  { intros H. injection H as <- <-. constructor. }
  unfold bind at 1.
  destruct (_extract_pattern_entities finditer t self) as [[pe|ex] s1] eqn:Ep; [|discriminate].
  apply pattern_entities_offsets in Ep.
  unfold bind at 1, get at 1. unfold bind at 1.
  match goal with |- context [match ?m s1 with _ => _ end] =>
    destruct (m s1) as [[[]|ex] s2] end; [|discriminate].
  unfold bind at 1, get at 1. unfold bind at 1.
  assert (Hse : forall se s3,
    (match nlp s2 with
     | Some model => _extract_spacy_entities model t
     | None => ret []
     end) s2 = (Ok se, s3) -> Forall offsets_from_zero se).
  { intros se s3. destruct (nlp s2) as [model|].
    - apply spacy_entities_offsets.
    - intros H. injection H as <- <-. constructor. }
  match goal with |- context [match ?m s2 with _ => _ end] =>
    destruct (m s2) as [[se|ex] s3] eqn:Es end; [|discriminate].
  specialize (Hse se s3 eq_refl). unfold ret. intros H. injection H as <- <-.
  unfold _validate_entities. apply Forall_forall. intros e He.
  apply list_elem_of_In, filter_In in He as [He Hv]. split; [|exact Hv].
  assert (Hall : Forall offsets_from_zero (_merge_entities (pe ++ se))).
  { apply merge_entities_Forall, Forall_app. auto. }
  rewrite Forall_forall in Hall. apply Hall, list_elem_of_In. exact He.
Qed.

(** C8. Every entity the recogniser returns has offsets with
    0 <= start < end <= len(text), and the text between them contains the
    entity's value, letter case apart. *)
Theorem C8_returned_entities_lie_in_the_text
  (t : list ascii) (self self' : recognizer) (entities : list entity) (e : entity) :
  extract_entities finditer spacy_load t self = (Ok entities, self') ->
  In e entities ->
  (0 <= start_position e < end_position e)%Z /\
  (end_position e <= Z.of_nat (length t))%Z /\
  Str.contains (Str.lower (entity_value e))
               (Str.lower (Str.slice t (start_position e) (end_position e))) = true.
Proof.
  unfold extract_entities, try_except. intros H He.
  destruct (extract_entities_try finditer spacy_load t self) as [[l|ex] s1] eqn:E.
  - injection H as <- <-. apply extract_entities_try_invariant in E.
    rewrite Forall_forall in E. apply list_elem_of_In in He.
    destruct (E e He). apply valid_entity_invariant; auto.
  - unfold ret in H. injection H as <- <-. destruct He.
Qed.


End EntityPipeline.

Section EntityRuns.
Import Eff EntityRecognizer.

(** Sample collaborators for the scenario clause: the standards pattern
    matches "AS 4801" at offsets 77 to 84, no other pattern matches, and the
    spaCy model is not installed. *)
Definition standard_pattern : string := "\b(AS\s+\d+(?:\.\d+)?(?::\d{4})?)\b".

Definition sample_finditer (pattern : string) (t : list ascii) : result (list re_match) :=
  if String.eqb pattern standard_pattern
  then Ok [ {| m_start := 77; m_end := 84; group1 := Str.str "AS 4801" |} ]
  else Ok [].

Definition sample_spacy_load : result pipeline := Raise (OSError "model not found").

Definition sample_entity : entity :=
  pattern_entity scenario_clause "standard_reference"
    {| m_start := 77; m_end := 84; group1 := Str.str "AS 4801" |}.

Example scenario_slice : Str.slice scenario_clause 77 84 = Str.str "AS 4801".
Proof. reflexivity. Qed.

Example scenario_entities :
  extract_entities sample_finditer sample_spacy_load scenario_clause {| nlp := None |}
  = (Ok [sample_entity], {| nlp := None |}).
Proof. vm_compute. reflexivity. Qed.

Example scenario_entity_fields :
  entity_type sample_entity = "standard_reference" /\
  entity_value sample_entity = Str.str "AS 4801" /\
  normalized_value sample_entity = Str.str "AS 4801" /\
  (confidence sample_entity == 0.9)%Q.
Proof. repeat split; vm_compute; reflexivity. Qed.

(** An instance: the entity "AS 4801" of the scenario clause. *)
Lemma C8_returned_entities_witness :
  (0 <= start_position sample_entity < end_position sample_entity)%Z /\
  (end_position sample_entity <= Z.of_nat (length scenario_clause))%Z /\
  Str.contains (Str.lower (entity_value sample_entity))
    (Str.lower (Str.slice scenario_clause (start_position sample_entity)
                                          (end_position sample_entity))) = true.
Proof.
  apply (C8_returned_entities_lie_in_the_text sample_finditer sample_spacy_load
           scenario_clause {| nlp := None |} {| nlp := None |} [sample_entity]).
  - vm_compute. reflexivity.
  - left. reflexivity.
Defined.

(** A blank text gives no entity, and no collaborator is called. *)
Example blank_text_no_entities :
  extract_entities (fun _ _ => Raise (Exception "unused")) sample_spacy_load
    (Str.str "   ") {| nlp := None |}
  = (Ok [], {| nlp := None |}).
Proof. reflexivity. Qed.

(** An exception of [re.finditer] is swallowed: the result is the empty
    list. *)
Example finditer_error_no_entities :
  extract_entities (fun _ _ => Raise (Exception "re.error")) sample_spacy_load
    scenario_clause {| nlp := None |}
  = (Ok [], {| nlp := None |}).
Proof. vm_compute. reflexivity. Qed.

(** An exception of [spacy.load] other than [OSError] is not handled by
    [_load_spacy_model]; the entities found by the patterns are lost and the
    result is the empty list. *)
Example load_error_no_entities :
  extract_entities sample_finditer (Raise (Exception "ValueError")) scenario_clause
    {| nlp := None |}
  = (Ok [], {| nlp := None |}).
Proof. vm_compute. reflexivity. Qed.

(** An exception raised by the loaded pipeline is handled inside
    [_extract_spacy_entities]: the pattern entities are kept, and the model
    stays loaded. *)
Example pipeline_error_keeps_pattern_entities :
  let model : pipeline := fun _ => Raise (Exception "E088") in
  (extract_entities sample_finditer (Ok model) scenario_clause {| nlp := None |}).1
  = Ok [sample_entity].
Proof. vm_compute. reflexivity. Qed.

(** Validation alone does not bound the end offset from below: a negative
    end counts from the end of the text in a slice. The offsets the
    recogniser records are never negative. *)
Example validation_accepts_negative_end :
  valid (Str.str "abc")
    {| entity_type := "date"; entity_value := Str.str "ab"; confidence := 0.9%Q;
       start_position := 0; end_position := -1;
       context := []; normalized_value := []; extraction_method := "pattern" |}
  = true.
Proof. reflexivity. Qed.

End EntityRuns.

(** ** Semantic mapper: re-invocation *)

(** Follows the specification's words: the states of the pipeline in order,
    and a document being at or past a stage's target status. *)
Definition pipeline_states : list string :=
  [ "uploaded"; "ocr_completed"; "processing"; "clause_extraction_completed";
    "semantic_mapping_completed"; "agentic_reasoning_completed"; "report_generated" ].

Fixpoint rank (states : list string) (st : string) : option nat :=
  match states with
  | [] => None
  | x :: rest => if String.eqb x st then Some O else S <$> rank rest st
  end.

Definition at_or_past (target st : string) : bool :=
  match rank pipeline_states target, rank pipeline_states st with
  | Some i, Some j => Nat.leb i j
  | _, _ => false
  end.

(** Sample collaborators: every clause embeds to the same vector, which is
    similar to one regulation; the bus accepts every event. *)
Definition sample_embed_text (t : list ascii) : Eff.result (list Q) := Eff.Ok [1.0%Q].

Definition sample_regulation : SemanticMappingHandler.regulation_row :=
  {| SemanticMappingHandler.regulation_id := "reg_1";
     SemanticMappingHandler.similarity_score := 0.9%Q;
     SemanticMappingHandler.regulation_category := "safety_compliance" |}.

Definition sample_similar_regulations (e : list Q)
  : Eff.result (list SemanticMappingHandler.regulation_row) :=
  Eff.Ok [sample_regulation].

Definition sample_put_events (ev : SemanticMappingHandler.bus_event) : Eff.result unit :=
  Eff.Ok tt.

Definition sample_clause : SemanticMappingHandler.clause_row :=
  {| SemanticMappingHandler.CLAUSE_ID := "c1";
     SemanticMappingHandler.CLAUSE_TEXT := Str.str "The Contractor shall wear a hard hat.";
     SemanticMappingHandler.CLAUSE_TYPE := "safety_compliance";
     SemanticMappingHandler.DOCUMENT_ID := "doc1" |}.

(** A document whose status is already the target status of the stage. *)
Definition sample_database : SemanticMappingHandler.database :=
  {| SemanticMappingHandler.RAW_DOCUMENTS := [("doc1", "semantic_mapping_completed")];
     SemanticMappingHandler.CLAUSES := [sample_clause];
     SemanticMappingHandler.CLAUSE_EMBEDDINGS := [];
     SemanticMappingHandler.COMPLIANCE_MAPPINGS := [];
     SemanticMappingHandler.published := [] |}.

Section SemanticMapping.
Import Eff SemanticMappingHandler.
Local Open Scope eff_scope.

Variable embed_text : list ascii -> result (list Q).
Variable similar_regulations : list Q -> result (list regulation_row).
Variable put_events : bus_event -> result unit.

(** The rows one invocation inserts for a clause. *)
Definition rows_of (clause : clause_row) : list mapping_row :=
  match embed_text (CLAUSE_TEXT clause) with
  | Ok e =>
      match similar_regulations e with
      | Ok regs => map (mapping_data clause) regs
      | Raise _ => []
      end
  | Raise _ => []
  end.

Definition clauses_of (db : database) (document_id : option string) : list clause_row :=
  List.filter (fun c => bool_decide (Some (DOCUMENT_ID c) = document_id)) (CLAUSES db).

Lemma insert_loop clause regs : forall created db,
  for_each regs (fun created reg =>
      insert_mapping (mapping_data clause reg) ;; ret (S created)) created db
  = (Ok (created + length regs)%nat,
     {| RAW_DOCUMENTS := RAW_DOCUMENTS db;
        CLAUSES := CLAUSES db;
        CLAUSE_EMBEDDINGS := CLAUSE_EMBEDDINGS db;
        COMPLIANCE_MAPPINGS := COMPLIANCE_MAPPINGS db ++ map (mapping_data clause) regs;
        published := published db |}).
Proof.
  induction regs as [|reg regs IH]; intros created db; simpl.
  - unfold ret. rewrite Nat.add_0_r, app_nil_r. destruct db; reflexivity.
  - unfold bind at 1. unfold bind at 1. unfold insert_mapping, modify, ret.
    rewrite IH. simpl. rewrite <- app_assoc. simpl.
    rewrite Nat.add_succ_r. reflexivity.
Qed.

Lemma clause_loop clauses : forall created db created' db',
  for_each clauses (fun created clause =>
      e <- generate_embedding embed_text (CLAUSE_TEXT clause) ;;
      store_clause_embedding embed_text (CLAUSE_ID clause) (CLAUSE_TEXT clause) ;;
      similar_regs <- find_similar_regulations similar_regulations e ;;
      for_each similar_regs (fun created reg =>
        insert_mapping (mapping_data clause reg) ;; ret (S created)) created) created db
  = (Ok created', db') ->
  COMPLIANCE_MAPPINGS db' = COMPLIANCE_MAPPINGS db ++ flat_map rows_of clauses /\
  created' = (created + length (flat_map rows_of clauses))%nat /\
  RAW_DOCUMENTS db' = RAW_DOCUMENTS db.
Proof.
  induction clauses as [|clause clauses IH]; intros created db created' db' H; simpl in H.
  - unfold ret in H. injection H as <- <-. simpl. rewrite app_nil_r. auto.
  - unfold bind at 1 in H. unfold bind at 1 in H.
    unfold generate_embedding at 1, call at 1 in H.
    destruct (embed_text (CLAUSE_TEXT clause)) as [e|ex] eqn:Ee; [|discriminate].
    unfold bind at 1 in H. unfold store_clause_embedding, bind at 1 in H.
    unfold generate_embedding, call in H. rewrite Ee in H.
    unfold bind at 1 in H. unfold modify, ret in H. simpl in H.
    unfold bind at 1 in H. unfold find_similar_regulations, call in H.
    destruct (similar_regulations e) as [regs|ex] eqn:Er; [|discriminate].
    rewrite insert_loop in H. simpl in H.
    apply IH in H as (H1 & H2 & H3). simpl in H1, H2, H3.
    assert (R : rows_of clause = map (mapping_data clause) regs).
    { unfold rows_of. rewrite Ee, Er. reflexivity. }
    cbn [flat_map]. rewrite R, H1, H2, H3, !length_app, length_map, <- app_assoc.
    split; [reflexivity|]. split; [lia | reflexivity].
Qed.

(** *** The handler does not depend on the documents' statuses *)

(** The database with other documents (other statuses) in [RAW_DOCUMENTS]. *)
Definition with_documents (docs : list (string * string)) (db : database) : database :=
  {| RAW_DOCUMENTS := docs;
     CLAUSES := CLAUSES db;
     CLAUSE_EMBEDDINGS := CLAUSE_EMBEDDINGS db;
     COMPLIANCE_MAPPINGS := COMPLIANCE_MAPPINGS db;
     published := published db |}.

(** A computation that neither reads nor writes [RAW_DOCUMENTS]: run on a
    database with other documents it returns the same value and makes the same
    changes to the other tables. *)
Definition blind {A} (m : M database A) : Prop :=
  forall docs db,
    m (with_documents docs db) = ((m db).1, with_documents docs (m db).2).

Lemma blind_ret {A} (a : A) : blind (ret a).
Proof. intros docs db. reflexivity. Qed.

Lemma blind_call {A} (r : result A) : blind (call r).
Proof. intros docs db. reflexivity. Qed.

Lemma blind_bind {A B} (m : M database A) (k : A -> M database B) :
  blind m -> (forall a, blind (k a)) -> blind (bind m k).
Proof.
  intros Hm Hk docs db. unfold bind. rewrite Hm.
  destruct (m db) as [[a|ex] db1]; simpl; [apply Hk | reflexivity].
Qed.

Lemma blind_try_except {A} (m : M database A) (h : exception -> M database A) :
  blind m -> (forall e, blind (h e)) -> blind (try_except m h).
Proof.
  intros Hm Hh docs db. unfold try_except. rewrite Hm.
  destruct (m db) as [[a|ex] db1]; simpl; [reflexivity | apply Hh].
Qed.

Lemma blind_for_each {A B} (xs : list A) (body : B -> A -> M database B) :
  (forall acc x, blind (body acc x)) -> forall acc, blind (for_each xs body acc).
Proof.
  intros Hbody. induction xs as [|x xs IH]; intros acc; simpl.
  - apply blind_ret.
  - apply blind_bind; auto.
Qed.

Lemma blind_select_clauses document_id : blind (select_clauses document_id).
Proof. intros docs db. reflexivity. Qed.

Lemma blind_insert_mapping row : blind (insert_mapping row).
Proof. intros docs db. reflexivity. Qed.

Lemma blind_store_clause_embedding cid t :
  blind (store_clause_embedding embed_text cid t).
Proof.
  unfold store_clause_embedding. apply blind_bind; [apply blind_call|]. intros e.
  apply blind_bind; [|intros; apply blind_ret]. intros docs db. reflexivity.
Qed.

Lemma blind_publish document_id status :
  blind (_publish_mapping_event put_events document_id status).
Proof.
  unfold _publish_mapping_event. apply blind_bind; [apply blind_call|].
  intros _ docs db. reflexivity.
Qed.

Lemma blind_process document_id :
  blind (process_semantic_mapping embed_text similar_regulations put_events document_id).
Proof.
  unfold process_semantic_mapping.
  apply blind_try_except; [|intros; apply blind_ret].
  apply blind_bind; [apply blind_select_clauses|]. intros clauses.
  apply blind_bind.
  - apply blind_for_each. intros created clause.
    apply blind_bind; [apply blind_call|]. intros e.
    apply blind_bind; [apply blind_store_clause_embedding|]. intros _.
    apply blind_bind; [apply blind_call|]. intros regs.
    apply blind_for_each. intros created' reg.
    apply blind_bind; [apply blind_insert_mapping | intros; apply blind_ret].
  - intros created. apply blind_bind; [apply blind_publish | intros; apply blind_ret].
Qed.

(** C2, as the handler behaves. The handler does not read the status of the
    document: with any other statuses in RAW_DOCUMENTS it returns the same
    response and makes the same insertions. Every invocation returns a
    response; when it reports success it has appended one row per clause of
    the document and similar regulation to COMPLIANCE_MAPPINGS, whatever rows
    were there before, and it has not touched the status of any document. *)
Theorem C2_every_successful_invocation_inserts_rows
  (document_id : option string) (db : database) :
  let '(res, db') :=
    process_semantic_mapping embed_text similar_regulations put_events document_id db in
  (exists r, res = Ok r /\
     (success r = true ->
        COMPLIANCE_MAPPINGS db'
          = COMPLIANCE_MAPPINGS db ++ flat_map rows_of (clauses_of db document_id) /\
        mappings_created r = length (flat_map rows_of (clauses_of db document_id)) /\
        RAW_DOCUMENTS db' = RAW_DOCUMENTS db)) /\
  (forall docs,
     process_semantic_mapping embed_text similar_regulations put_events document_id
       (with_documents docs db)
     = (res, with_documents docs db')).
Proof.
  pose proof (blind_process document_id) as Hblind.
  destruct (process_semantic_mapping _ _ _ document_id db) as [res db'] eqn:P.
  split; [|intros docs; rewrite Hblind, P; reflexivity].
  clear Hblind. revert P.
  unfold process_semantic_mapping, try_except.
  unfold bind at 1. unfold select_clauses at 1, bind at 1, get, ret at 1.
  fold (clauses_of db document_id).
  unfold bind at 1.
  match goal with |- context [for_each ?cs ?body O db] =>
    destruct (for_each cs body O db) as [[created|ex] db1] eqn:L end.
  - apply clause_loop in L as (L1 & L2 & L3).
    unfold bind at 1. unfold _publish_mapping_event, bind at 1, call.
    match goal with |- context [put_events ?ev] => destruct (put_events ev) as [[]|ex] end.
    + unfold modify, ret. simpl. intros P. injection P as <- <-.
      eexists. split; [reflexivity|]. simpl. intros _. auto.
    + unfold ret. intros P. injection P as <- <-.
      eexists. split; [reflexivity|]. simpl. discriminate.
  - unfold ret. intros P. injection P as <- <-.
    eexists. split; [reflexivity|]. simpl. discriminate.
Qed.

End SemanticMapping.

Section SemanticMappingRuns.
Import Eff SemanticMappingHandler.

Definition sample_run (db : database) : result response * database :=
  process_semantic_mapping sample_embed_text sample_similar_regulations sample_put_events
    (Some "doc1") db.

Definition sample_row : mapping_row := mapping_data sample_clause sample_regulation.

(** What a response reports: success, and the number of mappings created. *)
Definition reported (res : result response) : option (bool * nat) :=
  match res with
  | Ok r => Some (success r, mappings_created r)
  | Raise _ => None
  end.

Example sample_row_id : compliance_mapping_id sample_row = "map_c1_reg_1".
Proof. reflexivity. Qed.

(** C2, as stated, fails. The document is at the target status of the stage;
    the stage is invoked twice. Neither invocation is a no-op: each reports
    success with one mapping created, and after the second the same row
    (the same mapping id) is in the table twice. *)
Lemma C2_reinvocation_duplicates_rows :
  let run1 := sample_run sample_database in
  let run2 := sample_run run1.2 in
  Forall (fun d => at_or_past "semantic_mapping_completed" d.2 = true)
         (RAW_DOCUMENTS sample_database) /\
  map reported [run1.1; run2.1] = [Some (true, 1%nat); Some (true, 1%nat)] /\
  COMPLIANCE_MAPPINGS run1.2 = [sample_row] /\
  COMPLIANCE_MAPPINGS run2.2 = [sample_row; sample_row] /\
  COMPLIANCE_MAPPINGS run2.2 <> COMPLIANCE_MAPPINGS run1.2.
Proof.
  cbv zeta. split; [repeat constructor|].
  repeat (split; [vm_compute; reflexivity|]).
  vm_compute. discriminate.
Qed.

(** An instance: the sample run on the sample database. *)
Lemma C2_every_successful_invocation_witness :
  let '(res, db') := sample_run sample_database in
  (exists r, res = Ok r /\
     (success r = true ->
        COMPLIANCE_MAPPINGS db'
          = COMPLIANCE_MAPPINGS sample_database ++
            flat_map (rows_of sample_embed_text sample_similar_regulations)
                     (clauses_of sample_database (Some "doc1")) /\
        mappings_created r
          = length (flat_map (rows_of sample_embed_text sample_similar_regulations)
                             (clauses_of sample_database (Some "doc1"))) /\
        RAW_DOCUMENTS db' = RAW_DOCUMENTS sample_database)) /\
  (forall docs, sample_run (with_documents docs sample_database)
                = (res, with_documents docs db')).
Proof.
  exact (C2_every_successful_invocation_inserts_rows
           sample_embed_text sample_similar_regulations sample_put_events
           (Some "doc1") sample_database).
Defined.

End SemanticMappingRuns.

(** ** Risk consolidator: what enters the mean *)

Ltac returns_compute :=
  eexists; split; [vm_compute; reflexivity | vm_compute; reflexivity].

Section RiskConsolidation.
Import AgenticReasoningHandler.
Local Open Scope Q_scope.

Lemma safety_reports_risk_score (ms : list mapping) :
  exists q, SafetyComplianceAgent.analyze_compliance ms !! "risk_score" = Some (VFloat q).
Proof.
  eexists. unfold SafetyComplianceAgent.analyze_compliance, dict_of. cbn [fold_left fst snd].
  rewrite !lookup_insert_ne by discriminate.
  rewrite lookup_insert_eq. reflexivity.
Qed.

Lemma environmental_reports_risk_score (ms : list mapping) :
  exists q, EnvironmentalAgent.analyze_compliance ms !! "risk_score" = Some (VFloat q).
Proof.
  eexists. unfold EnvironmentalAgent.analyze_compliance, dict_of. cbn [fold_left fst snd].
  rewrite !lookup_insert_ne by discriminate.
  rewrite lookup_insert_eq. reflexivity.
Qed.

(** The risk agent never stores a ['risk_score'] key: its score goes under
    ['overall_risk_score']. *)
Lemma risk_agent_has_no_risk_score_key (ms : list mapping) :
  RiskAssessmentAgent.analyze_compliance ms !! "risk_score" = None.
Proof.
  unfold RiskAssessmentAgent.analyze_compliance, dict_of.
  destruct (Nat.eqb (length ms) 0); cbn [fold_left fst snd];
    rewrite !lookup_insert_ne by discriminate; apply lookup_empty.
Qed.

(** Whatever the mappings, the consolidated score is the rounded mean of the
    safety score, the environmental score and the default 0.5 that
    [dict.get] substitutes for the risk agent. *)
Lemma consolidate_uses_default_for_risk_agent (ms : list mapping) :
  exists s e,
    SafetyComplianceAgent.analyze_compliance ms !! "risk_score" = Some (VFloat s) /\
    EnvironmentalAgent.analyze_compliance ms !! "risk_score" = Some (VFloat e) /\
    overall_risk_score <$> _consolidate_analyses (run_agents ms)
      = Some (Py.round3 ((0 + s + e + 0.5) / 3)).
Proof.
  destruct (safety_reports_risk_score ms) as [s Hs].
  destruct (environmental_reports_risk_score ms) as [e He].
  exists s, e. split; [exact Hs|]. split; [exact He|].
  unfold _consolidate_analyses, run_agents, agents. cbn [map fst snd mapM].
  rewrite Hs, He, risk_agent_has_no_risk_score_key. reflexivity.
Qed.

(** C1 (defect). With no mappings every agent reports the score 1.0, so the
    mean of the three agents' scores, rounded to 3 decimals, is 1.0; the
    consolidated [overall_risk_score] is 0.833, because
    [_consolidate_analyses] reads the key ['risk_score'], which the risk agent
    does not set, and takes the default 0.5 in its place. *)
Theorem C1_consolidation_drops_risk_agent_score :
  Py.returns (reported_score (SafetyComplianceAgent.analyze_compliance [])) 1.0 /\
  Py.returns (reported_score (EnvironmentalAgent.analyze_compliance [])) 1.0 /\
  Py.returns (reported_score (RiskAssessmentAgent.analyze_compliance [])) 1.0 /\
  Py.returns (spec_overall_risk_score []) 1.0 /\
  Py.returns (overall_risk_score <$> _consolidate_analyses (run_agents [])) 0.833 /\
  ~ (0.833 == 1.0).
Proof.
  repeat (split; [returns_compute|]).
  intros H. vm_compute in H. discriminate H.
Qed.

(** C6 (defect). With zero mappings the risk agent returns the score 1.0
    (under the key ['overall_risk_score']), the level critical and the fixed
    factor "No compliance mappings found"; its result has no ['risk_score']
    key, so the score enters the consolidated mean as the default 0.5 and the
    mean is 0.833 instead of 1.0. *)
Theorem C6_zero_mappings_score_enters_mean_as_default :
  let r := RiskAssessmentAgent.analyze_compliance [] in
  r !! "overall_risk_score" = Some (VFloat 1.0) /\
  r !! "risk_level" = Some (VStr "critical") /\
  r !! "risk_factors" = Some (VStrs ["No compliance mappings found"]) /\
  r !! "risk_score" = None /\
  as_number (default (VFloat 0.5) (r !! "risk_score")) = Some 0.5 /\
  Py.returns (overall_risk_score <$> _consolidate_analyses (run_agents [])) 0.833.
Proof.
  repeat (split; [vm_compute; reflexivity|]). returns_compute.
Qed.

End RiskConsolidation.

(* ===================================================================== *)
(** * Part III. Further properties of the code *)
(* ===================================================================== *)

(** ** Rounding keeps a value between two thousandths *)

Section RoundingFacts.
Local Open Scope Q_scope.

Lemma round_half_even_between (lo hi : Z) (y : Q) :
  inject_Z lo <= y -> y <= inject_Z hi ->
  (lo <= Py.round_half_even y <= hi)%Z.
Proof.
  intros Hlo Hhi. unfold Py.round_half_even. cbv zeta.
  pose proof (Qfloor_le y) as Hf. pose proof (Qlt_floor y) as Hf1.
  assert (Hlof : (lo <= Qfloor y)%Z).
  { rewrite <- (Qfloor_Z lo). apply Qfloor_resp_le. exact Hlo. }
  assert (Hfhi : (Qfloor y <= hi)%Z).
  { rewrite <- (Qfloor_Z hi). apply Qfloor_resp_le. exact Hhi. }
  assert (Hup : 0 < y - inject_Z (Qfloor y) -> (Qfloor y + 1 <= hi)%Z).
  { intros Hr. assert (inject_Z (Qfloor y) < inject_Z hi) as Hlt.
    { eapply Qlt_le_trans; [|exact Hhi]. apply Qlt_minus_iff. exact Hr. }
    rewrite <- Zlt_Qlt in Hlt. lia. }
  destruct (Py.Qltb (y - inject_Z (Qfloor y)) 0.5) eqn:E1; [lia|].
  apply Qltb_ge in E1.
  assert (0 < y - inject_Z (Qfloor y)) as Hpos.
  { eapply Qlt_le_trans; [|exact E1]. reflexivity. }
  specialize (Hup Hpos).
  destruct (Py.Qltb 0.5 (y - inject_Z (Qfloor y))); [lia|].
  destruct (Z.even (Qfloor y)); lia.
Qed.

Lemma round3_between (lo hi : Z) (x : Q) :
  lo # 1000 <= x -> x <= hi # 1000 -> lo # 1000 <= Py.round3 x /\ Py.round3 x <= hi # 1000.
Proof.
  intros Hlo Hhi. unfold Py.round3.
  destruct (round_half_even_between lo hi (x * 1000)) as [H1 H2].
  - unfold Qle in *. simpl in *. lia.
  - unfold Qle in *. simpl in *. lia.
  - unfold Qle. simpl. lia.
Qed.

Lemma max_lower (a x : Q) : a <= Py.max a x.
Proof.
  unfold Py.max. destruct (Py.Qltb a x) eqn:E.
  - apply Qltb_lt in E. apply Qlt_le_weak. exact E.
  - apply Qle_refl.
Qed.

Lemma max_upper (a x b : Q) : a <= b -> x <= b -> Py.max a x <= b.
Proof. intros Ha Hx. unfold Py.max. destruct (Py.Qltb a x); assumption. Qed.

Lemma min_upper (a x : Q) : Py.min a x <= a.
Proof.
  unfold Py.min. destruct (Py.Qltb x a) eqn:E.
  - apply Qltb_lt in E. apply Qlt_le_weak. exact E.
  - apply Qle_refl.
Qed.

Lemma min_lower (a x b : Q) : b <= a -> b <= x -> b <= Py.min a x.
Proof. intros Ha Hx. unfold Py.min. destruct (Py.Qltb x a); assumption. Qed.

(** A share [k / max(1, n)] with [k <= n] lies between 0 and 1. *)
Lemma share_between (k n : nat) :
  (k <= n)%nat ->
  0 <= of_nat k / Py.max 1 (of_nat n) /\ of_nat k / Py.max 1 (of_nat n) <= 1.
Proof.
  intros Hkn. unfold Py.max.
  destruct (Py.Qltb 1 (of_nat n)) eqn:E.
  - apply Qltb_lt in E. unfold of_nat in *.
    assert (0 < inject_Z (Z.of_nat n)) as Hn by (eapply Qlt_trans; [|exact E]; reflexivity).
    split.
    + apply Qle_shift_div_l; [exact Hn|]. rewrite Qmult_0_l.
      rewrite <- (Zle_Qle 0). lia.
    + apply Qle_shift_div_r; [exact Hn|]. rewrite Qmult_1_l.
      rewrite <- Zle_Qle. lia.
  - apply Qltb_ge in E. unfold of_nat in *.
    assert (Hn1 : (Z.of_nat n <= 1)%Z) by (rewrite (Zle_Qle _ 1); exact E).
    split.
    + apply Qle_shift_div_l; [reflexivity|]. rewrite Qmult_0_l.
      rewrite <- (Zle_Qle 0). lia.
    + apply Qle_shift_div_r; [reflexivity|]. rewrite Qmult_1_l.
      rewrite <- (Zle_Qle _ 1). lia.
Qed.

End RoundingFacts.

(** ** The agents: gaps, scores and their ranges *)

Section AgentScores.
Import AgenticReasoningHandler.
Local Open Scope Q_scope.

Lemma round_half_even_below (hi : Z) (y : Q) :
  y < inject_Z hi + 0.5 -> (Py.round_half_even y <= hi)%Z.
Proof.
  intros Hy. unfold Py.round_half_even. cbv zeta.
  pose proof (Qfloor_le y) as Hf.
  assert (Hfhi : (Qfloor y <= hi)%Z).
  { assert (inject_Z (Qfloor y) < inject_Z (hi + 1)) as H.
    { eapply Qle_lt_trans; [exact Hf|]. eapply Qlt_le_trans; [exact Hy|].
      rewrite inject_Z_plus. apply Qplus_le_r. unfold Qle. simpl. lia. }
    rewrite <- Zlt_Qlt in H. lia. }
  destruct (Py.Qltb (y - inject_Z (Qfloor y)) 0.5) eqn:E1; [lia|].
  apply Qltb_ge in E1.
  assert (Qfloor y <> hi) as Hne.
  { intros E. rewrite E in E1. apply (Qlt_irrefl y).
    eapply Qlt_le_trans; [exact Hy|].
    apply (Qplus_le_r _ _ (inject_Z hi)) in E1.
    eapply Qle_trans; [exact E1|]. ring_simplify. apply Qle_refl. }
  destruct (Py.Qltb 0.5 (y - inject_Z (Qfloor y))); [lia|].
  destruct (Z.even (Qfloor y)); lia.
Qed.

Lemma safety_gaps_count l :
  length (SafetyComplianceAgent.gaps_of l)
  = length (List.filter (fun m => Py.Qltb (get_similarity m) 0.8) l).
Proof.
  unfold SafetyComplianceAgent.gaps_of.
  assert (G : forall acc,
    length (fold_left (fun gaps m =>
      if Py.Qltb (get_similarity m) 0.8
      then gaps ++ [ {| gap_clause_id := clause_id m;
                        gap_type := "low_similarity";
                        severity := "medium";
                        recommendation := "Review safety requirements alignment" |} ]
      else gaps) l acc)
    = (length acc + length (List.filter (fun m => Py.Qltb (get_similarity m) 0.8) l))%nat).
  { induction l as [|m l IH]; intros acc; simpl; [lia|].
    destruct (Py.Qltb (get_similarity m) 0.8); rewrite IH; [|reflexivity].
    rewrite length_app. simpl. lia. }
  apply (G []).
Qed.

Lemma environmental_gaps_count l :
  length (EnvironmentalAgent.gaps_of l)
  = length (List.filter (fun m => Py.Qltb (get_similarity m) 0.75) l).
Proof.
  unfold EnvironmentalAgent.gaps_of.
  assert (G : forall acc,
    length (fold_left (fun gaps m =>
      if Py.Qltb (get_similarity m) 0.75
      then gaps ++ [ {| gap_clause_id := clause_id m;
                        gap_type := "environmental_alignment";
                        severity := "high";
                        recommendation := "Strengthen environmental compliance requirements" |} ]
      else gaps) l acc)
    = (length acc + length (List.filter (fun m => Py.Qltb (get_similarity m) 0.75) l))%nat).
  { induction l as [|m l IH]; intros acc; simpl; [lia|].
    destruct (Py.Qltb (get_similarity m) 0.75); rewrite IH; [|reflexivity].
    rewrite length_app. simpl. lia. }
  apply (G []).
Qed.

Lemma filter_length_le {A} (p : A -> bool) (l : list A) :
  (length (List.filter p l) <= length l)%nat.
Proof. induction l as [|x l IH]; simpl; [lia|]. destruct (p x); simpl; lia. Qed.

(** A score [max(floor, 1 - g / max(1, n))] with [g <= n] lies between the
    floor and 1, and is 1 when there is no gap. *)
Lemma gap_score_range (floor : Q) (g n : nat) :
  floor <= 1 -> (g <= n)%nat ->
  floor <= Py.max floor (1.0 - of_nat g / Py.max 1 (of_nat n)) /\
  Py.max floor (1.0 - of_nat g / Py.max 1 (of_nat n)) <= 1 /\
  (g = O -> Py.max floor (1.0 - of_nat g / Py.max 1 (of_nat n)) == 1).
Proof.
  intros Hfloor Hgn. destruct (share_between g n Hgn) as [H0 H1].
  split; [apply max_lower|]. split.
  - apply max_upper; [exact Hfloor|].
    apply Qle_minus_iff.
    assert (E : 1 + - (1.0 - of_nat g / Py.max 1 (of_nat n))
                == of_nat g / Py.max 1 (of_nat n)) by ring.
    rewrite E. exact H0.
  - intros ->. unfold Py.max at 1.
    assert (E : 1.0 - of_nat 0 / Py.max 1 (of_nat n) == 1).
    { unfold of_nat. simpl. unfold Qdiv. rewrite Qmult_0_l. reflexivity. }
    destruct (Py.Qltb floor _) eqn:L; [exact E|].
    apply Qltb_ge in L. rewrite E in L. apply Qle_antisym; assumption.
Qed.

(** X1. The safety agent reports one gap per safety mapping whose similarity (0
    when the key is missing) is below 0.8; its score is
    max(0.3, 1 - gaps / max(1, safety mappings)), which lies in [0.3, 1], and
    with no gap the score is 1 and the level is 'low'. *)
Theorem safety_agent_score_range (ms : list mapping) :
  let safety := List.filter (category_is "safety_compliance") ms in
  let low := List.filter (fun m => Py.Qltb (get_similarity m) 0.8) safety in
  let r := SafetyComplianceAgent.analyze_compliance ms in
  exists gaps q,
    r !! "compliance_gaps" = Some (VGaps gaps) /\ length gaps = length low /\
    r !! "mappings_analyzed" = Some (VInt (Z.of_nat (length safety))) /\
    r !! "risk_score" = Some (VFloat q) /\
    q == Py.max 0.3 (1.0 - of_nat (length low) / Py.max 1 (of_nat (length safety))) /\
    0.3 <= q /\ q <= 1 /\
    (low = [] -> q == 1 /\ r !! "risk_level" = Some (VStr "low")).
Proof.
  cbv zeta. unfold SafetyComplianceAgent.analyze_compliance, dict_of.
  cbn [fold_left fst snd].
  set (safety := List.filter (category_is "safety_compliance") ms).
  pose proof (safety_gaps_count safety) as Hg.
  set (low := List.filter (fun m => Py.Qltb (get_similarity m) 0.8) safety) in *.
  assert (Hle : (length (SafetyComplianceAgent.gaps_of safety) <= length safety)%nat).
  { rewrite Hg. apply filter_length_le. }
  destruct (gap_score_range 0.3 _ _ ltac:(unfold Qle; simpl; lia) Hle) as (R1 & R2 & R3).
  change (Py.len (SafetyComplianceAgent.gaps_of safety))
    with (of_nat (length (SafetyComplianceAgent.gaps_of safety))) in *.
  change (Py.len safety) with (of_nat (length safety)) in *.
  eexists _, _. split; [rewrite !lookup_insert_ne by discriminate; apply lookup_insert_eq|].
  split; [exact Hg|].
  split; [apply lookup_insert_eq|].
  split; [rewrite !lookup_insert_ne by discriminate; apply lookup_insert_eq|].
  split; [rewrite Hg; reflexivity|].
  split; [exact R1|]. split; [exact R2|].
  intros Hlow. assert (Hz : length (SafetyComplianceAgent.gaps_of safety) = O).
  { rewrite Hg, Hlow. reflexivity. }
  specialize (R3 Hz). split; [exact R3|].
  rewrite !lookup_insert_ne by discriminate. rewrite lookup_insert_eq.
  rewrite (Qltb_comp _ 1 0.6 0.6 R3 (Qeq_refl _)).
  rewrite (Qltb_comp _ 1 0.8 0.8 R3 (Qeq_refl _)). reflexivity.
Qed.

(** X2. The environmental agent reports one gap per environmental mapping whose
    similarity (0 when missing) is below 0.75; its score lies in [0.2, 1],
    and with no gap the score is 1 and the level is 'medium', the lowest level
    this agent reports. *)
Theorem environmental_agent_score_range (ms : list mapping) :
  let env := List.filter (category_is "environmental_compliance") ms in
  let low := List.filter (fun m => Py.Qltb (get_similarity m) 0.75) env in
  let r := EnvironmentalAgent.analyze_compliance ms in
  exists gaps q level,
    r !! "compliance_gaps" = Some (VGaps gaps) /\ length gaps = length low /\
    r !! "mappings_analyzed" = Some (VInt (Z.of_nat (length env))) /\
    r !! "risk_score" = Some (VFloat q) /\
    q == Py.max 0.2 (1.0 - of_nat (length low) / Py.max 1 (of_nat (length env))) /\
    0.2 <= q /\ q <= 1 /\
    r !! "risk_level" = Some (VStr level) /\
    In level ["critical"; "high"; "medium"] /\
    (low = [] -> q == 1 /\ level = "medium").
Proof.
  cbv zeta. unfold EnvironmentalAgent.analyze_compliance, dict_of.
  cbn [fold_left fst snd].
  set (env := List.filter (category_is "environmental_compliance") ms).
  pose proof (environmental_gaps_count env) as Hg.
  set (low := List.filter (fun m => Py.Qltb (get_similarity m) 0.75) env) in *.
  assert (Hle : (length (EnvironmentalAgent.gaps_of env) <= length env)%nat).
  { rewrite Hg. apply filter_length_le. }
  destruct (gap_score_range 0.2 _ _ ltac:(unfold Qle; simpl; lia) Hle) as (R1 & R2 & R3).
  change (Py.len (EnvironmentalAgent.gaps_of env))
    with (of_nat (length (EnvironmentalAgent.gaps_of env))) in *.
  change (Py.len env) with (of_nat (length env)) in *.
  eexists _, _, _. split; [rewrite !lookup_insert_ne by discriminate; apply lookup_insert_eq|].
  split; [exact Hg|].
  split; [apply lookup_insert_eq|].
  split; [rewrite !lookup_insert_ne by discriminate; apply lookup_insert_eq|].
  split; [rewrite Hg; reflexivity|].
  split; [exact R1|]. split; [exact R2|].
  split; [rewrite !lookup_insert_ne by discriminate; apply lookup_insert_eq|].
  split.
  - destruct (Py.Qltb _ 0.5); [simpl; auto|]. destruct (Py.Qltb _ 0.7); simpl; auto.
  - intros Hlow. assert (Hz : length (EnvironmentalAgent.gaps_of env) = O).
    { rewrite Hg, Hlow. reflexivity. }
    specialize (R3 Hz). split; [exact R3|].
    rewrite (Qltb_comp _ 1 0.5 0.5 R3 (Qeq_refl _)).
    rewrite (Qltb_comp _ 1 0.7 0.7 R3 (Qeq_refl _)). reflexivity.
Qed.

End AgentScores.

Section RiskScores.
Import AgenticReasoningHandler.
Local Open Scope Q_scope.

Lemma round3_below (hi : Z) (x : Q) :
  x * 1000 < inject_Z hi + 0.5 -> Py.round3 x <= hi # 1000.
Proof.
  intros H. apply round_half_even_below in H.
  unfold Py.round3, Qle. simpl. lia.
Qed.

Lemma safety_score_bounds (ms : list mapping) :
  exists s, SafetyComplianceAgent.analyze_compliance ms !! "risk_score" = Some (VFloat s) /\
            0.3 <= s /\ s <= 1.
Proof.
  unfold SafetyComplianceAgent.analyze_compliance, dict_of. cbn [fold_left fst snd].
  set (safety := List.filter (category_is "safety_compliance") ms).
  assert (Hle : (length (SafetyComplianceAgent.gaps_of safety) <= length safety)%nat).
  { rewrite safety_gaps_count. apply filter_length_le. }
  destruct (gap_score_range 0.3 _ _ ltac:(lra) Hle) as (R1 & R2 & _).
  eexists. split; [rewrite !lookup_insert_ne by discriminate; apply lookup_insert_eq|].
  split; [exact R1|exact R2].
Qed.

Lemma environmental_score_bounds (ms : list mapping) :
  exists e, EnvironmentalAgent.analyze_compliance ms !! "risk_score" = Some (VFloat e) /\
            0.2 <= e /\ e <= 1.
Proof.
  unfold EnvironmentalAgent.analyze_compliance, dict_of. cbn [fold_left fst snd].
  set (env := List.filter (category_is "environmental_compliance") ms).
  assert (Hle : (length (EnvironmentalAgent.gaps_of env) <= length env)%nat).
  { rewrite environmental_gaps_count. apply filter_length_le. }
  destruct (gap_score_range 0.2 _ _ ltac:(lra) Hle) as (R1 & R2 & _).
  eexists. split; [rewrite !lookup_insert_ne by discriminate; apply lookup_insert_eq|].
  split; [exact R1|exact R2].
Qed.


(** X4. Whatever the mappings, consolidation succeeds, counts three agents and
    yields an overall risk score between 0.333 and 0.833: the risk agent's
    own score never enters it, so the consolidated score cannot reach the
    range above 0.833. *)
Theorem consolidated_score_range (ms : list mapping) :
  exists c,
    _consolidate_analyses (run_agents ms) = Some c /\
    agent_count c = 3%nat /\
    0.333 <= overall_risk_score c /\ overall_risk_score c <= 0.833.
Proof.
  destruct (safety_score_bounds ms) as (s & Hs & S0 & S1).
  destruct (environmental_score_bounds ms) as (e & He & E0 & E1).
  unfold _consolidate_analyses, run_agents, agents. cbn [map fst snd mapM].
  rewrite Hs, He, risk_agent_has_no_risk_score_key. cbn.
  eexists. split; [reflexivity|]. cbn [agent_count overall_risk_score].
  split; [reflexivity|].
  change ((0 + s + e + 0.5) / Py.len [s; e; 0.5]) with ((0 + s + e + 0.5) * (1 # 3)).
  split.
  - apply (round3_between 333 834); lra.
  - apply (round3_below 833). unfold inject_Z. lra.
Qed.

End RiskScores.

(** ** The OCR normaliser: pages, statistics and the full text *)

(** The ids of the blocks of one type, in the order of the blocks. *)
Definition ids_of_type (t : string) (blocks : list PDFProcessor.block)
  : list (option string) :=
  map PDFProcessor.Id
      (List.filter (fun b => bool_decide (PDFProcessor.BlockType b = Some t)) blocks).

Section OcrPages.
Import PDFProcessor.
Local Open Scope Q_scope.




End OcrPages.

Section OcrStatistics.
Import PDFProcessor.

Lemma dict_set_keys {V} (k : option string) (v : V) (d : list (option string * V)) :
  NoDup d.*1 ->
  NoDup (dict_set k v d).*1 /\ forall x, x ∈ (dict_set k v d).*1 <-> x = k \/ x ∈ d.*1.
Proof.
  induction d as [|[k' v'] d IH]; intros Hd; cbn [dict_set].
  - cbn. split; [apply NoDup_singleton|]. intros x. rewrite list_elem_of_singleton.
    rewrite elem_of_nil. tauto.
  - cbn in Hd. apply NoDup_cons in Hd as [Hk' Hd].
    destruct (decide (k = k')) as [->|Hne]; cbn.
    + split; [apply NoDup_cons; split; assumption|].
      intros x. rewrite elem_of_cons. tauto.
    + destruct (IH Hd) as [I1 I2]. split.
      * apply NoDup_cons. split; [|exact I1].
        rewrite I2. intros [E|E]; [congruence|contradiction].
      * intros x. rewrite !elem_of_cons, I2. tauto.
Qed.

Lemma ids_of_type_cons t b blocks :
  ids_of_type t (b :: blocks)
  = if bool_decide (BlockType b = Some t) then Id b :: ids_of_type t blocks
    else ids_of_type t blocks.
Proof. unfold ids_of_type. cbn. destruct (bool_decide _); reflexivity. Qed.

(** What the first loop of [process_textract_results] leaves in the three
    dictionaries: the ids of the blocks of each type. *)
Lemma organise_keys (blocks : list block) :
  forall (pg : list (option string * block)) (ln wd : gmap (option string) block),
  NoDup pg.*1 ->
  let r := fold_left (fun '(pages, lines, words) b =>
                 if decide (BlockType b = Some "PAGE") then (dict_set (Id b) b pages, lines, words)
                 else if decide (BlockType b = Some "LINE") then (pages, <[Id b := b]> lines, words)
                 else if decide (BlockType b = Some "WORD") then (pages, lines, <[Id b := b]> words)
                 else (pages, lines, words))
              blocks (pg, ln, wd) in
  NoDup r.1.1.*1 /\
  (forall x, x ∈ r.1.1.*1 <-> x ∈ pg.*1 \/ x ∈ ids_of_type "PAGE" blocks) /\
  dom r.1.2 = dom ln ∪ list_to_set (ids_of_type "LINE" blocks) /\
  dom r.2 = dom wd ∪ list_to_set (ids_of_type "WORD" blocks).
Proof.
  induction blocks as [|b blocks IH]; intros pg ln wd Hpg; cbn [fold_left].
  - cbn. split; [exact Hpg|]. split; [intros x; rewrite elem_of_nil; tauto|].
    split; set_solver.
  - rewrite !ids_of_type_cons.
    destruct (decide (BlockType b = Some "PAGE")) as [E|E].
    + destruct (dict_set_keys (Id b) b pg Hpg) as [D1 D2].
      destruct (IH (dict_set (Id b) b pg) ln wd D1) as (I1 & I2 & I3 & I4).
      cbv zeta in I1, I2, I3, I4.
      rewrite (bool_decide_eq_true_2 _ E).
      rewrite !bool_decide_eq_false_2 by (rewrite E; discriminate).
      split; [exact I1|]. split; [|split; assumption].
      intros x. rewrite I2, D2, elem_of_cons. tauto.
    + rewrite (bool_decide_eq_false_2 _ E).
      destruct (decide (BlockType b = Some "LINE")) as [E1|E1].
      * destruct (IH pg (<[Id b := b]> ln) wd Hpg) as (I1 & I2 & I3 & I4).
        cbv zeta in I1, I2, I3, I4.
        rewrite (bool_decide_eq_true_2 _ E1).
        rewrite !bool_decide_eq_false_2 by (rewrite E1; discriminate).
        split; [exact I1|]. split; [exact I2|]. split; [|exact I4].
        rewrite I3, dom_insert_L. set_solver.
      * rewrite (bool_decide_eq_false_2 _ E1).
        destruct (decide (BlockType b = Some "WORD")) as [E2|E2].
        -- destruct (IH pg ln (<[Id b := b]> wd) Hpg) as (I1 & I2 & I3 & I4).
           cbv zeta in I1, I2, I3, I4.
           rewrite (bool_decide_eq_true_2 _ E2).
           split; [exact I1|]. split; [exact I2|]. split; [exact I3|].
           rewrite I4, dom_insert_L. set_solver.
        -- rewrite (bool_decide_eq_false_2 _ E2). apply IH. exact Hpg.
Qed.

Lemma size_ids (l : list (option string)) :
  size (list_to_set l : gset (option string)) = length (remove_dups l).
Proof.
  rewrite <- (size_list_to_set (C := gset (option string)) (remove_dups l))
    by apply NoDup_remove_dups.
  f_equal. apply set_eq. intros x. rewrite !elem_of_list_to_set, elem_of_remove_dups.
  reflexivity.
Qed.

Lemma remove_dups_length_le (l : list (option string)) :
  length (remove_dups l) <= length l.
Proof.
  induction l as [|x l IH]; cbn; [lia|].
  destruct (decide_rel elem_of x l); cbn; lia.
Qed.

Lemma typed_blocks_length (blocks : list block) :
  length (ids_of_type "PAGE" blocks) + length (ids_of_type "LINE" blocks)
  + length (ids_of_type "WORD" blocks) <= length blocks.
Proof.
  induction blocks as [|b blocks IH]; [cbn; lia|].
  rewrite !ids_of_type_cons. cbn [length].
  destruct (decide (BlockType b = Some "PAGE")) as [E|E].
  - rewrite (bool_decide_eq_true_2 _ E).
    rewrite !bool_decide_eq_false_2 by (rewrite E; discriminate). cbn [length]. lia.
  - rewrite (bool_decide_eq_false_2 _ E).
    destruct (decide (BlockType b = Some "LINE")) as [E1|E1].
    + rewrite (bool_decide_eq_true_2 _ E1).
      rewrite !bool_decide_eq_false_2 by (rewrite E1; discriminate). cbn [length]. lia.
    + rewrite (bool_decide_eq_false_2 _ E1).
      destruct (bool_decide (BlockType b = Some "WORD")); cbn [length]; lia.
Qed.

(** X6. The statistics of a normalised document: blocks that share an Id count
    once, so the number of pages is the number of distinct Ids among the PAGE
    blocks (likewise for LINE and WORD blocks), and the three counts together
    never exceed the total number of blocks; blocks of any other type are
    counted in the total only. *)
Theorem extraction_stats_count_distinct_ids (blocks : list block) :
  let r := process_textract_results blocks in
  total_pages r = page_blocks r /\
  length (pages r) = page_blocks r /\
  page_blocks r = length (remove_dups (ids_of_type "PAGE" blocks)) /\
  line_blocks r = length (remove_dups (ids_of_type "LINE" blocks)) /\
  word_blocks r = length (remove_dups (ids_of_type "WORD" blocks)) /\
  total_blocks r = length blocks /\
  page_blocks r + line_blocks r + word_blocks r <= total_blocks r.
Proof.
  cbv zeta. unfold process_textract_results.
  pose proof (organise_keys blocks [] ∅ ∅ (NoDup_nil_2 (A:=option string))) as K. cbv zeta in K.
  destruct (fold_left _ blocks _) as [[pg ln] wd]. cbn [fst snd] in K.
  destruct K as (K1 & K2 & K3 & K4).
  destruct (confidence_loop _) as [s n].
  cbn [total_pages page_blocks pages line_blocks word_blocks total_blocks].
  rewrite length_map.
  assert (P : length pg = length (remove_dups (ids_of_type "PAGE" blocks))).
  { rewrite <- (length_fmap fst pg). apply Permutation_length.
    apply NoDup_Permutation; [exact K1|apply NoDup_remove_dups|].
    intros x. rewrite K2, elem_of_remove_dups. cbn. rewrite elem_of_nil. tauto. }
  assert (L : size ln = length (remove_dups (ids_of_type "LINE" blocks))).
  { rewrite <- size_ids, <- size_dom, K3, dom_empty_L. f_equal. set_solver. }
  assert (W : size wd = length (remove_dups (ids_of_type "WORD" blocks))).
  { rewrite <- size_ids, <- size_dom, K4, dom_empty_L. f_equal. set_solver. }
  repeat (split; [first [reflexivity|assumption]|]).
  rewrite P, L, W.
  pose proof (remove_dups_length_le (ids_of_type "PAGE" blocks)).
  pose proof (remove_dups_length_le (ids_of_type "LINE" blocks)).
  pose proof (remove_dups_length_le (ids_of_type "WORD" blocks)).
  pose proof (typed_blocks_length blocks). lia.
Qed.

End OcrStatistics.

(** What one page with text contributes to the full text: its header line,
    its text and the newline that ends it. *)
Definition page_section (p : PDFProcessor.page_info) : list ascii :=
  Str.str ("--- Page " +:+ pretty (PDFProcessor.page_number p) +:+ " ---")
  ++ ["010"%char] ++ PDFProcessor.page_text p ++ ["010"%char].

Definition has_text (p : PDFProcessor.page_info) : bool :=
  negb (Nat.eqb (length (PDFProcessor.page_text p)) 0).

Section OcrFullText.
Import PDFProcessor.

Lemma full_text_parts_nil (ps : list page_info) :
  flat_map (fun page =>
              match page_text page with
              | [] => []
              | t => [ Str.str ("--- Page " +:+ pretty (page_number page) +:+ " ---");
                       t; [] ]
              end) ps = [] <-> List.filter has_text ps = [].
Proof.
  induction ps as [|p ps IH]; cbn [flat_map List.filter]; [tauto|].
  unfold has_text at 1. destruct (page_text p) as [|c t]; cbn; [exact IH|].
  split; discriminate.
Qed.

Lemma join_cons2 (sep a b : list ascii) (rest : list (list ascii)) :
  join sep (a :: b :: rest) = a ++ sep ++ join sep (b :: rest).
Proof. reflexivity. Qed.

(** X7. The full text is the pages that have text, each as its header line, its
    text and a newline, separated by one more newline (an empty line); pages
    without text leave no trace, and the full text is empty exactly when no
    page has text. *)
Theorem full_text_is_sections_of_pages_with_text (ps : list page_info) :
  _extract_full_text ps
  = join ["010"%char] (map page_section (List.filter has_text ps)) /\
  (_extract_full_text ps = [] <-> Forall (fun p => page_text p = []) ps).
Proof.
  assert (E : _extract_full_text ps
              = join ["010"%char] (map page_section (List.filter has_text ps))).
  { unfold _extract_full_text. induction ps as [|p ps IH]; [reflexivity|].
    cbn [flat_map List.filter]. unfold has_text at 1.
    destruct (page_text p) as [|c t] eqn:Et; cbn [length Nat.eqb negb app]; [exact IH|].
    cbn [map]. pose proof (full_text_parts_nil ps) as N.
    destruct (List.filter has_text ps) as [|p' ps'] eqn:Ef.
    - rewrite (proj2 N eq_refl). cbn [map join]. unfold page_section.
      rewrite Et. reflexivity.
    - destruct (flat_map _ ps) as [|x xs] eqn:Eg.
      + destruct N as [N _]. specialize (N eq_refl). discriminate N.
      + rewrite !join_cons2, IH. cbn [map]. rewrite (join_cons2 _ (page_section p)).
        assert (S : page_section p
                    = Str.str ("--- Page " +:+ pretty (page_number p) +:+ " ---")
                      ++ ["010"%char] ++ (c :: t) ++ ["010"%char])
          by (unfold page_section; rewrite Et; reflexivity).
        rewrite S, <- !app_assoc. reflexivity. }
  split; [exact E|]. rewrite E. clear E.
  induction ps as [|p ps IH]; [cbn; split; [constructor|reflexivity]|].
  cbn [List.filter]. unfold has_text at 1.
  destruct (page_text p) as [|c t] eqn:Et; cbn [length Nat.eqb negb].
  - rewrite IH. split; [intros H; constructor; assumption|].
    intros H. apply Forall_cons in H as [_ H]. exact H.
  - split.
    + intros H. exfalso. cbn [map] in H.
      assert (S : page_section p = []).
      { destruct (map page_section (List.filter has_text ps)); [exact H|].
        rewrite join_cons2 in H. apply app_eq_nil in H as [H _]. exact H. }
      apply (f_equal (@length ascii)) in S. unfold page_section in S.
      rewrite !length_app in S. cbn [length] in S. lia.
    + intros H. apply Forall_cons in H as [H _]. congruence.
Qed.

End OcrFullText.

(** ** Table detection *)

(** Each line of the run follows the one before it. *)
Fixpoint chained (ls : list PDFTables.located_line) : bool :=
  match ls with
  | a :: (b :: _) as rest => PDFTables._lines_are_consecutive a b && chained rest
  | _ => true
  end.

Definition row_confidences (ls : list PDFTables.located_line) : list Q :=
  map (fun l => PDFProcessor.line_confidence (PDFTables.info l)) ls.

(** A table as [_detect_tables] means it: at least two rows, all of them
    candidate lines, each following the one before, with the rows' mean
    confidence. *)
Definition proper_table (t : PDFTables.table) : Prop :=
  2 <= PDFTables.row_count t /\
  PDFTables.row_count t = length (PDFTables.table_lines t) /\
  Forall (fun l => PDFTables.looks_tabular l = true) (PDFTables.table_lines t) /\
  chained (PDFTables.table_lines t) = true /\
  (PDFTables.table_confidence t == Py.mean (row_confidences (PDFTables.table_lines t)))%Q.

Section Tables.
Import PDFProcessor PDFTables.
Local Open Scope Q_scope.

Definition located (t : string) (c : Q) (box : option (gmap string Q)) : located_line :=
  {| info := {| line_text := Str.str t; line_confidence := c;
                line_words := []; line_word_count := 0 |};
     BoundingBox := box |}.

Definition box (top height : Q) : option (gmap string Q) :=
  Some (<["Top" := top]> (<["Height" := height]> ∅)).

(** Two rows 0.01 apart make one table; a third row further down is alone
    and is dropped. *)
Example two_rows_one_table :
  map row_count
      (_detect_tables [ located "Item | Qty | Price" 90 (box 0.10 0.02);
                        located "plain text line" 99 (box 0.11 0.02);
                        located "Bolt | 4 | 1.50" 80 (box 0.13 0.02);
                        located "Total    4    6.00" 70 (box 0.40 0.02) ])
  = [2%nat].
Proof. vm_compute. reflexivity. Qed.

Lemma chained_snoc (l : list located_line) (y : located_line) :
  chained l = true ->
  match last l with None => true | Some x => _lines_are_consecutive x y end = true ->
  chained (l ++ [y]) = true.
Proof.
  induction l as [|a [|b r] IH]; intros Hc Hl.
  - reflexivity.
  - cbn in *. rewrite Hl. reflexivity.
  - change (chained (a :: b :: r)) with (_lines_are_consecutive a b && chained (b :: r)) in Hc.
    apply andb_true_iff in Hc as [H1 H2].
    change ((a :: b :: r) ++ [y]) with (a :: b :: (r ++ [y])).
    change (chained (a :: b :: r ++ [y]))
      with (_lines_are_consecutive a b && chained ((b :: r) ++ [y])).
    rewrite H1, IH; [reflexivity|exact H2|exact Hl].
Qed.

Lemma detected_table_proper (current : list located_line) :
  (2 <= length current)%nat ->
  Forall (fun l => looks_tabular l = true) current ->
  chained current = true ->
  proper_table (detected_table current).
Proof.
  intros H2 Hf Hc. unfold proper_table, detected_table. cbn.
  repeat (split; [first [assumption|reflexivity]|]).
  unfold row_confidences, Py.mean.
  destruct current as [|c cs]; [cbn in H2; lia|]. cbn [map].
  unfold Py.len. cbn [length]. rewrite length_map. reflexivity.
Qed.

Lemma filter_sublist {A} (p : A -> bool) (l : list A) : List.filter p l `sublist_of` l.
Proof.
  induction l as [|x l IH]; cbn; [constructor|].
  destruct (p x); [apply sublist_skip|apply sublist_cons]; exact IH.
Qed.

Lemma filter_Forall {A} (p : A -> bool) (l : list A) :
  Forall (fun x => p x = true) (List.filter p l).
Proof.
  induction l as [|x l IH]; cbn; [constructor|].
  destruct (p x) eqn:E; [constructor; assumption|exact IH].
Qed.

(** The grouping loop, from any state that is already in order. *)
Lemma group_loop (rest : list located_line) :
  forall (tables : list table) (current done : list located_line),
  Forall proper_table tables ->
  Forall (fun l => looks_tabular l = true) current ->
  chained current = true ->
  concat (map table_lines tables) ++ current `sublist_of` done ->
  Forall (fun l => looks_tabular l = true) rest ->
  let r := fold_left group_step rest (tables, current) in
  Forall proper_table r.1 /\
  Forall (fun l => looks_tabular l = true) r.2 /\
  chained r.2 = true /\
  concat (map table_lines r.1) ++ r.2 `sublist_of` done ++ rest.
Proof.
  induction rest as [|x rest IH]; intros tables current done Ht Hcur Hch Hsub Hrest.
  - cbn. rewrite app_nil_r. auto.
  - apply Forall_cons in Hrest as [Hx Hrest]. cbn [fold_left].
    replace (done ++ x :: rest) with ((done ++ [x]) ++ rest)
      by (rewrite <- app_assoc; reflexivity).
    destruct (group_step (tables, current) x) as [tables' current'] eqn:Es.
    unfold group_step in Es.
    destruct (match last current with
              | None => true
              | Some l => _lines_are_consecutive l x
              end) eqn:E.
    + injection Es as <- <-. apply IH; try assumption.
      * apply Forall_app; split; [exact Hcur|]. constructor; [exact Hx|constructor].
      * apply chained_snoc; assumption.
      * rewrite app_assoc. apply sublist_app; [exact Hsub|reflexivity].
    + assert (Hsub' : concat (map table_lines tables) `sublist_of` done).
      { etransitivity; [|exact Hsub]. apply sublist_inserts_r. reflexivity. }
      destruct (Nat.leb 2 (length current)) eqn:L; injection Es as <- <-.
      * apply Nat.leb_le in L. apply IH; try assumption.
        -- apply Forall_app; split; [exact Ht|].
           constructor; [|constructor]. apply detected_table_proper; assumption.
        -- constructor; [exact Hx|constructor].
        -- reflexivity.
        -- rewrite map_app, concat_app. cbn [map concat table_lines detected_table].
           rewrite app_nil_r. apply sublist_app; [exact Hsub|reflexivity].
      * apply IH; try assumption.
        -- constructor; [exact Hx|constructor].
        -- reflexivity.
        -- apply sublist_app; [exact Hsub'|reflexivity].
Qed.

(** X8. Every detected table is a run of at least two candidate lines (a column
    separator and more than two words), each vertically next to the one
    before, with the mean of its rows' confidences; the tables share no row
    and their rows, read table after table, follow the order of the page. *)
Theorem detected_tables_are_runs_of_candidate_lines (page_lines : list located_line) :
  Forall proper_table (_detect_tables page_lines) /\
  concat (map table_lines (_detect_tables page_lines)) `sublist_of` page_lines.
Proof.
  unfold _detect_tables. cbv zeta.
  destruct (Nat.leb 2 (length (List.filter looks_tabular page_lines)));
    [|split; [constructor|apply sublist_nil_l]].
  pose proof (group_loop (List.filter looks_tabular page_lines) [] [] []
                (Forall_nil_2 _) (Forall_nil_2 _) eq_refl (sublist_nil_l _)
                (filter_Forall _ _)) as G.
  cbv zeta in G. destruct (fold_left group_step _ _) as [tables current].
  cbn [fst snd app] in G. destruct G as (G1 & G2 & G3 & G4).
  assert (F : concat (map table_lines tables) ++ current `sublist_of` page_lines).
  { etransitivity; [exact G4|apply filter_sublist]. }
  destruct (Nat.leb 2 (length current)) eqn:L.
  - apply Nat.leb_le in L. split.
    + apply Forall_app; split; [exact G1|].
      constructor; [|constructor]. apply detected_table_proper; assumption.
    + rewrite map_app, concat_app. cbn [map concat table_lines detected_table].
      rewrite app_nil_r. exact F.
  - split; [exact G1|]. etransitivity; [|exact F]. apply sublist_inserts_r. reflexivity.
Qed.

Definition unlocated (l : located_line) : Prop := default ∅ (BoundingBox l) = ∅.

Lemma unlocated_never_consecutive (a b : located_line) :
  unlocated b -> _lines_are_consecutive a b = false.
Proof.
  intros Hb. unfold _lines_are_consecutive. cbv zeta. unfold unlocated in Hb.
  rewrite Hb, (bool_decide_eq_true_2 (∅ = ∅) eq_refl), orb_true_r. reflexivity.
Qed.

Lemma group_loop_unlocated (rest : list located_line) :
  forall (current : list located_line),
  (length current <= 1)%nat ->
  Forall unlocated rest ->
  let r := fold_left group_step rest ([], current) in
  r.1 = [] /\ (length r.2 <= 1)%nat.
Proof.
  induction rest as [|x rest IH]; intros current Hc Hrest; [cbn; auto|].
  apply Forall_cons in Hrest as [Hx Hrest]. cbn [fold_left].
  destruct current as [|a [|b r]]; [| |cbn in Hc; lia].
  - change (group_step ([], []) x) with (@nil table, [x]).
    apply IH; [cbn; lia|exact Hrest].
  - replace (group_step ([], [a]) x) with (@nil table, [x]).
    + apply IH; [cbn; lia|exact Hrest].
    + unfold group_step. cbn [last]. rewrite (unlocated_never_consecutive a x Hx).
      reflexivity.
Qed.

(** X9. Lines that carry no bounding box are never next to one another, so a page
    whose lines have none yields no table, however tabular its lines look. *)
Theorem no_bounding_box_no_table (page_lines : list located_line) :
  Forall unlocated page_lines -> _detect_tables page_lines = [].
Proof.
  intros H. unfold _detect_tables. cbv zeta.
  destruct (Nat.leb 2 _); [|reflexivity].
  assert (Hf : Forall unlocated (List.filter looks_tabular page_lines)).
  { clear -H. induction H as [|x l Hx Hl IH]; cbn; [constructor|].
    destruct (looks_tabular x); [constructor; assumption|exact IH]. }
  pose proof (group_loop_unlocated _ [] ltac:(cbn; lia) Hf) as G. cbv zeta in G.
  destruct (fold_left group_step _ _) as [tables current]. cbn [fst snd] in G.
  destruct G as [-> G].
  destruct current as [|a [|b r]]; [reflexivity|reflexivity|cbn in G; lia].
Qed.

Lemma no_bounding_box_no_table_witness :
  Forall unlocated [ located "Item | Qty | Price" 90 None;
                     located "Bolt | 4 | 1.50" 80 (Some ∅) ] /\
  List.filter looks_tabular [ located "Item | Qty | Price" 90 None;
                              located "Bolt | 4 | 1.50" 80 (Some ∅) ]
  = [ located "Item | Qty | Price" 90 None; located "Bolt | 4 | 1.50" 80 (Some ∅) ] /\
  _detect_tables [ located "Item | Qty | Price" 90 None;
                   located "Bolt | 4 | 1.50" 80 (Some ∅) ] = [].
Proof.
  assert (H : Forall unlocated [ located "Item | Qty | Price" 90 None;
                                 located "Bolt | 4 | 1.50" 80 (Some ∅) ]).
  { repeat constructor. }
  split; [exact H|]. split; [vm_compute; reflexivity|].
  apply (no_bounding_box_no_table _ H).
Defined.

End Tables.

(** ** Quality of an extraction *)

Section ExtractionQuality.
Import PDFProcessor PDFValidation.
Local Open Scope Q_scope.

Lemma ratio_between (k n : nat) :
  (k <= n)%nat -> (0 < n)%nat -> 0 <= of_nat k / of_nat n /\ of_nat k / of_nat n <= 1.
Proof.
  intros Hk Hn. destruct (share_between k n Hk) as [H0 H1].
  assert (M : Py.max 1 (of_nat n) == of_nat n).
  { unfold Py.max. destruct (Py.Qltb 1 (of_nat n)) eqn:L; [reflexivity|].
    apply Qltb_ge in L. apply Qle_antisym; [|exact L].
    unfold of_nat, Qle. simpl. lia. }
  rewrite <- M. split; assumption.
Qed.

Lemma quality_factors_between (d : document) :
  exists m r, quality_factors d = [confidence d; m; r] /\
              0 <= m /\ m <= 1 /\ 0 <= r /\ r <= 1.
Proof.
  unfold quality_factors. eexists _, _. split; [reflexivity|].
  assert (L : 0 <= Py.len (full_text d) / 1000).
  { unfold Py.len. apply Qle_shift_div_l; [reflexivity|].
    rewrite Qmult_0_l. unfold Qle. simpl. lia. }
  split; [apply min_lower; [lra|exact L]|].
  split; [eapply Qle_trans; [apply min_upper|lra]|].
  destruct (pages d) as [|p ps] eqn:E; [split; lra|].
  rewrite <- E. assert (Hn : (0 < length (pages d))%nat) by (rewrite E; cbn; lia).
  assert (Hk : (length (empty_pages (pages d)) <= length (pages d))%nat).
  { unfold empty_pages. rewrite length_map. apply filter_length_le. }
  destruct (ratio_between _ _ Hk Hn) as [R0 R1].
  change (Py.len (empty_pages (pages d))) with (of_nat (length (empty_pages (pages d)))).
  change (Py.len (pages d)) with (of_nat (length (pages d))).
  split; lra.
Qed.

(** X10. The quality score is the mean of the confidence, a text-length factor in
    [0, 1] and the share of pages with text in [0, 1], so it lies between
    confidence / 3 and (confidence + 2) / 3. The extraction is valid exactly
    when the score is at least 0.6: a confidence of 1.8 or more makes any
    extraction valid, whatever its text. Issues alone never decide validity;
    an invalid result carries one recommendation more than it has issues, and
    there is no issue exactly when the confidence reaches the threshold 0.8,
    the text has at least 100 characters and no page is blank. *)
Theorem extraction_quality_verdict (d : document) :
  let v := validate_extraction_quality d in
  confidence d / 3 <= quality_score v /\
  quality_score v <= (confidence d + 2) / 3 /\
  is_valid v = negb (Py.Qltb (quality_score v) 0.6) /\
  (1.8 <= confidence d -> is_valid v = true) /\
  length (recommendations v)
  = (length (issues v) + (if is_valid v then 0 else 1))%nat /\
  (issues v = [] <->
   confidence_threshold <= confidence d /\
   (100 <= length (full_text d))%nat /\
   Forall (fun p => Str.strip (page_text p) <> []) (pages d)).
Proof.
  cbv zeta. unfold validate_extraction_quality.
  destruct (quality_factors_between d) as (m & r & Ef & M0 & M1 & R0 & R1).
  rewrite Ef.
  assert (Eq : Py.sum [confidence d; m; r] / Py.len [confidence d; m; r]
               == (confidence d + m + r) * (1 # 3)).
  { unfold Py.sum, Py.len. cbn [fold_left length].
    change (inject_Z (Z.of_nat 3)) with (3 # 1). field. }
  set (q := Py.sum [confidence d; m; r] / Py.len [confidence d; m; r]) in *.
  assert (B0 : confidence d / 3 <= q).
  { rewrite Eq. change (confidence d / 3) with (confidence d * (1 # 3)). lra. }
  assert (B1 : q <= (confidence d + 2) / 3).
  { rewrite Eq. change ((confidence d + 2) / 3) with ((confidence d + 2) * (1 # 3)). lra. }
  assert (Hempty : forall ps, empty_pages ps = []
                   <-> Forall (fun p => Str.strip (page_text p) <> []) ps).
  { unfold empty_pages. induction ps as [|p ps IH]; cbn [List.filter map].
    - split; [constructor|reflexivity].
    - destruct (Str.strip (page_text p)) as [|c t] eqn:Es; cbn [length Nat.eqb map].
      + split; [discriminate|]. intros H. apply Forall_cons in H as [H _].
        cbn beta in H. congruence.
      + rewrite IH. split; [intros H; constructor; [rewrite Es; discriminate|exact H]|].
        intros H. apply Forall_cons in H as [_ H]. exact H. }
  specialize (Hempty (pages d)). unfold confidence_threshold.
  destruct (Py.Qltb (confidence d) 0.8) eqn:Ec;
  destruct (Nat.ltb (length (full_text d)) 100) eqn:El;
  destruct (empty_pages (pages d)) as [|z zs] eqn:Ee;
  destruct (Py.Qltb q 0.6) eqn:Ev;
  cbn [is_valid quality_score issues recommendations length app].
  all: split; [exact B0|]. all: split; [exact B1|].
  all: split; [rewrite Ev; reflexivity|].
  all: split; [intros Hc; first [reflexivity
                            | exfalso; apply Qltb_lt in Ev;
                              change (confidence d / 3) with (confidence d * (1 # 3)) in B0;
                              lra]|].
  all: split; [reflexivity|].
  all: first [apply Qltb_lt in Ec | apply Qltb_ge in Ec].
  all: first [apply Nat.ltb_lt in El | apply Nat.ltb_ge in El].
  all: split; [intros H; first [discriminate H
                           | split; [exact Ec|split; [exact El|apply Hempty; reflexivity]]]|].
  all: intros (H1 & H2 & H3); apply Hempty in H3.
  all: first [discriminate H3 | exfalso; lia | exfalso; lra | reflexivity].
Qed.

End ExtractionQuality.

(** ** Clause segmenter: the lettered and the section strategies *)

(** A lettered marker: a lowercase letter, a closing parenthesis, a run of
    white space. *)
Definition letter_marker_prefix (s : list ascii) : Prop :=
  exists l w tl,
    s = l :: ")"%char :: w ++ tl /\ Str.islower l = true /\
    w <> [] /\ Forall (fun c => Str.isspace c = true) w.

(** A lettered marker followed by a non-empty body that holds no lowercase
    letter and no closing parenthesis. *)
Definition lettered_candidate (m : list ascii) : Prop :=
  exists l w body,
    m = l :: ")"%char :: w ++ body /\ Str.islower l = true /\
    w <> [] /\ Forall (fun c => Str.isspace c = true) w /\
    body <> [] /\
    Forall (fun c => Str.islower c = false /\ c <> ")"%char) body.

(** A section marker: the word SECTION or Section, white space, digits. *)
Definition section_marker_prefix (s : list ascii) : Prop :=
  exists kw w d tl,
    s = kw ++ w ++ d ++ tl /\
    (kw = Str.str "SECTION" \/ kw = Str.str "Section") /\
    w <> [] /\ Forall (fun c => Str.isspace c = true) w /\
    d <> [] /\ Forall (fun c => Str.isdigit c = true) d.

(** A section marker followed by a body, possibly empty, without a capital S. *)
Definition section_candidate (m : list ascii) : Prop :=
  exists kw w d body,
    m = kw ++ w ++ d ++ body /\
    (kw = Str.str "SECTION" \/ kw = Str.str "Section") /\
    w <> [] /\ Forall (fun c => Str.isspace c = true) w /\
    d <> [] /\ Forall (fun c => Str.isdigit c = true) d /\
    Forall (fun c => c <> "S"%char) body.

Section OtherStrategies.
Import Re ClauseExtractionTool.

Example lettered_uppercase_bodies :
  lettered_matches (Str.str "a) SCOPE b) FEES") = [Str.str "a) SCOPE "; Str.str "b) FEES"].
Proof. vm_compute. reflexivity. Qed.

(** Ordinary prose after a lettered marker is not captured. *)
Example lettered_prose_not_captured :
  lettered_matches (Str.str "a) the scope b) the fees") = [].
Proof. vm_compute. reflexivity. Qed.

Example section_two_sections :
  section_matches (Str.str "Section 1 scope of work Section 2 fees")
  = [Str.str "Section 1 scope of work "; Str.str "Section 2 fees"].
Proof. vm_compute. reflexivity. Qed.

(** A capital S in the body ends the candidate, and the section is lost when
    no marker follows it. *)
Example section_capital_s_not_captured :
  section_matches (Str.str "Section 1 Safety rules Section 2 fees") = [Str.str "Section 2 fees"].
Proof. vm_compute. reflexivity. Qed.

Lemma lowercase_class c :
  cclass_matches dotall (CSet false [IRange "a" "z"]) c = true -> Str.islower c = true.
Proof. cbn. rewrite !orb_false_r. auto. Qed.

Lemma lit_paren c : cclass_matches dotall (CLit ")") c = true -> c = ")"%char.
Proof.
  unfold cclass_matches. cbn [IGNORECASE dotall]. intros H.
  apply Ascii.eqb_eq in H. auto.
Qed.

Lemma lettered_body_class c :
  cclass_matches dotall (CSet true [IRange "a" "z"; IChar ")"]) c = true ->
  Str.islower c = false /\ c <> ")"%char.
Proof.
  cbn. rewrite !orb_false_r. intros H. apply negb_true_iff, orb_false_iff in H as [H1 H2].
  split; [exact H1|]. intros ->. discriminate H2.
Qed.

Lemma not_capital_s c :
  cclass_matches dotall (CSet true [IChar "S"]) c = true -> c <> "S"%char.
Proof.
  cbn. rewrite !orb_false_r. intros H ->. discriminate H.
Qed.

Lemma letter_paren_space_inv n s k x :
  exec dotall letter_paren_space n s k = Some x -> letter_marker_prefix s.
Proof.
  unfold letter_paren_space. cbn [seqs exec plus]. intros H.
  destruct s as [|l s]; [discriminate|].
  destruct (cclass_matches dotall (CSet false [IRange "a" "z"]) l) eqn:El; [|discriminate].
  destruct s as [|c s]; [discriminate|].
  destruct (cclass_matches dotall (CLit ")") c) eqn:Ec; [|discriminate].
  apply lit_paren in Ec as ->.
  apply rep_greedy_inv in H as (w & tl & -> & Hw & Hws & H).
  exists l, w, tl. repeat split; auto using nonempty_of_length, lowercase_class.
Qed.

(** What the lettered pattern matches at the start of a text. *)
Lemma lettered_match_shape s len :
  match_here dotall lettered_pattern s = Some len ->
  exists m post,
    s = m ++ post /\ len = length m /\ lettered_candidate m /\
    (post = [] \/ letter_marker_prefix post).
Proof.
  unfold match_here, lettered_pattern. cbn [seqs exec plus plus_lazy]. intros H.
  destruct s as [|l s]; [discriminate|].
  destruct (cclass_matches dotall (CSet false [IRange "a" "z"]) l) eqn:El; [|discriminate].
  destruct s as [|c s]; [discriminate|].
  destruct (cclass_matches dotall (CLit ")") c) eqn:Ec; [|discriminate].
  apply lit_paren in Ec as ->.
  apply rep_greedy_inv in H as (w & r2 & -> & Hw & Hws & H).
  apply rep_lazy_inv in H as (body & post & -> & Hb & Hbs & H).
  assert (C : lettered_candidate (l :: ")"%char :: w ++ body)).
  { exists l, w, body. repeat split; auto using nonempty_of_length, lowercase_class.
    eapply Forall_impl; [exact Hbs | apply lettered_body_class]. }
  assert (L : 2 + length w + length body = length (l :: ")"%char :: w ++ body)).
  { cbn [length]. rewrite length_app. lia. }
  destruct (exec dotall letter_paren_space _ post _) eqn:Em.
  - injection H as <-.
    exists (l :: ")"%char :: w ++ body), post. repeat split; [|exact L|exact C|].
    + cbn. rewrite <- app_assoc. reflexivity.
    + right. eapply letter_paren_space_inv. exact Em.
  - destruct post; [|discriminate]. injection H as <-.
    exists (l :: ")"%char :: w ++ body), []. repeat split; [|exact L|exact C|].
    + cbn. rewrite <- app_assoc. reflexivity.
    + left. reflexivity.
Qed.

(** X11. Every candidate of the lettered strategy is a piece of the text made of a
    lowercase letter, a closing parenthesis, white space and a non-empty body
    that holds no lowercase letter and no closing parenthesis; it ends where
    the next lettered marker starts or where the text ends. *)
Theorem lettered_candidates_hold_no_lowercase_letter (t m : list ascii) :
  In m (lettered_matches t) ->
  exists pre post,
    t = pre ++ m ++ post /\ lettered_candidate m /\
    (post = [] \/ letter_marker_prefix post).
Proof.
  unfold lettered_matches, findall. intros H.
  apply findall_from_sound in H as (pre & post & -> & H).
  apply lettered_match_shape in H as (m' & post' & Hs & Hlen & Hc & Hp).
  assert (m' = m /\ post' = post) as [-> ->].
  { apply app_inj_1; [lia | congruence]. }
  exists pre, post. auto.
Qed.

Lemma lettered_candidates_witness :
  In (Str.str "a) SCOPE ") (lettered_matches (Str.str "a) SCOPE b) FEES")) /\
  exists pre post,
    Str.str "a) SCOPE b) FEES" = pre ++ Str.str "a) SCOPE " ++ post /\
    lettered_candidate (Str.str "a) SCOPE ") /\
    (post = [] \/ letter_marker_prefix post).
Proof.
  assert (H : In (Str.str "a) SCOPE ") (lettered_matches (Str.str "a) SCOPE b) FEES"))).
  { vm_compute. left. reflexivity. }
  split; [exact H|].
  exact (lettered_candidates_hold_no_lowercase_letter _ _ H).
Defined.

(** A literal word matches that word only. *)
Lemma chars_inv (l : list ascii) : forall n s k x,
  exec dotall (seqs (map (fun c => Chr (CLit c)) l)) n s k = Some x ->
  exists rest, s = l ++ rest /\ k (n + length l) rest = Some x.
Proof.
  induction l as [|a [|b l] IH]; intros n s k x H.
  - cbn in H. exists s. rewrite Nat.add_0_r. auto.
  - cbn [map seqs exec] in H. destruct s as [|c s]; [discriminate|].
    destruct (cclass_matches dotall (CLit a) c) eqn:E; [|discriminate].
    unfold cclass_matches in E. cbn [IGNORECASE dotall] in E. apply Ascii.eqb_eq in E as ->.
    exists s. cbn. rewrite Nat.add_1_r. auto.
  - change (seqs (map (fun c => Chr (CLit c)) (a :: b :: l)))
      with (Seq (Chr (CLit a)) (seqs (map (fun c => Chr (CLit c)) (b :: l)))) in H.
    cbn [exec] in H. destruct s as [|c s]; [discriminate|].
    destruct (cclass_matches dotall (CLit a) c) eqn:E; [|discriminate].
    unfold cclass_matches in E. cbn [IGNORECASE dotall] in E. apply Ascii.eqb_eq in E as ->.
    apply IH in H as (rest & -> & H). exists rest. split; [reflexivity|].
    cbn [length] in *. rewrite Nat.add_succ_r. exact H.
Qed.

Lemma section_word_inv n s k x :
  exec dotall (Alt (lit "SECTION") (lit "Section")) n s k = Some x ->
  exists kw rest, s = kw ++ rest /\
    (kw = Str.str "SECTION" \/ kw = Str.str "Section") /\
    k (n + length kw) rest = Some x.
Proof.
  cbn [exec]. unfold lit. intros H.
  destruct (exec dotall (seqs (map (fun c => Chr (CLit c)) (Str.str "SECTION"))) n s k) eqn:E.
  - injection H as ->. apply chars_inv in E as (rest & -> & E). eauto 6.
  - apply chars_inv in H as (rest & -> & H). eauto 6.
Qed.

Lemma section_digits_inv n s k x :
  exec dotall section_digits n s k = Some x -> section_marker_prefix s.
Proof.
  unfold section_digits.
  change (seqs [Alt (lit "SECTION") (lit "Section"); plus CSpace; plus CDigit])
    with (Seq (Alt (lit "SECTION") (lit "Section")) (Seq (plus CSpace) (plus CDigit))).
  cbn [exec plus]. intros H.
  apply section_word_inv in H as (kw & r1 & -> & Hkw & H).
  apply rep_greedy_inv in H as (w & r2 & -> & Hw & Hws & H).
  apply rep_greedy_inv in H as (d & tl & -> & Hd & Hds & H).
  exists kw, w, d, tl. repeat split; auto using nonempty_of_length.
Qed.

(** What the section pattern matches at the start of a text. *)
Lemma section_match_shape s len :
  match_here dotall section_pattern s = Some len ->
  exists m post,
    s = m ++ post /\ len = length m /\ section_candidate m /\
    (post = [] \/ section_marker_prefix post).
Proof.
  unfold match_here, section_pattern.
  change (seqs [Alt (lit "SECTION") (lit "Section"); plus CSpace; plus CDigit;
                star_lazy (CSet true [IChar "S"]); Ahead (Alt section_digits EndZ)])
    with (Seq (Alt (lit "SECTION") (lit "Section"))
           (Seq (plus CSpace) (Seq (plus CDigit)
              (Seq (star_lazy (CSet true [IChar "S"])) (Ahead (Alt section_digits EndZ)))))).
  cbn [exec plus star_lazy]. intros H.
  apply section_word_inv in H as (kw & r1 & -> & Hkw & H).
  apply rep_greedy_inv in H as (w & r2 & -> & Hw & Hws & H).
  apply rep_greedy_inv in H as (d & r3 & -> & Hd & Hds & H).
  apply rep_lazy_inv in H as (body & post & -> & _ & Hbs & H).
  assert (C : section_candidate (kw ++ w ++ d ++ body)).
  { exists kw, w, d, body. repeat split; auto using nonempty_of_length.
    eapply Forall_impl; [exact Hbs | apply not_capital_s]. }
  assert (L : 0 + length kw + length w + length d + length body
              = length (kw ++ w ++ d ++ body)).
  { rewrite !length_app. lia. }
  destruct (exec dotall section_digits _ post _) eqn:Em.
  - injection H as <-.
    exists (kw ++ w ++ d ++ body), post. repeat split; [|exact L|exact C|].
    + rewrite <- !app_assoc. reflexivity.
    + right. eapply section_digits_inv. exact Em.
  - destruct post; [|discriminate]. injection H as <-.
    exists (kw ++ w ++ d ++ body), []. repeat split; [|exact L|exact C|].
    + rewrite <- !app_assoc. reflexivity.
    + left. reflexivity.
Qed.

(** X12. Every candidate of the section strategy is a piece of the text made of
    the word SECTION or Section, white space, digits and a body without any
    capital S; it ends where the next section marker starts or where the text
    ends, so a section whose body holds a capital S is cut or lost. *)
Theorem section_candidates_hold_no_capital_s (t m : list ascii) :
  In m (section_matches t) ->
  exists pre post,
    t = pre ++ m ++ post /\ section_candidate m /\
    (post = [] \/ section_marker_prefix post).
Proof.
  unfold section_matches, findall. intros H.
  apply findall_from_sound in H as (pre & post & -> & H).
  apply section_match_shape in H as (m' & post' & Hs & Hlen & Hc & Hp).
  assert (m' = m /\ post' = post) as [-> ->].
  { apply app_inj_1; [lia | congruence]. }
  exists pre, post. auto.
Qed.

Lemma section_candidates_witness :
  In (Str.str "Section 1 scope of work ")
     (section_matches (Str.str "Section 1 scope of work Section 2 fees")) /\
  exists pre post,
    Str.str "Section 1 scope of work Section 2 fees"
    = pre ++ Str.str "Section 1 scope of work " ++ post /\
    section_candidate (Str.str "Section 1 scope of work ") /\
    (post = [] \/ section_marker_prefix post).
Proof.
  assert (H : In (Str.str "Section 1 scope of work ")
                 (section_matches (Str.str "Section 1 scope of work Section 2 fees"))).
  { vm_compute. left. reflexivity. }
  split; [exact H|].
  exact (section_candidates_hold_no_capital_s _ _ H).
Defined.

End OtherStrategies.

(** ** Clause segmenter: the strategies together *)

Section StripFacts.

Lemma lstrip_head (s : list ascii) :
  match Str.lstrip s with c :: _ => Str.isspace c = false | [] => True end.
Proof.
  induction s as [|c s IH]; cbn; [exact I|].
  destruct (Str.isspace c) eqn:E; [exact IH|exact E].
Qed.

Lemma lstrip_idem (s : list ascii) : Str.lstrip (Str.lstrip s) = Str.lstrip s.
Proof.
  pose proof (lstrip_head s) as H. destruct (Str.lstrip s) as [|c r]; [reflexivity|].
  cbn. rewrite H. reflexivity.
Qed.

Lemma lstrip_snoc (s : list ascii) (c : ascii) :
  Str.isspace c = false -> Str.lstrip (s ++ [c]) = Str.lstrip s ++ [c].
Proof.
  intros Hc. induction s as [|a s IH]; cbn; [rewrite Hc; reflexivity|].
  destruct (Str.isspace a); [exact IH|reflexivity].
Qed.

Lemma rstrip_cons (c : ascii) (s : list ascii) :
  Str.isspace c = false -> Str.rstrip (c :: s) = c :: Str.rstrip s.
Proof.
  intros Hc. unfold Str.rstrip. cbn [rev]. rewrite (lstrip_snoc _ _ Hc), rev_app_distr.
  reflexivity.
Qed.

(** Stripping is idempotent: a stripped text has no white space left at
    either end. *)
Lemma strip_idem (s : list ascii) : Str.strip (Str.strip s) = Str.strip s.
Proof.
  unfold Str.strip. pose proof (lstrip_head s) as H.
  destruct (Str.lstrip s) as [|c r] eqn:E; [reflexivity|].
  rewrite (rstrip_cons _ _ H). cbn [Str.lstrip]. rewrite H, (rstrip_cons _ _ H).
  f_equal. unfold Str.rstrip. rewrite rev_involutive, lstrip_idem. reflexivity.
Qed.

End StripFacts.

Section Strategies.
Import ClauseExtractionTool.

Lemma imap_project {A B C} (p : B -> C) (h : A -> C) (l : list A) :
  forall (g : nat -> A -> B), (forall i x, p (g i x) = h x) -> map p (imap g l) = map h l.
Proof.
  induction l as [|x l IH]; intros g Hg; [reflexivity|].
  cbn. rewrite Hg. f_equal. apply IH. intros i y. apply Hg.
Qed.

Lemma imap_Forall {A B} (P : B -> Prop) (Q : A -> Prop) (l : list A) :
  forall (g : nat -> A -> B), (forall i x, Q x -> P (g i x)) -> Forall Q l -> Forall P (imap g l).
Proof.
  induction l as [|x l IH]; intros g Hg Hl; [constructor|].
  apply Forall_cons in Hl as [Hx Hl]. cbn. constructor; [apply Hg; exact Hx|].
  apply IH; [intros i y; apply Hg|exact Hl].
Qed.

Lemma map_constant {A B} (c : B) (l : list A) : map (fun _ => c) l = replicate (length l) c.
Proof. induction l as [|x l IH]; cbn; [reflexivity|]. rewrite IH. reflexivity. Qed.

(** The paragraphs of the fallback: the pieces between blank lines, stripped,
    that are longer than 50 characters. *)
Definition paragraphs (t : list ascii) : list (list ascii) :=
  List.filter (fun p => negb (Nat.eqb (length p) 0) && Nat.ltb 50 (length p))
    (map Str.strip (Str.split_sep [ "010"%char; "010"%char ] t)).

(** X13. The three pattern strategies all run and their candidates are reported
    one strategy after the other, stripped, without removing text that more
    than one strategy captured. The paragraph fallback is used only when the
    three of them find nothing, and reports the stripped paragraphs longer
    than 50 characters. No reported clause text starts or ends with white
    space. *)
Theorem clauses_follow_the_strategies (t : list ascii) :
  let found := numbered_matches t ++ lettered_matches t ++ section_matches t in
  let r := _extract_clauses_by_pattern t in
  Forall (fun c => Str.strip (text c) = text c) r /\
  (found <> [] ->
   map text r = map Str.strip found /\
   map extraction_method r
   = replicate (length (numbered_matches t)) "numbered_pattern"
     ++ replicate (length (lettered_matches t)) "lettered_pattern"
     ++ replicate (length (section_matches t)) "section_pattern") /\
  (found = [] ->
   map text r = paragraphs t /\
   Forall (fun c => extraction_method c = "paragraph_split" /\ 50 < length (text c)) r).
Proof.
  cbv zeta. unfold _extract_clauses_by_pattern. cbv zeta.
  fold (paragraphs t).
  set (cn := imap _ (numbered_matches t)).
  set (cl := imap _ (lettered_matches t)).
  set (cs := imap _ (section_matches t)).
  assert (Tn : map text cn = map Str.strip (numbered_matches t))
    by (apply imap_project; reflexivity).
  assert (Tl : map text cl = map Str.strip (lettered_matches t))
    by (apply imap_project; reflexivity).
  assert (Ts : map text cs = map Str.strip (section_matches t))
    by (apply imap_project; reflexivity).
  assert (Mn : map extraction_method cn
               = replicate (length (numbered_matches t)) "numbered_pattern").
  { rewrite <- (map_constant _ (numbered_matches t)).
    apply (imap_project extraction_method (fun _ => "numbered_pattern"%string)). reflexivity. }
  assert (Ml : map extraction_method cl
               = replicate (length (lettered_matches t)) "lettered_pattern").
  { rewrite <- (map_constant _ (lettered_matches t)).
    apply (imap_project extraction_method (fun _ => "lettered_pattern"%string)). reflexivity. }
  assert (Ms : map extraction_method cs
               = replicate (length (section_matches t)) "section_pattern").
  { rewrite <- (map_constant _ (section_matches t)).
    apply (imap_project extraction_method (fun _ => "section_pattern"%string)). reflexivity. }
  assert (T : map text (cn ++ cl ++ cs)
              = map Str.strip (numbered_matches t ++ lettered_matches t ++ section_matches t)).
  { rewrite !map_app, Tn, Tl, Ts. reflexivity. }
  assert (S : Forall (fun c => Str.strip (text c) = text c) (cn ++ cl ++ cs)).
  { apply Forall_forall. intros c Hc. apply list_elem_of_In in Hc.
    apply (in_map text) in Hc. rewrite T in Hc. apply in_map_iff in Hc as (m & <- & _).
    apply strip_idem. }
  assert (P : Forall (fun p => 50 < length p /\ Str.strip p = p) (paragraphs t)).
  { unfold paragraphs. apply Forall_forall. intros p Hp. apply list_elem_of_In in Hp.
    apply filter_In in Hp as [Hin Hlen]. apply andb_true_iff in Hlen as [_ Hlen].
    apply Nat.ltb_lt in Hlen. split; [exact Hlen|].
    apply in_map_iff in Hin as (m & <- & _). apply strip_idem. }
  destruct (cn ++ cl ++ cs) as [|c cs'] eqn:E.
  - assert (F : numbered_matches t ++ lettered_matches t ++ section_matches t = []).
    { apply (f_equal (@length _)) in T. rewrite !length_map in T. cbn in T.
      destruct (numbered_matches t ++ _); [reflexivity|discriminate T]. }
    split; [|split; [intros H; contradiction|intros _; split]].
    + eapply imap_Forall; [|exact P]. intros i p [_ Hp]. exact Hp.
    + rewrite <- (map_id (paragraphs t)) at 2.
      apply (imap_project text (fun p => p)). reflexivity.
    + eapply imap_Forall; [|exact P]. intros i p [Hp _]. split; [reflexivity|exact Hp].
  - split; [exact S|]. split; [intros _|intros H; rewrite H in T; discriminate T].
    split; [exact T|]. rewrite <- E, !map_app, Mn, Ml, Ms. reflexivity.
Qed.

End Strategies.

(** ** Clause classifier: saturation, subtypes, complexity and the result *)

(** The number of the keywords of one subtype that occur in the text. *)
Definition subtype_hits (t : list ascii) (ks : list string) : nat :=
  length (List.filter (fun k => Str.contains (Str.str k) t) ks).

Section ClassifierFacts.
Import Re ClauseClassifier ClauseClassification.
Local Open Scope Q_scope.

Lemma of_nat_nonneg (n : nat) : 0 <= of_nat n.
Proof. unfold of_nat, Qle. simpl. lia. Qed.

Lemma of_nat_le (a b : nat) : (a <= b)%nat -> of_nat a <= of_nat b.
Proof. intros H. unfold of_nat. rewrite <- Zle_Qle. lia. Qed.

Lemma normalized_at_most_one t r : normalized_score (score_rules t r) <= 1.
Proof.
  rewrite (proj2 (score_rules_weighted t r)). eapply Qle_trans; [apply min_upper|lra].
Qed.

(** Once the running best has reached 1 no later category replaces it. *)
Lemma best_loop_saturated (scores : list (string * score_data)) (bt : string) (bs : Q) :
  1 <= bs -> Forall (fun cs => normalized_score cs.2 <= 1) scores ->
  fold_left (fun '(best_type, best_score) cs =>
               if Py.Qltb best_score (normalized_score cs.2)
               then (cs.1, normalized_score cs.2)
               else (best_type, best_score))
            scores (bt, bs) = (bt, bs).
Proof.
  intros Hbs H. induction H as [|cs scores Hcs _ IH]; [reflexivity|].
  cbn [fold_left]. destruct (Py.Qltb bs (normalized_score cs.2)) eqn:E; [|exact IH].
  apply Qltb_lt in E. exfalso. apply (Qlt_irrefl bs).
  eapply Qlt_le_trans; [exact E|]. eapply Qle_trans; [exact Hcs|exact Hbs].
Qed.

Definition safety_rules : rules :=
  match classification_rules with
  | (_, r) :: _ => r
  | [] => {| keywords := []; regulatory_patterns := []; weight := 0; subtypes := [] |}
  end.

(** X14. In a text of at most 50 words one safety keyword or one safety
    regulation pattern is enough: the safety score is capped at 1, safety is
    the first category, and no later category can exceed 1, so the clause is
    safety_compliance with confidence 1 whatever else it says. *)
Theorem short_text_with_safety_hit_is_safety (t : list ascii) :
  (length (Str.split t) <= 50)%nat ->
  (1 <= keyword_hits t safety_rules + regex_hits t safety_rules)%nat ->
  exists q, _determine_primary_classification (_apply_classification_rules t)
            = ("safety_compliance", q) /\ q == 1.
Proof.
  intros Hw Hh.
  assert (N : normalized_score (score_rules t safety_rules) = 1.0).
  { rewrite (proj2 (score_rules_weighted t safety_rules)).
    rewrite (proj1 (score_rules_weighted t safety_rules)).
    destruct (score_rules_raw t safety_rules) as [R _].
    assert (M : Py.max 1 (Py.len (Str.split t) / 50) == 1).
    { unfold Py.max. destruct (Py.Qltb 1 (Py.len (Str.split t) / 50)) eqn:L; [|reflexivity].
      apply Qltb_lt in L. exfalso.
      assert (L' : Py.len (Str.split t) <= 50).
      { change (Py.len (Str.split t)) with (of_nat (length (Str.split t))).
        change 50 with (of_nat 50). apply of_nat_le. exact Hw. }
      change (Py.len (Str.split t) / 50) with (Py.len (Str.split t) * (1 # 50)) in L. lra. }
    assert (G : 1 <= raw_score (score_rules t safety_rules) * weight safety_rules
                     / Py.max 1 (Py.len (Str.split t) / 50)).
    { rewrite M, R. change (weight safety_rules) with 1.0.
      pose proof (of_nat_nonneg (keyword_hits t safety_rules)) as K0.
      pose proof (of_nat_nonneg (regex_hits t safety_rules)) as P0.
      assert (1 <= of_nat (keyword_hits t safety_rules)
              \/ 1 <= of_nat (regex_hits t safety_rules)) as [K|K].
      { destruct (keyword_hits t safety_rules) as [|k];
          [right|left]; change 1 with (of_nat 1); apply of_nat_le; lia. }
      - set (a := of_nat (keyword_hits t safety_rules)) in *.
        set (b := of_nat (regex_hits t safety_rules)) in *.
        assert (E : (a + 2 * b) * 1.0 / 1 == a + 2 * b) by field. rewrite E. lra.
      - set (a := of_nat (keyword_hits t safety_rules)) in *.
        set (b := of_nat (regex_hits t safety_rules)) in *.
        assert (E : (a + 2 * b) * 1.0 / 1 == a + 2 * b) by field. rewrite E. lra. }
    unfold Py.min. destruct (Py.Qltb _ 1.0) eqn:L; [|reflexivity].
    apply Qltb_lt in L. exfalso. lra. }
  exists 1.0. split; [|reflexivity].
  unfold _determine_primary_classification, _apply_classification_rules.
  change classification_rules
    with (("safety_compliance"%string, safety_rules) :: tl classification_rules).
  cbn [map fst snd]. unfold best_of. cbn [fold_left fst snd]. rewrite N.
  change (Py.Qltb 0.0 1.0) with true. cbv iota.
  rewrite best_loop_saturated.
  - reflexivity.
  - lra.
  - apply Forall_forall. intros cs Hcs. apply list_elem_of_In, in_map_iff in Hcs as (cr & <- & _).
    apply normalized_at_most_one.
Qed.

Lemma short_text_with_safety_hit_witness :
  (length (Str.split (Str.str "payment of the fee is a safety matter")) <= 50)%nat /\
  (1 <= keyword_hits (Str.str "payment of the fee is a safety matter") safety_rules
        + regex_hits (Str.str "payment of the fee is a safety matter") safety_rules)%nat /\
  exists q, _determine_primary_classification
              (_apply_classification_rules (Str.str "payment of the fee is a safety matter"))
            = ("safety_compliance", q) /\ q == 1.
Proof.
  assert (H1 : (length (Str.split (Str.str "payment of the fee is a safety matter")) <= 50)%nat)
    by (vm_compute; lia).
  assert (H2 : (1 <= keyword_hits (Str.str "payment of the fee is a safety matter") safety_rules
                + regex_hits (Str.str "payment of the fee is a safety matter") safety_rules)%nat)
    by (vm_compute; lia).
  split; [exact H1|]. split; [exact H2|].
  exact (short_text_with_safety_hit_is_safety _ H1 H2).
Defined.

(** The loop of [_determine_subtype]: the running best. *)
Lemma subtype_loop (t : list ascii) (l : list (string * list string)) :
  forall (b0 : string) (n0 : nat),
  let r := fold_left (fun '(best_subtype, best_score) sk =>
                        let score :=
                          length (List.filter (fun k => Str.contains (Str.str k) t) sk.2) in
                        if Nat.ltb best_score score then (sk.1, score)
                        else (best_subtype, best_score))
                     l (b0, n0) in
  (n0 <= r.2)%nat /\
  Forall (fun sk => (subtype_hits t sk.2 <= r.2)%nat) l /\
  (r = (b0, n0) \/
   exists ks, In (r.1, ks) l /\ r.2 = subtype_hits t ks /\ (n0 < r.2)%nat).
Proof.
  induction l as [|[s ks] l IH]; intros b0 n0; cbn [fold_left].
  - cbn. split; [lia|]. split; [constructor|]. left. reflexivity.
  - cbv zeta. cbn [fst snd]. fold (subtype_hits t ks).
    destruct (Nat.ltb n0 (subtype_hits t ks)) eqn:E.
    + apply Nat.ltb_lt in E.
      destruct (IH s (subtype_hits t ks)) as (I1 & I2 & I3). cbv zeta in I1, I2, I3.
      split; [lia|]. split; [constructor; [exact I1|exact I2]|].
      right. destruct I3 as [I3|(ks' & I3 & I4 & I5)].
      * rewrite I3. cbn. exists ks. split; [left; reflexivity|]. split; [reflexivity|exact E].
      * exists ks'. split; [right; exact I3|]. split; [exact I4|lia].
    + apply Nat.ltb_ge in E.
      destruct (IH b0 n0) as (I1 & I2 & I3). cbv zeta in I1, I2, I3.
      split; [exact I1|]. split; [constructor; [cbn [fst snd]; lia|exact I2]|].
      destruct I3 as [I3|(ks' & I3 & I4 & I5)]; [left; exact I3|].
      right. exists ks'. split; [right; exact I3|]. split; [exact I4|exact I5].
Qed.

(** X15. The subtype is empty for the type unknown and for a type without rules.
    Otherwise it is empty exactly when no keyword of any subtype of the
    primary type occurs in the text, and else it names a subtype of the
    primary type that has the most of its keywords in the text. *)
Theorem subtype_has_most_keywords (primary : string) (t : list ascii) :
  let s := _determine_subtype primary t in
  (primary = "unknown"%string -> s = ""%string) /\
  (rules_of primary = None -> s = ""%string) /\
  (forall r, primary <> "unknown"%string -> rules_of primary = Some r ->
     (s = ""%string /\ Forall (fun sk => subtype_hits t sk.2 = O) (subtypes r)) \/
     (exists ks, In (s, ks) (subtypes r) /\ (0 < subtype_hits t ks)%nat /\
                 Forall (fun sk => (subtype_hits t sk.2 <= subtype_hits t ks)%nat)
                        (subtypes r))).
Proof.
  cbv zeta. unfold _determine_subtype. split; [intros ->; reflexivity|].
  split; [intros ->; destruct (String.eqb primary "unknown"); reflexivity|].
  intros r Hp Hr. rewrite Hr.
  replace (String.eqb primary "unknown") with false
    by (symmetry; apply String.eqb_neq; exact Hp).
  pose proof (subtype_loop t (subtypes r) "" O) as L. cbv zeta in L.
  destruct (fold_left _ (subtypes r) _) as [s n]. cbn [fst snd] in *.
  destruct L as (_ & L2 & [L3|(ks & L3 & L4 & L5)]).
  - injection L3 as -> ->. left. split; [reflexivity|].
    eapply Forall_impl; [exact L2|]. cbn. intros sk H. lia.
  - right. exists ks. subst n. split; [exact L3|]. split; [exact L5|exact L2].
Qed.

Lemma quotient_nonneg (a b : Q) : 0 <= a -> 0 < b -> 0 <= a / b.
Proof.
  intros Ha Hb. apply Qle_shift_div_l; [exact Hb|]. rewrite Qmult_0_l. exact Ha.
Qed.

(** X16. The complexity score lies in [0, 1], and is 0 for a text without a word
    or without a sentence. *)
Theorem complexity_score_between_0_and_1 (t : list ascii) :
  0 <= _calculate_complexity t /\ _calculate_complexity t <= 1 /\
  (Str.split t = [] \/ sentences_of t = [] -> _calculate_complexity t == 0).
Proof.
  unfold _calculate_complexity. cbv zeta.
  destruct (sentences_of t) as [|s ss] eqn:Es; [repeat split; try lra; reflexivity|].
  destruct (Str.split t) as [|w ws] eqn:Ew; [repeat split; try lra; reflexivity|].
  set (words := w :: ws). set (sentences := s :: ss).
  assert (Hw : 0 < Py.len words) by (unfold Py.len, Qlt; cbn; lia).
  assert (Hs : 0 < Py.len sentences) by (unfold Py.len, Qlt; cbn; lia).
  assert (A : 0 <= Py.len words / Py.len sentences).
  { apply quotient_nonneg; [apply Qlt_le_weak; exact Hw|exact Hs]. }
  assert (B : 0 <= inject_Z (Z.of_nat (list_sum (map (@length ascii) words))) / Py.len words).
  { apply quotient_nonneg; [apply of_nat_nonneg|exact Hw]. }
  assert (C : 0 <= of_nat (length (List.filter (fun word => Nat.ltb 6 (length word)) words))
                   / of_nat (length words)
              /\ of_nat (length (List.filter (fun word => Nat.ltb 6 (length word)) words))
                 / of_nat (length words) <= 1).
  { apply ratio_between; [apply filter_length_le|cbn; lia]. }
  destruct C as [C0 C1].
  change (inject_Z (Z.of_nat (length (List.filter (fun word => Nat.ltb 6 (length word)) words))))
    with (of_nat (length (List.filter (fun word => Nat.ltb 6 (length word)) words))).
  change (Py.len words) with (of_nat (length words)) in *.
  set (x := of_nat (length words) / Py.len sentences) in *.
  set (y := inject_Z (Z.of_nat (list_sum (map (@length ascii) words))) / of_nat (length words)) in *.
  set (z := of_nat (length (List.filter (fun word => Nat.ltb 6 (length word)) words))
            / of_nat (length words)) in *.
  assert (X0 : 0 <= Py.min 1.0 (x / 25)).
  { apply min_lower; [lra|]. change (x / 25) with (x * (1 # 25)). lra. }
  assert (X1 : Py.min 1.0 (x / 25) <= 1) by (eapply Qle_trans; [apply min_upper|lra]).
  assert (Y0 : 0 <= Py.min 1.0 (y / 8)).
  { apply min_lower; [lra|]. change (y / 8) with (y * (1 # 8)). lra. }
  assert (Y1 : Py.min 1.0 (y / 8) <= 1) by (eapply Qle_trans; [apply min_upper|lra]).
  destruct (round3_between 0 1000
              (Py.min 1.0 (x / 25) * 0.4 + Py.min 1.0 (y / 8) * 0.3 + z * 0.3)) as [R0 R1];
    [lra|lra|].
  split; [lra|]. split; [lra|]. intros [H|H]; discriminate H.
Qed.

Lemma category_names :
  map fst classification_rules
  = [ "safety_compliance"; "environmental_compliance"; "operational_compliance";
      "commercial_terms"; "legal_provisions" ]%string.
Proof. reflexivity. Qed.

(** What [_determine_primary_classification] returns on the scores of a
    text: unknown with 0, or a category with a score in [0.1, 1]. *)
Lemma primary_cases (t : list ascii) :
  let r := _determine_primary_classification (_apply_classification_rules t) in
  (r = ("unknown"%string, 0.0)) \/
  (In r.1 (map fst classification_rules) /\ 0.1 <= r.2 /\ r.2 <= 1).
Proof.
  cbv zeta. unfold _determine_primary_classification.
  destruct (_apply_classification_rules t) as [|cs0 scores0] eqn:Es; [left; reflexivity|].
  rewrite <- Es. clear Es cs0 scores0. unfold best_of.
  pose proof (best_loop (_apply_classification_rules t) "unknown" 0.0) as B.
  destruct (fold_left _ (_apply_classification_rules t) _) as [bt bs].
  destruct B as (B1 & B2 & B3).
  destruct (Py.Qltb bs 0.1) eqn:E; [left; reflexivity|]. apply Qltb_ge in E.
  right. cbn [fst snd]. destruct B3 as [B3|(sd & Hin & Hbs)].
  - injection B3 as _ ->. exfalso. lra.
  - unfold _apply_classification_rules in Hin.
    apply in_map_iff in Hin as ([c r] & Heq & Hin). cbn [fst snd] in Heq.
    injection Heq as <- <-. split; [apply in_map_iff; exists (c, r); auto|].
    split; [exact E|]. subst bs. apply normalized_at_most_one.
Qed.

(** X17. A clause is classified as unknown exactly when its confidence is 0;
    otherwise the type is one of the five categories and the confidence lies
    in [0.1, 1]. An unknown clause has no subtype, and a blank clause is
    unknown with every count at 0. *)
Theorem unknown_exactly_when_confidence_is_zero (clause_text : list ascii) :
  let c := classify_clause clause_text in
  (primary_type c = "unknown"%string <-> confidence c == 0) /\
  (primary_type c = "unknown"%string \/
   In (primary_type c) (map fst classification_rules) /\
   0.1 <= confidence c /\ confidence c <= 1) /\
  (primary_type c = "unknown"%string -> subtype c = ""%string) /\
  (Str.strip clause_text = [] -> c = _create_unknown_classification).
Proof.
  cbv zeta. unfold classify_clause.
  destruct (Nat.eqb (length clause_text) 0 || Nat.eqb (length (Str.strip clause_text)) 0) eqn:Eb.
  { cbn. repeat split; try reflexivity. left. reflexivity. }
  cbv zeta.
  pose proof (primary_cases (_preprocess_text clause_text)) as P. cbv zeta in P.
  destruct (_determine_primary_classification _) as [pt cf]. cbn [fst snd] in P.
  cbn [primary_type confidence subtype].
  assert (Hstrip : Str.strip clause_text = [] -> False).
  { intros H. rewrite H in Eb. cbn in Eb. rewrite orb_true_r in Eb. discriminate Eb. }
  destruct P as [P|(Pin & P0 & P1)].
  - injection P as -> ->. split; [split; [intros _; vm_compute; reflexivity|reflexivity]|].
    split; [left; reflexivity|]. split; [reflexivity|].
    intros H. destruct (Hstrip H).
  - destruct (round3_between 100 1000 cf) as [R0 R1]; [lra|lra|].
    assert (Hpt : pt <> "unknown"%string).
    { intros ->. rewrite category_names in Pin. cbn in Pin.
      repeat (destruct Pin as [Pin|Pin]; [discriminate Pin|]). exact Pin. }
    split; [split; [intros H; contradiction|intros H; exfalso; lra]|].
    split; [right; split; [exact Pin|split; lra]|].
    split; [intros H; contradiction|].
    intros H. destruct (Hstrip H).
Qed.

End ClassifierFacts.

(** ** The keyword classifier of the classification tool *)

Section SimpleClassifier.
Import ClauseClassificationTool.
Local Open Scope Q_scope.

Example simple_environmental :
  primary_type (_classify_clause_simple (Str.str "Waste water and emissions are monitored."))
  = "environmental_compliance"%string.
Proof. vm_compute. reflexivity. Qed.



End SimpleClassifier.

(** ** Entity recogniser: confidences, merging, loading and statistics *)

Section EntityConfidence.
Import EntityRecognizer.
Local Open Scope Q_scope.

Ltac settle_confidence :=
  repeat match goal with
         | |- context [String.eqb ?a ?b] => destruct (String.eqb a b)
         | |- context [Nat.ltb ?a ?b] => destruct (Nat.ltb a b)
         end;
  vm_compute; repeat split; intros H; discriminate H.

(** X19. Every confidence the recogniser assigns lies in [0.5, 0.9] for a pattern
    entity and in [0.3, 0.9] for a spaCy entity, so the confidence test of the
    validation (confidence below 0.3) never rejects an entity the recogniser
    built itself. *)
Theorem assigned_confidences_pass_the_threshold
  (entity_type : string) (entity_value : list ascii) (ent : spacy_ent) :
  (0.5 <= _calculate_pattern_confidence entity_type entity_value /\
   _calculate_pattern_confidence entity_type entity_value <= 0.9 /\
   Py.Qltb (_calculate_pattern_confidence entity_type entity_value) 0.3 = false) /\
  (0.3 <= _calculate_spacy_confidence ent /\
   _calculate_spacy_confidence ent <= 0.9 /\
   Py.Qltb (_calculate_spacy_confidence ent) 0.3 = false).
Proof.
  split.
  - unfold _calculate_pattern_confidence. cbv zeta. cbn [lookup default].
    settle_confidence.
  - unfold _calculate_spacy_confidence. cbv zeta. cbn [lookup default].
    settle_confidence.
Qed.

End EntityConfidence.

Section EntityMergeKeeps.
Import EntityRecognizer.

Lemma scan_sublist rest : forall current, scan current rest `sublist_of` current :: rest.
Proof.
  induction rest as [|next rest IH]; intros current; cbn [scan]; [reflexivity|].
  destruct (overlaps current next).
  - destruct (Py.Qltb (confidence current) (confidence next)).
    + apply sublist_cons, IH.
    + etransitivity; [apply IH|]. apply sublist_skip, sublist_cons. reflexivity.
  - apply sublist_skip, IH.
Qed.

Lemma insert_by_start_perm e l : insert_by_start e l ≡ₚ e :: l.
Proof.
  induction l as [|x l IH]; cbn [insert_by_start]; [reflexivity|].
  destruct (start_position e <=? start_position x)%Z; [reflexivity|].
  rewrite IH. apply Permutation_swap.
Qed.

Lemma sorted_by_start_perm l : sorted_by_start l ≡ₚ l.
Proof.
  induction l as [|e l IH]; [reflexivity|].
  unfold sorted_by_start in *. cbn [fold_right]. rewrite insert_by_start_perm, IH.
  reflexivity.
Qed.

(** X20. Merging only drops entities: the merged list is the input sorted by
    start position with some entities left out, every merged entity is an
    input entity as it was given, and a non-empty input never merges to
    nothing. *)
Theorem merged_entities_are_input_entities (entities : list entity) :
  _merge_entities entities `sublist_of` sorted_by_start entities /\
  sorted_by_start entities ≡ₚ entities /\
  (forall e, In e (_merge_entities entities) -> In e entities) /\
  length (_merge_entities entities) <= length entities /\
  (entities <> [] -> _merge_entities entities <> []).
Proof.
  assert (S : _merge_entities entities `sublist_of` sorted_by_start entities).
  { rewrite merge_entities_scan. destruct (sorted_by_start entities) as [|first rest];
      [reflexivity|apply scan_sublist]. }
  pose proof (sorted_by_start_perm entities) as P.
  split; [exact S|]. split; [exact P|]. split; [|split].
  - intros e He. apply list_elem_of_In. rewrite <- P.
    eapply elem_of_submseteq; [apply list_elem_of_In; exact He|].
    apply sublist_submseteq. exact S.
  - rewrite <- (Permutation_length P). apply sublist_length. exact S.
  - intros Hne. rewrite merge_entities_scan.
    destruct (sorted_by_start entities) as [|first rest] eqn:E; [|apply scan_nonempty].
    exfalso. apply Hne. apply Permutation_nil_r. symmetry. exact P.
Qed.

End EntityMergeKeeps.

Section EntityLoading.
Import Eff EntityRecognizer.
Variable finditer : string -> list ascii -> result (list re_match).

Lemma for_each_state {S A B} (body : B -> A -> M S B) (xs : list A) :
  (forall acc x s, (body acc x s).2 = s) ->
  forall acc s, (for_each xs body acc s).2 = s.
Proof.
  intros Hbody. induction xs as [|x xs IH]; intros acc s; [reflexivity|].
  cbn [for_each]. unfold bind. specialize (Hbody acc x s).
  destruct (body acc x s) as [[b|e] s']; cbn in *; subst s'; [apply IH|reflexivity].
Qed.

(** Pattern extraction never touches the recogniser's state. *)
Lemma pattern_entities_state t self :
  (_extract_pattern_entities finditer t self).2 = self.
Proof.
  unfold _extract_pattern_entities. apply for_each_state. intros acc tp s.
  apply for_each_state. intros acc' pattern s'. unfold bind, call, ret.
  destruct (finditer pattern t); reflexivity.
Qed.

Definition not_blank (t : list ascii) : Prop :=
  Nat.eqb (length t) 0 || Nat.eqb (length (Str.strip t)) 0 = false.

(** X21. When the language model cannot be loaded the recogniser falls back on
    the patterns alone if the failure is an [OSError]: the result is the
    validated merge of the pattern entities. Any other failure of the load is
    caught one level up, and the pattern entities already found are lost: the
    result is the empty list. *)
Theorem load_failure_keeps_patterns_only_for_oserror
  (t : list ascii) (self : recognizer) (pattern_entities : list entity) :
  not_blank t -> nlp self = None ->
  (_extract_pattern_entities finditer t self).1 = Ok pattern_entities ->
  (forall msg,
     extract_entities finditer (Raise (OSError msg)) t self
     = (Ok (_validate_entities (_merge_entities pattern_entities) t), self)) /\
  (forall msg,
     extract_entities finditer (Raise (Exception msg)) t self = (Ok [], self)).
Proof.
  intros Hb Hn Hp. pose proof (pattern_entities_state t self) as Hs.
  destruct self as [n]. cbn in Hn. subst n.
  split; intros msg; unfold extract_entities, try_except, extract_entities_try;
    unfold not_blank in Hb; rewrite Hb; unfold bind at 1;
    destruct (_extract_pattern_entities finditer t {| nlp := None |}) as [[pes|e] s];
    cbn in Hp, Hs; try discriminate Hp; injection Hp as ->; subst s;
    cbn; rewrite ?app_nil_r; reflexivity.
Qed.

(** With a model in place a call never loads one: its result does not depend
    on the loader, and the recogniser keeps its model. *)
Lemma loaded_model_is_reused (model : pipeline) (t : list ascii) (load : result pipeline) :
  extract_entities finditer load t {| nlp := Some model |}
  = extract_entities finditer (Raise (Exception "not called")) t {| nlp := Some model |} /\
  (extract_entities finditer load t {| nlp := Some model |}).2 = {| nlp := Some model |}.
Proof.
  unfold extract_entities, try_except, extract_entities_try.
  destruct (Nat.eqb (length t) 0 || Nat.eqb (length (Str.strip t)) 0);
    [split; reflexivity|].
  unfold bind at 1 6 11.
  pose proof (pattern_entities_state t {| nlp := Some model |}) as Hs.
  destruct (_extract_pattern_entities finditer t {| nlp := Some model |}) as [[pes|e] s];
    cbn in Hs; subst s; [|split; reflexivity].
  cbn. unfold _extract_spacy_entities, try_except, bind, call, ret.
  destruct (model t); split; reflexivity.
Qed.

(** X22. The model is loaded lazily and once: the first call on a text that is
    not blank stores the loaded model in the recogniser, and from then on no
    call loads again, whatever the text. *)
Theorem model_is_loaded_once
  (t : list ascii) (self : recognizer) (model : pipeline) (pattern_entities : list entity) :
  not_blank t -> nlp self = None ->
  (_extract_pattern_entities finditer t self).1 = Ok pattern_entities ->
  let after := (extract_entities finditer (Ok model) t self).2 in
  after = {| nlp := Some model |} /\
  forall (t' : list ascii) (load : result pipeline),
    extract_entities finditer load t' after
    = extract_entities finditer (Raise (Exception "not called")) t' after /\
    (extract_entities finditer load t' after).2 = after.
Proof.
  intros Hb Hn Hp. cbv zeta.
  assert (A : (extract_entities finditer (Ok model) t self).2 = {| nlp := Some model |}).
  { pose proof (pattern_entities_state t self) as Hs.
    destruct self as [n]. cbn in Hn. subst n.
    unfold extract_entities, try_except, extract_entities_try.
    unfold not_blank in Hb. rewrite Hb. unfold bind at 1.
    destruct (_extract_pattern_entities finditer t {| nlp := None |}) as [[pes|e] s];
      cbn in Hp, Hs; [|discriminate Hp]. subst s.
    cbn. unfold _extract_spacy_entities, try_except, bind, call, ret.
    destruct (model t); reflexivity. }
  split; [exact A|]. rewrite A. intros t' load. apply loaded_model_is_reused.
Qed.

End EntityLoading.

Section EntityLoadingRuns.
Import Eff EntityRecognizer.

Lemma load_failure_witness :
  not_blank scenario_clause /\
  (_extract_pattern_entities sample_finditer scenario_clause {| nlp := None |}).1
  = Ok [sample_entity] /\
  extract_entities sample_finditer (Raise (OSError "missing")) scenario_clause
    {| nlp := None |}
  = (Ok (_validate_entities (_merge_entities [sample_entity]) scenario_clause),
     {| nlp := None |}).
Proof.
  assert (Hb : not_blank scenario_clause) by (vm_compute; reflexivity).
  assert (Hp : (_extract_pattern_entities sample_finditer scenario_clause {| nlp := None |}).1
               = Ok [sample_entity]) by (vm_compute; reflexivity).
  split; [exact Hb|]. split; [exact Hp|].
  exact (proj1 (load_failure_keeps_patterns_only_for_oserror
                  sample_finditer scenario_clause {| nlp := None |}
                  [sample_entity] Hb eq_refl Hp) "missing"%string).
Defined.

Lemma model_is_loaded_once_witness :
  let model : pipeline := fun _ => Ok [] in
  let after := (extract_entities sample_finditer (Ok model) scenario_clause
                  {| nlp := None |}).2 in
  not_blank scenario_clause /\
  after = {| nlp := Some model |} /\
  forall (t' : list ascii) (load : result pipeline),
    extract_entities sample_finditer load t' after
    = extract_entities sample_finditer (Raise (Exception "not called")) t' after /\
    (extract_entities sample_finditer load t' after).2 = after.
Proof.
  assert (Hb : not_blank scenario_clause) by (vm_compute; reflexivity).
  assert (Hp : (_extract_pattern_entities sample_finditer scenario_clause {| nlp := None |}).1
               = Ok [sample_entity]) by (vm_compute; reflexivity).
  split; [exact Hb|].
  exact (model_is_loaded_once sample_finditer scenario_clause {| nlp := None |}
           (fun _ => Ok []) [sample_entity] Hb eq_refl Hp).
Defined.

End EntityLoadingRuns.

(** The sum of the counts of a distribution. *)
Definition counts_total (counts : gmap string nat) : nat :=
  map_fold (fun _ n acc => n + acc) 0 counts.

(** How many entities have the key [k] under the projection [key]. *)
Definition occurrences (key : EntityRecognizer.entity -> string) (k : string)
  (entities : list EntityRecognizer.entity) : nat :=
  length (List.filter (fun e => String.eqb (key e) k) entities).

Section EntityStatisticsFacts.
Import EntityRecognizer EntityStatistics.
Local Open Scope Q_scope.

Lemma counts_total_insert_fresh (counts : gmap string nat) k n :
  counts !! k = None -> counts_total (<[k := n]> counts) = (n + counts_total counts)%nat.
Proof.
  intros H. unfold counts_total. rewrite map_fold_insert_L; [reflexivity| |exact H].
  intros. lia.
Qed.

Lemma counts_total_count_up (counts : gmap string nat) k :
  counts_total (count_up k counts) = S (counts_total counts).
Proof.
  unfold count_up. destruct (counts !! k) as [n|] eqn:E; cbn [default].
  - rewrite <- (insert_delete_eq counts k (n + 1)%nat).
    rewrite counts_total_insert_fresh by apply lookup_delete_eq.
    rewrite <- (insert_id counts k n E) at 2.
    rewrite <- (insert_delete_eq counts k n).
    rewrite counts_total_insert_fresh by apply lookup_delete_eq. lia.
  - rewrite counts_total_insert_fresh by exact E. lia.
Qed.

Lemma count_up_lookup (counts : gmap string nat) k k' :
  default O (count_up k counts !! k')
  = (default O (counts !! k') + (if String.eqb k k' then 1 else 0))%nat.
Proof.
  unfold count_up. destruct (String.eqb k k') eqn:E.
  - apply String.eqb_eq in E as ->. rewrite lookup_insert_eq. reflexivity.
  - apply String.eqb_neq in E. rewrite lookup_insert_ne by exact E. lia.
Qed.

(** The counting loop of [get_entity_statistics], from any state. *)
Lemma statistics_loop (entities : list entity) :
  forall (tc : gmap string nat) (cs : list Q) (em : gmap string nat),
  let r := fold_left (fun '(type_counts, confidence_scores, extraction_methods) entity =>
                     (count_up (entity_type entity) type_counts,
                      confidence_scores ++ [confidence entity],
                      count_up (extraction_method entity) extraction_methods))
                  entities (tc, cs, em) in
  (forall k, default O (r.1.1 !! k)
             = (default O (tc !! k) + occurrences entity_type k entities)%nat) /\
  (forall k, default O (r.2 !! k)
             = (default O (em !! k) + occurrences extraction_method k entities)%nat) /\
  counts_total r.1.1 = (counts_total tc + length entities)%nat /\
  counts_total r.2 = (counts_total em + length entities)%nat /\
  r.1.2 = cs ++ map confidence entities.
Proof.
  induction entities as [|e entities IH]; intros tc cs em; cbn [fold_left].
  - cbn. rewrite app_nil_r. repeat split; intros; lia.
  - destruct (IH (count_up (entity_type e) tc) (cs ++ [confidence e])
                 (count_up (extraction_method e) em)) as (I1 & I2 & I3 & I4 & I5).
    cbv zeta in I1, I2, I3, I4, I5.
    split; [|split; [|split; [|split]]].
    + intros k. rewrite I1, count_up_lookup. unfold occurrences. cbn [List.filter].
      destruct (String.eqb (entity_type e) k); cbn [length]; lia.
    + intros k. rewrite I2, count_up_lookup. unfold occurrences. cbn [List.filter].
      destruct (String.eqb (extraction_method e) k); cbn [length]; lia.
    + rewrite I3, counts_total_count_up. cbn [length]. lia.
    + rewrite I4, counts_total_count_up. cbn [length]. lia.
    + rewrite I5, <- app_assoc. reflexivity.
Qed.

(** X23. The statistics of a list of entities: without entities only the total 0
    is reported; otherwise each distribution counts every entity once under
    its type (its extraction method), so the counts of each distribution add
    up to the total, the high-confidence entities are those with a confidence
    of at least 0.8, and their percentage lies between 0 and 100. *)
Theorem statistics_count_every_entity_once (entities : list entity) :
  let s := get_entity_statistics entities in
  total_entities s = length entities /\
  (details s = None <-> entities = []) /\
  forall d, details s = Some d ->
    (forall k, default O (entity_type_distribution d !! k)
               = occurrences entity_type k entities) /\
    (forall k, default O (extraction_method_distribution d !! k)
               = occurrences extraction_method k entities) /\
    counts_total (entity_type_distribution d) = length entities /\
    counts_total (extraction_method_distribution d) = length entities /\
    high_confidence_entities d
    = length (List.filter (fun e => negb (Py.Qltb (confidence e) 0.8)) entities) /\
    (high_confidence_entities d <= length entities)%nat /\
    0 <= high_confidence_percentage d /\ high_confidence_percentage d <= 100.
Proof.
  cbv zeta. unfold get_entity_statistics.
  destruct entities as [|e0 es0] eqn:Ee.
  { cbn. split; [reflexivity|]. split; [tauto|]. intros d H. discriminate H. }
  rewrite <- Ee. assert (Hn : (0 < length entities)%nat) by (rewrite Ee; cbn; lia).
  clear Ee e0 es0.
  pose proof (statistics_loop entities ∅ [] ∅) as L. cbv zeta in L.
  destruct (fold_left _ entities _) as [[tc cs] em]. cbn [fst snd app] in L.
  destruct L as (L1 & L2 & L3 & L4 & L5). subst cs.
  cbn [total_entities details].
  split; [reflexivity|].
  split; [split; [discriminate|intros ->; cbn in Hn; lia]|].
  intros d Hd. injection Hd as <-.
  cbn [entity_type_distribution extraction_method_distribution high_confidence_entities
       high_confidence_percentage].
  assert (Hf : forall l : list entity,
            length (List.filter (fun score => negb (Py.Qltb score 0.8)) (map confidence l))
            = length (List.filter (fun e => negb (Py.Qltb (confidence e) 0.8)) l)).
  { induction l as [|x l IH]; [reflexivity|]. cbn [map List.filter].
    destruct (negb (Py.Qltb (confidence x) 0.8)); cbn [length]; rewrite IH; reflexivity. }
  rewrite Hf.
  set (high := length (List.filter (fun e => negb (Py.Qltb (confidence e) 0.8)) entities)).
  assert (Hh : (high <= length entities)%nat) by apply filter_length_le.
  split; [intros k; rewrite L1, lookup_empty; reflexivity|].
  split; [intros k; rewrite L2, lookup_empty; reflexivity|].
  split; [rewrite L3; reflexivity|]. split; [rewrite L4; reflexivity|].
  split; [reflexivity|]. split; [exact Hh|].
  destruct (ratio_between high (length entities) Hh Hn) as [R0 R1].
  change (inject_Z (Z.of_nat high)) with (of_nat high).
  change (Py.len entities) with (of_nat (length entities)).
  set (x := of_nat high / of_nat (length entities)) in *.
  destruct (round_half_even_between 0 1000 (x * 100 * 10)) as [B0 B1];
    [unfold inject_Z; lra|unfold inject_Z; lra|].
  unfold round1, Qle. cbn. lia.
Qed.

End EntityStatisticsFacts.

(** ** Semantic mapper: what a run leaves behind, failed or not *)

(** [db'] is [db] with rows appended to the embeddings and to the mappings,
    and nothing else touched. *)
Definition extends (db db' : SemanticMappingHandler.database) : Prop :=
  SemanticMappingHandler.RAW_DOCUMENTS db' = SemanticMappingHandler.RAW_DOCUMENTS db /\
  SemanticMappingHandler.CLAUSES db' = SemanticMappingHandler.CLAUSES db /\
  (exists embeddings,
     SemanticMappingHandler.CLAUSE_EMBEDDINGS db'
     = SemanticMappingHandler.CLAUSE_EMBEDDINGS db ++ embeddings) /\
  (exists rows,
     SemanticMappingHandler.COMPLIANCE_MAPPINGS db'
     = SemanticMappingHandler.COMPLIANCE_MAPPINGS db ++ rows) /\
  SemanticMappingHandler.published db' = SemanticMappingHandler.published db.

Section MapperFailures.
Import Eff SemanticMappingHandler.
Local Open Scope eff_scope.
Variable embed_text : list ascii -> result (list Q).
Variable similar_regulations : list Q -> result (list regulation_row).
Variable put_events : bus_event -> result unit.

(** Whatever its outcome, the step only appends to the two tables. *)
Definition grows {A} (m : M database A) : Prop := forall db, extends db (m db).2.

Lemma extends_refl db : extends db db.
Proof.
  unfold extends. repeat split; try reflexivity; exists []; rewrite app_nil_r; reflexivity.
Qed.

Lemma extends_trans db1 db2 db3 : extends db1 db2 -> extends db2 db3 -> extends db1 db3.
Proof.
  intros (R1 & C1 & [e1 E1] & [m1 M1] & P1) (R2 & C2 & [e2 E2] & [m2 M2] & P2).
  unfold extends. repeat split; try congruence.
  - exists (e1 ++ e2). rewrite E2, E1, app_assoc. reflexivity.
  - exists (m1 ++ m2). rewrite M2, M1, app_assoc. reflexivity.
Qed.

Lemma grows_ret {A} (a : A) : grows (ret a).
Proof. intros db. apply extends_refl. Qed.

Lemma grows_call {A} (r : result A) : grows (call r).
Proof. intros db. apply extends_refl. Qed.

Lemma grows_bind {A B} (m : M database A) (k : A -> M database B) :
  grows m -> (forall a, grows (k a)) -> grows (bind m k).
Proof.
  intros Hm Hk db. unfold bind. specialize (Hm db).
  destruct (m db) as [[a|e] db1]; cbn in *; [|exact Hm].
  eapply extends_trans; [exact Hm|apply Hk].
Qed.

Lemma grows_for_each {A B} (xs : list A) (body : B -> A -> M database B) :
  (forall acc x, grows (body acc x)) -> forall acc, grows (for_each xs body acc).
Proof.
  intros Hb. induction xs as [|x xs IH]; intros acc; cbn [for_each]; [apply grows_ret|].
  apply grows_bind; [apply Hb|exact IH].
Qed.

Lemma grows_insert_mapping row : grows (insert_mapping row).
Proof.
  intros db. unfold insert_mapping, modify, extends. cbn.
  repeat split; try reflexivity; [exists []; rewrite app_nil_r; reflexivity|].
  exists [row]. reflexivity.
Qed.

Lemma grows_store_clause_embedding cid t : grows (store_clause_embedding embed_text cid t).
Proof.
  unfold store_clause_embedding. apply grows_bind; [apply grows_call|]. intros e.
  apply grows_bind; [|intros; apply grows_ret].
  intros db. unfold modify, extends. cbn.
  repeat split; try reflexivity; [eexists; reflexivity|].
  exists []. rewrite app_nil_r. reflexivity.
Qed.

Lemma grows_select_clauses document_id : grows (select_clauses document_id).
Proof.
  unfold select_clauses. apply grows_bind; [intros db; apply extends_refl|].
  intros db. apply grows_ret.
Qed.

(** The part of [process_semantic_mapping] before the event is published. *)
Definition map_clauses (document_id : option string) : M database nat :=
  clauses <- select_clauses document_id ;;
  for_each clauses (fun created clause =>
    e <- generate_embedding embed_text (CLAUSE_TEXT clause) ;;
    store_clause_embedding embed_text (CLAUSE_ID clause) (CLAUSE_TEXT clause) ;;
    similar_regs <- find_similar_regulations similar_regulations e ;;
    for_each similar_regs (fun created reg =>
      insert_mapping (mapping_data clause reg) ;;
      ret (S created)) created) O.

Lemma grows_map_clauses document_id : grows (map_clauses document_id).
Proof.
  unfold map_clauses. apply grows_bind; [apply grows_select_clauses|]. intros clauses.
  apply grows_for_each. intros created clause.
  apply grows_bind; [apply grows_call|]. intros e.
  apply grows_bind; [apply grows_store_clause_embedding|]. intros _.
  apply grows_bind; [apply grows_call|]. intros regs.
  apply grows_for_each. intros created' reg.
  apply grows_bind; [apply grows_insert_mapping|]. intros _. apply grows_ret.
Qed.

Definition completion_event (document_id : option string) : bus_event :=
  {| Source := "compliance.semantic.mapping";
     DetailType := "Semantic Mapping Status Change";
     detail_document_id := document_id;
     detail_status := "semantic_mapping_completed";
     pipeline_stage := "semantic_mapping";
     EventBusName := "compliance-processing-bus" |}.

Definition failure_response : response :=
  {| success := false; data_document_id := None; mappings_created := O;
     processing_status := ""; error_code := "SEMANTIC_MAPPING_ERROR" |}.

Lemma bind_get_ret {A B} (f : database -> A) (k : A -> M database B) (db : database) :
  bind (bind get (fun s => ret (f s))) k db = k (f db) db.
Proof. reflexivity. Qed.

Lemma process_unfold (document_id : option string) (db : database) :
  process_semantic_mapping embed_text similar_regulations put_events document_id db
  = match map_clauses document_id db with
    | (Ok created, db1) =>
        match put_events (completion_event document_id) with
        | Ok _ =>
            (Ok {| success := true; data_document_id := document_id;
                   mappings_created := created;
                   processing_status := "semantic_mapping_completed";
                   error_code := "" |},
             {| RAW_DOCUMENTS := RAW_DOCUMENTS db1;
                CLAUSES := CLAUSES db1;
                CLAUSE_EMBEDDINGS := CLAUSE_EMBEDDINGS db1;
                COMPLIANCE_MAPPINGS := COMPLIANCE_MAPPINGS db1;
                published := published db1 ++ [completion_event document_id] |})
        | Raise _ => (Ok failure_response, db1)
        end
    | (Raise _, db1) => (Ok failure_response, db1)
    end.
Proof.
  unfold process_semantic_mapping, map_clauses, try_except, select_clauses.
  rewrite !bind_get_ret.
  match goal with |- context [for_each ?cs ?b O] => generalize (for_each cs b O) end.
  intros loop. unfold bind at 1.
  destruct (loop db) as [[created|e] db1]; [|reflexivity].
  unfold _publish_mapping_event, bind, call, modify, ret.
  fold (completion_event document_id).
  destruct (put_events (completion_event document_id)); reflexivity.
Qed.


(** The clause loop cannot fail when the two services answer. *)
Lemma map_clauses_answers (document_id : option string) (db : database) :
  (forall t, exists v, embed_text t = Ok v) ->
  (forall v, exists regs, similar_regulations v = Ok regs) ->
  exists created db1, map_clauses document_id db = (Ok created, db1).
Proof.
  intros He Hs. unfold map_clauses, select_clauses. rewrite bind_get_ret.
  generalize (List.filter (fun c => bool_decide (Some (DOCUMENT_ID c) = document_id))
                          (CLAUSES db)).
  intros clauses. generalize O. generalize db.
  induction clauses as [|clause clauses IH]; intros db0 created; [cbn; eauto|].
  cbn [for_each]. unfold bind at 1.
  assert (B : exists created' db', 
    (e <- generate_embedding embed_text (CLAUSE_TEXT clause) ;;
     store_clause_embedding embed_text (CLAUSE_ID clause) (CLAUSE_TEXT clause) ;;
     similar_regs <- find_similar_regulations similar_regulations e ;;
     for_each similar_regs (fun created reg =>
       insert_mapping (mapping_data clause reg) ;; ret (S created)) created) db0
    = (Ok created', db')).
  { unfold generate_embedding, store_clause_embedding, find_similar_regulations,
      generate_embedding, bind, call, modify, ret.
    destruct (He (CLAUSE_TEXT clause)) as [v ->].
    destruct (Hs v) as [regs ->].
    match goal with |- context [for_each regs ?b created ?d] =>
      pose proof (insert_loop clause regs created d) as L end.
    unfold bind, ret in L. rewrite L. eauto. }
  destruct B as (created' & db' & ->). apply IH.
Qed.

(** X25. When the event bus fails after every clause has been mapped, the run
    answers failure with 0 mappings created although all the rows of the
    document are in the table. *)
Theorem bus_failure_reports_failure_with_rows_in_place
  (document_id : option string) (db : database) :
  (forall t, exists v, embed_text t = Ok v) ->
  (forall v, exists regs, similar_regulations v = Ok regs) ->
  (forall ev, exists e, put_events ev = Raise e) ->
  let '(res, db') :=
    process_semantic_mapping embed_text similar_regulations put_events document_id db in
  res = Ok failure_response /\
  COMPLIANCE_MAPPINGS db'
  = COMPLIANCE_MAPPINGS db
    ++ flat_map (rows_of embed_text similar_regulations) (clauses_of db document_id) /\
  published db' = published db.
Proof.
  intros He Hs Hp. rewrite process_unfold.
  destruct (map_clauses_answers document_id db He Hs) as (created & db1 & E).
  pose proof (grows_map_clauses document_id db) as G. rewrite E in *. cbn [snd] in G.
  destruct (Hp (completion_event document_id)) as [e ->].
  split; [reflexivity|]. split; [|apply G].
  unfold map_clauses, select_clauses in E. rewrite bind_get_ret in E.
  apply (clause_loop embed_text similar_regulations) in E as (E1 & _). exact E1.
Qed.

End MapperFailures.

Section MapperFailureRuns.
Import Eff SemanticMappingHandler.

Definition failing_put_events (ev : bus_event) : result unit := Raise (Exception "bus down").

Lemma bus_failure_witness :
  let '(res, db') :=
    process_semantic_mapping sample_embed_text sample_similar_regulations failing_put_events
      (Some "doc1"%string) sample_database in
  res = Ok failure_response /\
  COMPLIANCE_MAPPINGS db' = [sample_row] /\
  published db' = [].
Proof.
  exact (bus_failure_reports_failure_with_rows_in_place
           sample_embed_text sample_similar_regulations failing_put_events
           (Some "doc1"%string) sample_database
           (fun t => ex_intro _ _ eq_refl) (fun v => ex_intro _ _ eq_refl)
           (fun ev => ex_intro _ _ eq_refl)).
Defined.

End MapperFailureRuns.

(** ** The pages of a clause *)

Section ClausePages.
Import PDFProcessor ClauseExtractionHandler.

(** X26. The pages of a clause are never empty: they are the numbers of the pages
    whose text holds the clause's first 100 characters, stripped, and page 1
    when no page does, even in a document without a page 1. A clause whose
    first 100 characters are blank is found on every page. *)
Theorem clause_pages_are_never_empty (clause_text : list ascii) (pages : list page_info) :
  let snippet := Str.strip (firstn 100 clause_text) in
  let holding := List.filter (fun page => Str.contains snippet (page_text page)) pages in
  let r := _find_clause_pages clause_text pages in
  r <> [] /\
  (holding <> [] -> r = map page_number holding) /\
  (holding = [] -> r = [1%Z]) /\
  (snippet = [] -> holding = pages).
Proof.
  cbv zeta. unfold _find_clause_pages. cbv zeta.
  set (snippet := Str.strip (firstn 100 clause_text)).
  split; [|split; [|split]].
  - destruct (List.filter _ pages) as [|p ps]; cbn; discriminate.
  - destruct (List.filter _ pages) as [|p ps]; [intros H; contradiction|reflexivity].
  - intros ->. reflexivity.
  - intros ->. induction pages as [|p ps IH]; [reflexivity|].
    cbn [List.filter]. destruct (page_text p); cbn; rewrite IH; reflexivity.
Qed.

End ClausePages.

(** ** Retrying with backoff *)

Section Retrying.
Import Eff Retry.
Local Open Scope Q_scope.
Variable A : Type.
Variable outcome : nat -> result A.

(** The waits before the attempts [first + 1 .. first + n]. *)
Definition waits (backoff_factor : Q) (first n : nat) : list Q :=
  map (fun attempt => backoff_factor * inject_Z (2 ^ Z.of_nat attempt)) (seq first n).

Lemma trace_eq (c c' : nat) (s s' : list Q) :
  c = c' -> s = s' -> {| calls := c; slept := s |} = {| calls := c'; slept := s' |}.
Proof. intros -> ->. reflexivity. Qed.

(** The loop up to the first call that returns. *)
Lemma attempt_loop_success (max : nat) (b : Q) (a : A) (k : nat) :
  forall (len start : nat) (tr : trace) (last : option exception),
  (start + len = max + 1)%nat -> (k < len)%nat ->
  (forall i, (i < k)%nat -> exists e, outcome (calls tr + i) = Raise e) ->
  outcome (calls tr + k) = Ok a ->
  attempt_loop A outcome (Z.of_nat max) b (seq start len) last tr
  = (Ok a, {| calls := calls tr + k + 1; slept := slept tr ++ waits b start k |}).
Proof.
  induction k as [|k IH]; intros len start tr last Hlen Hk Hfail Hok.
  - destruct len as [|len]; [lia|]. cbn [seq attempt_loop]. unfold try_except, func.
    rewrite Nat.add_0_r in Hok. rewrite Hok. f_equal.
    apply trace_eq; [lia|]. unfold waits. cbn. rewrite app_nil_r. reflexivity.
  - destruct len as [|len]; [lia|]. cbn [seq attempt_loop]. unfold try_except, func.
    destruct (Hfail O ltac:(lia)) as [e He]. rewrite Nat.add_0_r in He. rewrite He.
    replace (Z.of_nat start =? Z.of_nat max)%Z with false
      by (symmetry; apply Z.eqb_neq; lia).
    unfold bind, sleep, modify. cbn [calls slept].
    rewrite (IH len (S start) _ (Some e)); cbn [calls slept]; try lia.
    + f_equal. apply trace_eq; [lia|]. unfold waits. cbn [seq map].
      rewrite <- app_assoc. reflexivity.
    + intros i Hi. destruct (Hfail (S i) ltac:(lia)) as [e' He'].
      exists e'. rewrite <- He'. f_equal. lia.
    + rewrite <- Hok. f_equal. lia.
Qed.

(** The loop when every call raises. *)
Lemma attempt_loop_failure (max : nat) (b : Q) :
  forall (len start : nat) (tr : trace) (last : option exception),
  (start + len = max + 1)%nat -> (0 < len)%nat ->
  (forall i, (i < len)%nat -> exists e, outcome (calls tr + i) = Raise e) ->
  exists e, outcome (calls tr + (len - 1)) = Raise e /\
    attempt_loop A outcome (Z.of_nat max) b (seq start len) last tr
    = (Raise e, {| calls := calls tr + len; slept := slept tr ++ waits b start (len - 1) |}).
Proof.
  induction len as [|len IH]; intros start tr last Hlen Hpos Hfail; [lia|].
  cbn [seq attempt_loop]. unfold try_except, func.
  destruct (Hfail O ltac:(lia)) as [e He]. rewrite Nat.add_0_r in He. rewrite He.
  destruct len as [|len].
  - replace (Z.of_nat start =? Z.of_nat max)%Z with true
      by (symmetry; apply Z.eqb_eq; lia).
    exists e. cbn [Nat.sub]. rewrite Nat.add_0_r. split; [exact He|].
    unfold raise. f_equal. apply trace_eq; [lia|]. unfold waits. cbn.
    rewrite app_nil_r. reflexivity.
  - replace (Z.of_nat start =? Z.of_nat max)%Z with false
      by (symmetry; apply Z.eqb_neq; lia).
    unfold bind, sleep, modify. cbn [calls slept].
    destruct (IH (S start) {| calls := S (calls tr); slept := slept tr ++ [b * inject_Z (2 ^ Z.of_nat start)] |}
                 (Some e)) as (e' & He' & Hrun); cbn [calls slept]; try lia.
    + intros i Hi. destruct (Hfail (S i) ltac:(lia)) as [e'' He''].
      exists e''. rewrite <- He''. f_equal. lia.
    + cbn [calls slept] in He', Hrun. exists e'. split.
      * rewrite <- He'. f_equal. lia.
      * rewrite Hrun. f_equal. apply trace_eq; [lia|].
        replace (S (S len) - 1)%nat with (S (S len - 1)) by lia.
        unfold waits. cbn [seq map]. rewrite <- app_assoc. reflexivity.
Qed.

Lemma sum_app (xs ys : list Q) : Py.sum (xs ++ ys) == Py.sum xs + Py.sum ys.
Proof.
  unfold Py.sum. rewrite fold_left_app, (sum_from ys). unfold Py.sum. reflexivity.
Qed.

(** The waits double: together they are [backoff_factor * (2^n - 1)]. *)
Lemma waits_total (b : Q) (n : nat) :
  Py.sum (waits b 0 n) == b * (inject_Z (2 ^ Z.of_nat n) - 1).
Proof.
  induction n as [|n IH].
  - unfold waits, Py.sum. cbn [seq map fold_left].
    change (inject_Z (2 ^ Z.of_nat 0)) with 1. ring.
  - unfold waits in *. rewrite seq_S, map_app, sum_app, IH. cbn [map Nat.add].
    unfold Py.sum. cbn [fold_left].
    rewrite Nat2Z.inj_succ, Z.pow_succ_r by lia. rewrite inject_Z_mult.
    change (inject_Z 2) with 2. ring.
Qed.

(** X27. The wrapper returns the result of the first call that does not raise, if
    it is among the first [max_retries + 1] calls: it has then called the
    function once per failure plus once, and slept [backoff_factor * 2^i]
    after failure [i], which adds up to [backoff_factor * (2^k - 1)] for [k]
    failures. A function that never raises is called once, with no sleep. *)
Theorem retry_returns_first_success
  (max_retries k : nat) (backoff_factor : Q) (a : A) (tr : trace) :
  (k <= max_retries)%nat ->
  (forall i, (i < k)%nat -> exists e, outcome (calls tr + i) = Raise e) ->
  outcome (calls tr + k) = Ok a ->
  wrapper A outcome (Z.of_nat max_retries) backoff_factor tr
  = (Ok a, {| calls := calls tr + k + 1;
              slept := slept tr ++ waits backoff_factor 0 k |}) /\
  Py.sum (waits backoff_factor 0 k)
  == backoff_factor * (inject_Z (2 ^ Z.of_nat k) - 1).
Proof.
  intros Hk Hfail Hok. split; [|apply waits_total].
  unfold wrapper. replace (Z.to_nat (Z.of_nat max_retries + 1)) with (max_retries + 1)%nat by lia.
  apply attempt_loop_success; [lia|lia|exact Hfail|exact Hok].
Qed.

(** X28. When every one of the first [max_retries + 1] calls raises, the wrapper
    raises the exception of the last of them, after exactly
    [max_retries + 1] calls and [max_retries] sleeps: it does not sleep after
    the last failure. With a negative [max_retries] the function is never
    called and a [TypeError] is raised instead. *)
Theorem retry_gives_up_after_max_retries
  (max_retries : nat) (backoff_factor : Q) (tr : trace) :
  (forall i, (i <= max_retries)%nat -> exists e, outcome (calls tr + i) = Raise e) ->
  (exists e, outcome (calls tr + max_retries) = Raise e /\
     wrapper A outcome (Z.of_nat max_retries) backoff_factor tr
     = (Raise e, {| calls := calls tr + max_retries + 1;
                    slept := slept tr ++ waits backoff_factor 0 max_retries |})) /\
  (forall negative : Z, (negative < 0)%Z ->
     wrapper A outcome negative backoff_factor tr
     = (Raise (Exception "TypeError: exceptions must derive from BaseException"), tr)).
Proof.
  intros Hfail. split.
  - unfold wrapper.
    replace (Z.to_nat (Z.of_nat max_retries + 1)) with (max_retries + 1)%nat by lia.
    destruct (attempt_loop_failure max_retries backoff_factor (max_retries + 1) 0 tr None)
      as (e & He & Hrun); [lia|lia|intros i Hi; apply Hfail; lia|].
    replace (max_retries + 1 - 1)%nat with max_retries in * by lia.
    exists e. split; [exact He|]. rewrite Hrun. f_equal. apply trace_eq; [lia|reflexivity].
  - intros negative Hneg. unfold wrapper.
    replace (Z.to_nat (negative + 1)) with O by lia. reflexivity.
Qed.

End Retrying.

Section RetryRuns.
Import Eff Retry.
Local Open Scope Q_scope.

(** Two failures, then a result. *)
Definition flaky (n : nat) : result string :=
  if Nat.ltb n 2 then Raise (Exception "timeout") else Ok "done"%string.

Definition always_failing (n : nat) : result string := Raise (Exception "timeout").

Lemma retry_returns_first_success_witness :
  wrapper string flaky 2 1.0 {| calls := 0; slept := [] |}
  = (Ok "done"%string, {| calls := 3; slept := waits 1.0 0 2 |}) /\
  Py.sum (waits 1.0 0 2) == 3.
Proof.
  assert (F : forall i, (i < 2)%nat ->
            exists e, flaky (calls {| calls := 0; slept := [] |} + i) = Raise e).
  { intros i Hi. destruct i as [|[|i]]; [eexists; reflexivity..|lia]. }
  destruct (retry_returns_first_success string flaky 2 2 1.0 "done"%string
              {| calls := 0; slept := [] |} (le_n 2) F eq_refl) as [H1 H2].
  split; [exact H1|]. rewrite H2. reflexivity.
Defined.

Lemma retry_gives_up_witness :
  (exists e, always_failing 2 = Raise e /\
     wrapper string always_failing 2 1.0 {| calls := 0; slept := [] |}
     = (Raise e, {| calls := 3; slept := waits 1.0 0 2 |})) /\
  (forall negative : Z, (negative < 0)%Z ->
     wrapper string always_failing negative 1.0 {| calls := 0; slept := [] |}
     = (Raise (Exception "TypeError: exceptions must derive from BaseException"),
        {| calls := 0; slept := [] |})).
Proof.
  exact (retry_gives_up_after_max_retries string always_failing 2 1.0
           {| calls := 0; slept := [] |} (fun i _ => ex_intro _ _ eq_refl)).
Defined.

End RetryRuns.

(** ** Chunking a text *)

(** A chunk that lies inside the words [0 .. n), is not empty, holds at most
    [chunk_size] words and counts them right. *)
Definition sound_chunk (n chunk_size : Z) (c : Chunking.chunk) : Prop :=
  (0 <= Chunking.start_word c)%Z /\
  (Chunking.start_word c < Chunking.end_word c)%Z /\
  (Chunking.end_word c <= n)%Z /\
  (Chunking.end_word c - Chunking.start_word c <= chunk_size)%Z /\
  Z.of_nat (Chunking.word_count c) = (Chunking.end_word c - Chunking.start_word c)%Z.

(** Word number [i] is in one of the chunks. *)
Definition covered (chunks : list Chunking.chunk) (i : Z) : Prop :=
  Exists (fun c => (Chunking.start_word c <= i < Chunking.end_word c)%Z) chunks.

Section ChunkingFacts.
Import Chunking.

Example chunks_of_five_words :
  map (fun c => (start_word c, end_word c, text c))
      (default [] (chunk_text 5 (Str.str "a b c d e") 3 1))
  = [ (0%Z, 3%Z, Str.str "a b c"); (2%Z, 5%Z, Str.str "c d e") ].
Proof. vm_compute. reflexivity. Qed.

Lemma slice_words_length (words : list (list ascii)) (a b : Z) :
  (0 <= a <= b)%Z -> (b <= Z.of_nat (length words))%Z ->
  Z.of_nat (length (slice_words words a b)) = (b - a)%Z.
Proof.
  intros Ha Hb. unfold slice_words, Str.clip. cbv zeta.
  replace (a <? 0)%Z with false by (symmetry; apply Z.ltb_ge; lia).
  replace (b <? 0)%Z with false by (symmetry; apply Z.ltb_ge; lia).
  rewrite length_firstn, length_skipn. lia.
Qed.

(** The loop from a start inside the text, with an overlap smaller than the
    chunk size: it ends within the fuel, and what it appends is sound and
    covers the words from [start] on. *)
Lemma chunk_loop_covers (words : list (list ascii)) (chunk_size overlap : Z) :
  (0 <= overlap < chunk_size)%Z ->
  forall (fuel : nat) (start : Z) (index : nat) (chunks : list chunk),
  (0 <= start < Z.of_nat (length words))%Z ->
  (Z.of_nat (length words) - start <= Z.of_nat fuel)%Z ->
  exists added,
    chunk_loop fuel words chunk_size overlap start index chunks = Some (chunks ++ added) /\
    Forall (sound_chunk (Z.of_nat (length words)) chunk_size) added /\
    (forall i, (start <= i < Z.of_nat (length words))%Z -> covered added i) /\
    (exists c, last added = Some c /\ end_word c = Z.of_nat (length words)) /\
    (Z.of_nat (length added) <= Z.of_nat (length words) - start)%Z.
Proof.
  intros Ho. set (n := Z.of_nat (length words)).
  induction fuel as [|fuel IH]; intros start index chunks Hs Hf; [lia|].
  cbn [chunk_loop]. fold n. cbv zeta.
  replace (start <? n)%Z with true by (symmetry; apply Z.ltb_lt; lia).
  set (end_ := Z.min (start + chunk_size) n).
  set (c := {| chunk_index := index;
               text := PDFProcessor.join [" "%char] (slice_words words start end_);
               start_word := start; end_word := end_;
               word_count := length (slice_words words start end_) |}).
  assert (Hc : sound_chunk n chunk_size c).
  { unfold sound_chunk, c. cbn [start_word end_word word_count].
    rewrite slice_words_length by (unfold end_; fold n; lia). unfold end_. lia. }
  destruct (end_ <? n)%Z eqn:E.
  - apply Z.ltb_lt in E. assert (Hend : end_ = (start + chunk_size)%Z) by (unfold end_ in *; lia).
    replace (end_ - overlap >=? n)%Z with false by (symmetry; rewrite Z.geb_leb; apply Z.leb_gt; lia).
    destruct (IH (end_ - overlap)%Z (S index) (chunks ++ [c])) as (added & R & F & C & L & N);
      [lia|lia|].
    exists (c :: added). split; [rewrite R, <- app_assoc; reflexivity|].
    split; [constructor; assumption|]. split; [|split].
    + intros i Hi. destruct (Z.lt_ge_cases i end_) as [Hlt|Hge].
      * apply Exists_cons_hd. cbn [start_word end_word c]. lia.
      * apply Exists_cons_tl. apply C. lia.
    + destruct L as (l & L & Hl). exists l. split; [|exact Hl].
      destruct added as [|a added]; [discriminate L|]. exact L.
    + cbn [length]. lia.
  - apply Z.ltb_ge in E. assert (Hend : end_ = n) by (unfold end_ in *; lia).
    replace (end_ >=? n)%Z with true by (symmetry; rewrite Z.geb_leb; apply Z.leb_le; lia).
    exists [c]. split; [reflexivity|]. split; [constructor; [exact Hc|constructor]|].
    split; [|split].
    + intros i Hi. apply Exists_cons_hd. cbn [start_word end_word c]. lia.
    + exists c. split; [reflexivity|exact Hend].
    + cbn [length]. lia.
Qed.

(** X29. With an overlap from 0 up to, but not reaching, the chunk size, chunking
    ends: as many turns of the loop as the text has words are enough. Every
    chunk lies inside the text, is not empty, holds at most [chunk_size]
    words and counts them right; every word is in a chunk, the last chunk
    ends with the last word, and there are at most as many chunks as
    words. *)
Theorem chunking_ends_and_covers_every_word (t : list ascii) (chunk_size overlap : Z) :
  (0 <= overlap < chunk_size)%Z -> Str.split t <> [] ->
  let n := Z.of_nat (length (Str.split t)) in
  exists chunks,
    (forall fuel, (length (Str.split t) <= fuel)%nat ->
       chunk_text fuel t chunk_size overlap = Some chunks) /\
    Forall (sound_chunk n chunk_size) chunks /\
    (forall i, (0 <= i < n)%Z -> covered chunks i) /\
    (exists c, last chunks = Some c /\ end_word c = n) /\
    (length chunks <= length (Str.split t))%nat.
Proof.
  intros Ho Hw. cbv zeta. unfold chunk_text.
  assert (Ht : Nat.eqb (length t) 0 = false).
  { destruct t; [exfalso; apply Hw; reflexivity|reflexivity]. }
  rewrite Ht. replace (chunk_size <=? 0)%Z with false by (symmetry; apply Z.leb_gt; lia).
  cbn [orb]. cbv zeta.
  assert (Hn : (0 < Z.of_nat (length (Str.split t)))%Z).
  { destruct (Str.split t); [contradiction|cbn [length]; lia]. }
  destruct (Z.of_nat (length (Str.split t)) <=? chunk_size)%Z eqn:E.
  - apply Z.leb_le in E. eexists. split; [intros fuel _; reflexivity|].
    split; [constructor; [|constructor]; unfold sound_chunk; cbn; lia|].
    split; [intros i Hi; apply Exists_cons_hd; cbn; lia|].
    split; [eexists; split; reflexivity|cbn; lia].
  - destruct (chunk_loop_covers (Str.split t) chunk_size overlap Ho
                (length (Str.split t)) 0 0 []) as (added & R & F & C & L & N); [lia|lia|].
    exists added. split; [|split; [exact F|split; [exact C|split; [exact L|lia]]]].
    intros fuel Hfuel.
    destruct (chunk_loop_covers (Str.split t) chunk_size overlap Ho fuel 0 0 [])
      as (added' & R' & _); [lia|lia|].
    rewrite R'. f_equal. cbn [app].
    clear -R R' Ho Hn Hfuel.
    assert (G : forall f1 f2 start index chunks r1 r2,
               chunk_loop f1 (Str.split t) chunk_size overlap start index chunks = Some r1 ->
               chunk_loop f2 (Str.split t) chunk_size overlap start index chunks = Some r2 ->
               r1 = r2).
    { induction f1 as [|f1 IH]; intros f2 start index chunks r1 r2 H1 H2.
      - cbn in H1. destruct (start <? _)%Z eqn:E; [discriminate H1|].
        destruct f2; cbn in H2; rewrite E in H2; congruence.
      - destruct f2 as [|f2].
        + cbn in H2. destruct (start <? _)%Z eqn:E; [discriminate H2|].
          cbn in H1. rewrite E in H1. congruence.
        + cbn [chunk_loop] in H1, H2. cbv zeta in H1, H2.
          destruct (start <? _)%Z; [|congruence].
          destruct (_ >=? _)%Z; [congruence|]. eapply IH; eassumption. }
    exact (G _ _ _ _ _ _ _ R' R).
Qed.

Lemma chunking_ends_witness :
  exists chunks,
    (forall fuel, (length (Str.split (Str.str "a b c d e")) <= fuel)%nat ->
       chunk_text fuel (Str.str "a b c d e") 3 1 = Some chunks) /\
    Forall (sound_chunk 5 3) chunks /\
    (forall i, (0 <= i < 5)%Z -> covered chunks i) /\
    (exists c, last chunks = Some c /\ end_word c = 5%Z) /\
    (length chunks <= 5)%nat.
Proof.
  exact (chunking_ends_and_covers_every_word (Str.str "a b c d e") 3 1
           ltac:(lia) ltac:(vm_compute; discriminate)).
Defined.

(** From a start at or before 0, with an overlap of at least the chunk size,
    the loop never ends. *)
Lemma chunk_loop_stuck (words : list (list ascii)) (chunk_size overlap : Z) :
  (0 < chunk_size <= overlap)%Z -> (chunk_size < Z.of_nat (length words))%Z ->
  forall (fuel : nat) (start : Z) (index : nat) (chunks : list chunk),
  (start <= 0)%Z ->
  chunk_loop fuel words chunk_size overlap start index chunks = None.
Proof.
  intros Ho Hn. induction fuel as [|fuel IH]; intros start index chunks Hs;
    cbn [chunk_loop]; cbv zeta;
    (replace (start <? Z.of_nat (length words))%Z with true
       by (symmetry; apply Z.ltb_lt; lia)); [reflexivity|].
  replace (Z.min (start + chunk_size) (Z.of_nat (length words))) with (start + chunk_size)%Z
    by lia.
  replace (start + chunk_size <? Z.of_nat (length words))%Z with true
    by (symmetry; apply Z.ltb_lt; lia).
  replace (start + chunk_size - overlap >=? Z.of_nat (length words))%Z with false
    by (symmetry; rewrite Z.geb_leb; apply Z.leb_gt; lia).
  apply IH. lia.
Qed.

(** X30. With an overlap that is at least the chunk size, chunking a text of more
    than [chunk_size] words never ends: the start of the next chunk does not
    move forward, and the loop runs out of any number of turns. *)
Theorem chunking_never_ends_when_overlap_reaches_chunk_size
  (t : list ascii) (chunk_size overlap : Z) :
  (0 < chunk_size <= overlap)%Z ->
  (chunk_size < Z.of_nat (length (Str.split t)))%Z ->
  forall fuel, chunk_text fuel t chunk_size overlap = None.
Proof.
  intros Ho Hn fuel. unfold chunk_text.
  assert (Ht : Nat.eqb (length t) 0 = false).
  { destruct t; [cbn in Hn; lia|reflexivity]. }
  rewrite Ht. replace (chunk_size <=? 0)%Z with false by (symmetry; apply Z.leb_gt; lia).
  cbn [orb]. cbv zeta.
  replace (Z.of_nat (length (Str.split t)) <=? chunk_size)%Z with false
    by (symmetry; apply Z.leb_gt; lia).
  apply chunk_loop_stuck; [exact Ho|exact Hn|lia].
Qed.

Lemma chunking_never_ends_witness :
  (0 < 2 <= 2)%Z /\
  (2 < Z.of_nat (length (Str.split (Str.str "a b c d e"))))%Z /\
  (forall fuel, chunk_text fuel (Str.str "a b c d e") 2 2 = None).
Proof.
  assert (H1 : (0 < 2 <= 2)%Z) by lia.
  assert (H2 : (2 < Z.of_nat (length (Str.split (Str.str "a b c d e"))))%Z)
    by (vm_compute; reflexivity).
  split; [exact H1|]. split; [exact H2|].
  exact (chunking_never_ends_when_overlap_reaches_chunk_size (Str.str "a b c d e") 2 2 H1 H2).
Defined.

End ChunkingFacts.
